(** * Scheduled audio-capture orchestrator: model and verified properties

    Shallow embedding of [app/utils/RecordingBackgroundUtil.py]
    (class [EnhancedStationRecordingService]), of
    [app/utils/system_validation.py] (class [OSSpecificSystemValidator]),
    of the schedule validation of [app/models/StationScheduleModel.py]
    and of [save_upload_file] of [app/utils/file_upload.py].

    Conventions of the model
    - A Python [str] is a [string] holding its UTF-8 encoding; the text
      algorithms ([split], [strip], [int], [<]) work on its list of code
      points, with the white space and the decimal digits of Unicode 14.
    - Wall-clock readings ([datetime.now(nairobi_tz)]) are passed to the
      pure schedule functions as a [LocalTime] argument.
    - Python dictionaries are [gmap]s keyed by strings; the properties
      proved do not depend on the order in which keys are enumerated.
    - The effectful part runs in a state monad over [State]: the two
      service tables, the recordings table of the database, the local
      files, a virtual clock in milliseconds that [asyncio.sleep]
      advances, and the trace of observable events. What the operating
      system, the capture process and the blob store answer is given by
      an [Env] of oracles, indexed by a counter of interactions, so every
      theorem holds for all behaviours of the surroundings.
    - Database calls ([execute], [commit]) succeed; coroutines run to
      completion without interleaving. Whether a cancelled station task
      gets to run its handler is an oracle too.
    - Floating-point results are kept as the expression that computes
      them ([pyfloat]). The disk and memory sizes of the preflight checks
      are fractions: below 2^53 bytes the division by [1024**3] is exact
      in binary64, and the comparisons of the code with [100], with the
      configured minimum and with [0.1] give the same answers on the
      fractions. *)

From Stdlib Require Import ZArith QArith Qround Ascii String.
From stdpp Require Import gmap strings list fin_maps pretty.

(** ** Python values stored in the JSON schedule *)

Inductive pyval : Type :=
  | PNone
  | PBool (b : bool)
  | PInt (z : Z)
  | PStr (s : string).

(** Python truthiness, as used by [if start_time and end_time]. *)
Definition truthy (v : pyval) : bool :=
  match v with
  | PNone => false
  | PBool b => b
  | PInt z => negb (z =? 0)%Z
  | PStr s => negb (String.eqb s "")
  end.

(** ** Text: code points, [str.split], [str.strip], [int(str)] and [<] *)

(** A [string] is read as UTF-8, the encoding of the literals of this
    file; a byte outside a well-formed sequence stands for the code point
    of its own number. *)
Module Utf8.

Definition bytes (s : string) : list N := N_of_ascii <$> list_ascii_of_string s.

Definition is_cont (b : N) : bool := ((128 <=? b) && (b <? 192))%N.

Fixpoint decode (l : list N) : list N :=
  match l with
  | [] => []
  | b :: r =>
      if (b <? 128)%N then b :: decode r
      else if ((194 <=? b) && (b <? 224))%N then
        match r with
        | c1 :: r1 =>
            if is_cont c1 then ((b - 192) * 64 + (c1 - 128))%N :: decode r1
            else b :: decode r
        | _ => b :: decode r
        end
      else if ((224 <=? b) && (b <? 240))%N then
        match r with
        | c1 :: c2 :: r2 =>
            let cp := ((b - 224) * 4096 + (c1 - 128) * 64 + (c2 - 128))%N in
            if (is_cont c1 && is_cont c2 && (2048 <=? cp) &&
                negb ((55296 <=? cp) && (cp <? 57344)))%N
            then cp :: decode r2 else b :: decode r
        | _ => b :: decode r
        end
      else if ((240 <=? b) && (b <? 245))%N then
        match r with
        | c1 :: c2 :: c3 :: r3 =>
            let cp := ((b - 240) * 262144 + (c1 - 128) * 4096 +
                       (c2 - 128) * 64 + (c3 - 128))%N in
            if (is_cont c1 && is_cont c2 && is_cont c3 &&
                (65536 <=? cp) && (cp <? 1114112))%N
            then cp :: decode r3 else b :: decode r
        | _ => b :: decode r
        end
      else b :: decode r
  end.

Definition encode_point (cp : N) : list N :=
  (if cp <? 128 then [cp]
   else if cp <? 2048 then [192 + cp / 64; 128 + cp mod 64]
   else if cp <? 65536 then [224 + cp / 4096; 128 + cp / 64 mod 64; 128 + cp mod 64]
   else [240 + cp / 262144; 128 + cp / 4096 mod 64; 128 + cp / 64 mod 64;
         128 + cp mod 64])%N.

Definition encode (l : list N) : string :=
  string_of_list_ascii (ascii_of_N <$> (l ≫= encode_point)).

End Utf8.

Module PyStr.

(** The code points of a [str]. *)
Definition chars (s : string) : list N := Utf8.decode (Utf8.bytes s).

Definition text (l : list N) : string := Utf8.encode l.

Definition colon : N := 58.
Definition underscore : N := 95.
Definition plus : N := 43.
Definition minus : N := 45.
Definition newline : N := 10.

(** [str.isspace] of one character ([Py_UNICODE_ISSPACE]), Unicode 14. *)
Definition unicode_space (c : N) : bool :=
  ((9 <=? c) && (c <=? 13) || (28 <=? c) && (c <=? 32) ||
   (c =? 133) || (c =? 160) || (c =? 5760) ||
   (8192 <=? c) && (c <=? 8202) || (c =? 8232) || (c =? 8233) ||
   (c =? 8239) || (c =? 8287) || (c =? 12288))%N.

(** The code points of the digit zero of every script with decimal
    digits other than ASCII (Unicode 14); the other nine digits follow
    each of them. *)
Definition decimal_zeros : list N :=
  [1632; 1776; 1984; 2406; 2534; 2662; 2790; 2918;
   3046; 3174; 3302; 3430; 3558; 3664; 3792; 3872;
   4160; 4240; 6112; 6160; 6470; 6608; 6784; 6800;
   6992; 7088; 7232; 7248; 42528; 43216; 43264; 43472;
   43504; 43600; 44016; 65296; 66720; 68912; 69734; 69872;
   69942; 70096; 70384; 70736; 70864; 71248; 71360; 71472;
   71904; 72016; 72784; 73040; 73120; 92768; 92864; 93008;
   120782; 120792; 120802; 120812; 120822; 123200; 123632; 125264;
   130032]%N.

(** [Py_UNICODE_TODECIMAL] outside ASCII. *)
Definition unicode_decimal (c : N) : option N :=
  (λ z, c - z)%N <$> find (λ z, (z <=? c) && (c <? z + 10))%N decimal_zeros.

(** What [int()] does to a [str] before it parses
    ([_PyUnicode_TransformDecimalAndSpaceToASCII]): a character below 127
    stays, any other white space becomes a blank, any other decimal digit
    its ASCII digit, and the rest a question mark. *)
Definition to_ascii (c : N) : N :=
  (if c <? 127 then c
   else if unicode_space c then 32
   else match unicode_decimal c with
        | Some d => 48 + d
        | None => 63
        end)%N.

Definition transform (l : list N) : list N := to_ascii <$> l.

(** [Py_ISSPACE]: the blanks the parser of [int()] skips. *)
Definition is_space (c : N) : bool :=
  ((9 <=? c) && (c <=? 13) || (c =? 32))%N.

Definition is_digit (c : N) : bool :=
  ((48 <=? c) && (c <=? 57))%N.

Definition digit_val (c : N) : Z := Z.of_N c - 48.

(** [s.split(sep)]: always at least one piece. *)
Fixpoint split_on (sep : N) (l : list N) : list (list N) :=
  match l with
  | [] => [[]]
  | c :: r =>
      if (c =? sep)%N then [] :: split_on sep r
      else match split_on sep r with
           | [] => [[c]]
           | h :: t => (c :: h) :: t
           end
  end.

Fixpoint lstrip_by (blank : N → bool) (l : list N) : list N :=
  match l with
  | [] => []
  | c :: r => if blank c then lstrip_by blank r else l
  end.

Definition rstrip_by (blank : N → bool) (l : list N) : list N :=
  rev (lstrip_by blank (rev l)).

Definition strip_by (blank : N → bool) (l : list N) : list N :=
  rstrip_by blank (lstrip_by blank l).

(** [s.strip()] *)
Definition str_strip : list N → list N := strip_by unicode_space.

(** [s.startswith(prefix)] *)
Fixpoint startswith (l pre : list N) : bool :=
  match pre, l with
  | [], _ => true
  | p :: pre', c :: l' => (c =? p)%N && startswith l' pre'
  | _ :: _, [] => false
  end.

(** [a < b] on [str]: the first differing code point decides. *)
Fixpoint str_lt (a b : list N) : bool :=
  match a, b with
  | _, [] => false
  | [], _ :: _ => true
  | x :: a', y :: b' => (x <? y)%N || (x =? y)%N && str_lt a' b'
  end.

(** Digits with single underscores between them; [after_digit] tells
    whether the previous character was a digit. *)
Fixpoint digits_ok (after_digit : bool) (l : list N) : bool :=
  match l with
  | [] => after_digit
  | c :: r =>
      if is_digit c then digits_ok true r
      else if (c =? underscore)%N && after_digit then digits_ok false r
      else false
  end.

Definition digit_count (l : list N) : nat := length (filter (λ c, is_digit c = true) l).

Definition digits_value (l : list N) : Z :=
  fold_left (λ acc c, if is_digit c then (acc * 10 + digit_val c)%Z else acc) l 0%Z.

(** CPython refuses decimal literals of more than this many digits. *)
Definition int_max_str_digits : nat := 4300.

Definition split_sign (l : list N) : bool * list N :=
  match l with
  | c :: r =>
      if (c =? minus)%N then (true, r)
      else if (c =? plus)%N then (false, r)
      else (false, l)
  | [] => (false, [])
  end.

(** [PyLong_FromString] in base 10, on the transformed text. *)
Definition py_long (l : list N) : option Z :=
  let '(neg, body) := split_sign (strip_by is_space l) in
  if digits_ok false body && (digit_count body <=? int_max_str_digits) then
    Some (if neg then - digits_value body else digits_value body)%Z
  else None.

(** [int(s)] for a [str]; [None] stands for [ValueError]. *)
Definition py_int (l : list N) : option Z := py_long (transform l).

End PyStr.

(** ** ScheduleResolver *)

Inductive Weekday := Monday | Tuesday | Wednesday | Thursday | Friday | Saturday | Sunday.

(** [now.strftime('%A').lower()] *)
Definition day_name (d : Weekday) : string :=
  match d with
  | Monday => "monday" | Tuesday => "tuesday" | Wednesday => "wednesday"
  | Thursday => "thursday" | Friday => "friday" | Saturday => "saturday"
  | Sunday => "sunday"
  end.

(** One reading of [datetime.now(pytz.timezone('Africa/Nairobi'))]. *)
Record LocalTime := {
  weekday : Weekday;
  hour : nat;
  minute : nat;
  second : nat
}.

Definition current_seconds (now : LocalTime) : Z :=
  (Z.of_nat (hour now) * 3600 + Z.of_nat (minute now) * 60 + Z.of_nat (second now))%Z.

(** A schedule session is a JSON object. *)
Abbreviation Session := (gmap string pyval).

Definition session_get (s : Session) (k : string) : pyval := default PNone (s !! k).
Definition session_get_or (s : Session) (k : string) (d : pyval) : pyval := default d (s !! k).

Record StationSchedule := { sessions : gmap string (list Session) }.

(** [_time_to_seconds]: any exception yields 0. A value that is not a
    string has no [split] method. *)
Definition _time_to_seconds (time_str : pyval) : Z :=
  match time_str with
  | PStr s =>
      match PyStr.split_on PyStr.colon (PyStr.chars s) with
      | [a; b] =>
          match PyStr.py_int a, PyStr.py_int b with
          | Some h, Some m => (h * 3600 + m * 60)%Z
          | _, _ => 0%Z
          end
      | _ => 0%Z
      end
  | _ => 0%Z
  end.

Definition session_window (session : Session) : Z * Z :=
  let start_seconds := _time_to_seconds (session_get session "start_time") in
  let end_seconds := _time_to_seconds (session_get session "end_time") in
  let end_seconds := if (end_seconds <=? start_seconds)%Z then (end_seconds + 24 * 3600)%Z else end_seconds in
  (start_seconds, end_seconds).

(** Body of the [for session in schedule.sessions[day_name]] loop. *)
Definition session_matches (cur : Z) (session : Session) : bool :=
  truthy (session_get session "start_time") && truthy (session_get session "end_time") &&
  let '(start_seconds, end_seconds) := session_window session in
  (start_seconds <=? cur)%Z && (cur <=? end_seconds)%Z.

Fixpoint scan_sessions (cur : Z) (l : list Session) : option Session :=
  match l with
  | [] => None
  | session :: rest =>
      if session_matches cur session then Some session else scan_sessions cur rest
  end.

Definition _get_current_session (schedule : option StationSchedule) (now : LocalTime) : option Session :=
  match schedule with
  | None => None
  | Some sch =>
      if decide (sessions sch = ∅) then None
      else match sessions sch !! day_name (weekday now) with
           | None => None
           | Some day_sessions => scan_sessions (current_seconds now) day_sessions
           end
  end.

Definition _should_start_recording (session : Session) (now : LocalTime) : bool :=
  let start_seconds := _time_to_seconds (session_get_or session "start_time" (PStr "00:00")) in
  (start_seconds <=? current_seconds now)%Z.

Definition _should_stop_recording (session : Session) (now : LocalTime) : bool :=
  let end_seconds := _time_to_seconds (session_get_or session "end_time" (PStr "23:59")) in
  (end_seconds <=? current_seconds now)%Z.

Definition mk_session (start_time end_time : string) : Session :=
  <["start_time" := PStr start_time]> (<["end_time" := PStr end_time]> ∅).

(** ** Schedule validation ([StationSchedule.validate_sessions])

    A schedule is stored either by [get_or_create_station_schedule],
    as [get_empty_sessions], or by [update_station_schedule], which
    commits only when [validate_sessions] answers [valid]. A
    [StationSchedule] of the model is a dictionary of lists of
    dictionaries, on which the two [isinstance] tests pass. [None] stands
    for an exception, which [update_station_schedule] turns into an HTTP
    error without committing. *)

Definition required_days : list string :=
  ["sunday"; "monday"; "tuesday"; "wednesday"; "thursday"; "friday"; "saturday"].

(** The error lines; a constructor stands for one f-string. *)
Inductive ScheduleError :=
  | MissingDay (day : string)
  | MissingField (day : string) (index : nat) (field : string)
  | InvalidStartTime (day : string) (index : nat)
  | InvalidEndTime (day : string) (index : nat)
  | StartNotBeforeEnd (day : string) (index : nat).

Inductive ScheduleWarning :=
  | SessionsConflict (day : string) (i j : nat) (session1 session2 : Session).

Definition _is_valid_time (time_str : pyval) : bool :=
  match time_str with
  | PStr s =>
      match PyStr.split_on PyStr.colon (PyStr.chars s) with
      | [a; b] =>
          match PyStr.py_int a, PyStr.py_int b with
          | Some hour, Some minute =>
              ((0 <=? hour) && (hour <=? 23) && (0 <=? minute) && (minute <=? 59))%Z
          | _, _ => false
          end
      | _ => false
      end
  | _ => false
  end.

Definition py_number (v : pyval) : option Z :=
  match v with
  | PInt z => Some z
  | PBool b => Some (if b then 1 else 0)%Z
  | _ => None
  end.

(** [a < b] between two JSON values: two strings, or two numbers;
    anything else raises [TypeError]. *)
Definition py_lt (a b : pyval) : option bool :=
  match a, b with
  | PStr x, PStr y => Some (PyStr.str_lt (PyStr.chars x) (PyStr.chars y))
  | _, _ =>
      match py_number a, py_number b with
      | Some x, Some y => Some (x <? y)%Z
      | _, _ => None
      end
  end.

(** [a >= b] *)
Definition py_ge (a b : pyval) : option bool := negb <$> py_lt a b.

Definition _validate_session (session : Session) (day : string) (index : nat)
  : option (list ScheduleError) :=
  let errors :=
    omap (λ field, if decide (is_Some (session !! field)) then None
                   else Some (MissingField day index field))
      ["program_id"; "start_time"; "end_time"] in
  let errors :=
    match session !! "start_time" with
    | Some v => if _is_valid_time v then errors else errors ++ [InvalidStartTime day index]
    | None => errors
    end in
  let errors :=
    match session !! "end_time" with
    | Some v => if _is_valid_time v then errors else errors ++ [InvalidEndTime day index]
    | None => errors
    end in
  match session !! "start_time", session !! "end_time" with
  | Some start_time, Some end_time =>
      match py_ge start_time end_time with
      | Some true => Some (errors ++ [StartNotBeforeEnd day index])
      | Some false => Some errors
      | None => None
      end
  | _, _ => Some errors
  end.

Definition _sessions_overlap (session1 session2 : Session) : option bool :=
  let start1 := session_get session1 "start_time" in
  let end1 := session_get session1 "end_time" in
  let start2 := session_get session2 "start_time" in
  let end2 := session_get session2 "end_time" in
  if negb (truthy start1 && truthy end1 && truthy start2 && truthy end2) then Some false
  else
    match py_lt start1 end2 with
    | Some true => py_lt start2 end1
    | other => other
    end.

(** The inner loop: [session1], at position [i], against the sessions
    after it. *)
Fixpoint conflicts_with (day : string) (i : nat) (session1 : Session)
    (j : nat) (later : list Session) : option (list ScheduleWarning) :=
  match later with
  | [] => Some []
  | session2 :: rest =>
      match _sessions_overlap session1 session2 with
      | None => None
      | Some overlap =>
          match conflicts_with day i session1 (S j) rest with
          | None => None
          | Some more =>
              Some (if overlap
                    then SessionsConflict day (S i) (S j) session1 session2 :: more
                    else more)
          end
      end
  end.

Fixpoint check_conflicts_from (day : string) (i : nat) (sessions : list Session)
  : option (list ScheduleWarning) :=
  match sessions with
  | [] => Some []
  | session1 :: rest =>
      match conflicts_with day i session1 (S i) rest with
      | None => None
      | Some here =>
          match check_conflicts_from day (S i) rest with
          | None => None
          | Some more => Some (here ++ more)
          end
      end
  end.

Definition _check_day_conflicts (sessions : list Session) (day : string)
  : option (list ScheduleWarning) :=
  check_conflicts_from day 0 sessions.

(** [for i, session in enumerate(day_sessions)], from index [i] on. *)
Fixpoint session_errors (day : string) (i : nat) (sessions : list Session)
  : option (list ScheduleError) :=
  match sessions with
  | [] => Some []
  | session :: rest =>
      match _validate_session session day i with
      | None => None
      | Some here =>
          match session_errors day (S i) rest with
          | None => None
          | Some more => Some (here ++ more)
          end
      end
  end.

Record ScheduleValidation := {
  valid : bool;
  schedule_errors : list ScheduleError;
  schedule_warnings : list ScheduleWarning
}.

(** [for day in required_days], over the days still to visit. *)
Fixpoint validate_days (schedule : StationSchedule) (days : list string)
  : option (list ScheduleError * list ScheduleWarning) :=
  match days with
  | [] => Some ([], [])
  | day :: rest =>
      let this :=
        match sessions schedule !! day with
        | None => Some ([MissingDay day], [])
        | Some day_sessions =>
            match session_errors day 0 day_sessions with
            | None => None
            | Some errors =>
                match _check_day_conflicts day_sessions day with
                | None => None
                | Some conflicts => Some (errors, conflicts)
                end
            end
        end in
      match this with
      | None => None
      | Some (errors, warnings) =>
          match validate_days schedule rest with
          | None => None
          | Some (more_errors, more_warnings) =>
              Some (errors ++ more_errors, warnings ++ more_warnings)
          end
      end
  end.

Definition validate_sessions (schedule : StationSchedule) : option ScheduleValidation :=
  match validate_days schedule required_days with
  | None => None
  | Some (errors, warnings) =>
      Some {| valid := bool_decide (length errors = 0);
              schedule_errors := errors;
              schedule_warnings := warnings |}
  end.

(** The gate of [update_station_schedule]: the schedule is committed only
    when [validate_sessions] returns and answers [valid]. *)
Definition passes_validation (schedule : StationSchedule) : bool :=
  match validate_sessions schedule with
  | Some result => valid result
  | None => false
  end.

Definition get_empty_sessions : StationSchedule :=
  {| sessions := list_to_map ((λ day, (day, [])) <$> required_days) |}.

(* ===================================================================== *)
(** * The recording service *)
(* ===================================================================== *)

(** ** Data *)

Inductive pyfloat : Type :=
  | total_minutes (delta_ms : Z)          (* (t1 - t0).total_seconds() / 60 *)
  | megabytes (size : nat)                (* size / (1024 * 1024) *)
  | py_round (x : pyfloat) (ndigits : nat). (* round(x, ndigits) *)

Inductive RecordingStatus := scheduled | recording | completed | failed | cancelled.

Definition is_terminal (st : RecordingStatus) : bool :=
  match st with completed | failed => true | _ => false end.

(** The columns of [RadioSessionRecording] the service reads or writes. *)
Record RadioSessionRecording := {
  station_id : string;
  program_id : option string;
  actual_start_time : option Z;
  actual_end_time : option Z;
  recording_status : RecordingStatus;
  recording_file_path : option string;
  recording_file_url : option string;
  file_size_mb : option pyfloat;
  duration_minutes : option pyfloat;
  error_message : option string
}.

Record Process := { pid : Z }.

(** One entry of [recording_processes]. *)
Record RecordingData := {
  rd_process : Process;
  rd_recording_id : string;
  rd_file_path : string;
  rd_start_time : Z;
  rd_session : Session
}.

Inductive Task := TaskRunning | TaskFinished.

Inductive Signal := SIGTERM | SIGKILL.

Inductive Event :=
  | EvSleep (ms : Z)                       (* asyncio.sleep *)
  | EvSignal (p : Z) (sig : Signal)        (* terminate / kill request *)
  | EvUpload (filename : string)           (* save_upload_file called *)
  | EvStatus (id : string) (st : RecordingStatus) (* recording.recording_status = st, not yet committed *)
  | EvRemove (path : string)               (* os.remove called by _safe_file_delete *)
  | EvCommit (id : string) (st : RecordingStatus) (* db.commit of the record *)
  | EvDeregister (key : string)            (* del recording_processes[key] *)
  | EvCancel (sid : string).               (* task.cancel() *)

Inductive IoOutcome :=
  | IoOk
  | IoDenied (msg : string)     (* PermissionError / IOError *)
  | IoError (msg : string).     (* any other exception *)

Inductive SignalOutcome := SigDelivered | SigNoProcess | SigError (msg : string).

(** What a call of [save_upload_file] does. On success the content is
    written to [file_path] under [static/uploads]. On an exception the
    handler removes the file it had opened: [residue] is [None] when no
    file had been opened, [Some (file_path, None)] when the file is gone
    and [Some (file_path, Some bytes)] when the removal failed too and
    [bytes] stayed. *)
Inductive UploadOutcome :=
  | Uploaded (file_path file_url : string)
  | UploadFailed (msg : string) (residue : option (string * option (list Byte.byte))).

Record Env := {
  file_locked : string → nat → bool;            (* open(path, 'r+b') is refused *)
  getsize_error : string → nat → option string; (* os.path.getsize raises *)
  open_outcome : string → nat → IoOutcome;      (* open(path, 'rb') and read *)
  remove_outcome : string → nat → IoOutcome;    (* os.remove *)
  upload_outcome : string → nat → UploadOutcome; (* save_upload_file *)
  process_alive : Z → nat → bool;               (* process.poll() is None *)
  signal_outcome : Z → nat → SignalOutcome;
  cancel_handled : string → nat → bool          (* the cancellation reaches the task inside the try of its loop *)
}.

Record Config := {
  is_windows : bool;
  max_file_access_retries : nat;
  base_retry_delay : Z;
  max_retry_delay : Z;
  windows_file_delay : Z;
  process_cleanup_timeout : Z
}.

(** The values set in [__init__], in milliseconds. *)
Definition default_config (windows : bool) : Config := {|
  is_windows := windows;
  max_file_access_retries := 10;
  base_retry_delay := 500;
  max_retry_delay := 30000;
  windows_file_delay := 2000;
  process_cleanup_timeout := 20000
|}.

Record State := {
  _is_validated : bool;
  station_tasks : gmap string Task;
  recording_processes : gmap string RecordingData;
  recordings : gmap string RadioSessionRecording;
  files : gmap string (list Byte.byte);
  clock : Z;
  tick : nat;
  trace : list Event
}.

Definition set_station_tasks (v : gmap string Task) (s : State) : State :=
  {| _is_validated := _is_validated s; station_tasks := v; recording_processes := recording_processes s;
     recordings := recordings s; files := files s; clock := clock s;
     tick := tick s; trace := trace s |}.

Definition set_recording_processes (v : gmap string RecordingData) (s : State) : State :=
  {| _is_validated := _is_validated s; station_tasks := station_tasks s; recording_processes := v;
     recordings := recordings s; files := files s; clock := clock s;
     tick := tick s; trace := trace s |}.

Definition set_recordings (v : gmap string RadioSessionRecording) (s : State) : State :=
  {| _is_validated := _is_validated s; station_tasks := station_tasks s; recording_processes := recording_processes s;
     recordings := v; files := files s; clock := clock s;
     tick := tick s; trace := trace s |}.

Definition set_files (v : gmap string (list Byte.byte)) (s : State) : State :=
  {| _is_validated := _is_validated s; station_tasks := station_tasks s; recording_processes := recording_processes s;
     recordings := recordings s; files := v; clock := clock s;
     tick := tick s; trace := trace s |}.

Definition set_clock (v : Z) (s : State) : State :=
  {| _is_validated := _is_validated s; station_tasks := station_tasks s; recording_processes := recording_processes s;
     recordings := recordings s; files := files s; clock := v;
     tick := tick s; trace := trace s |}.

Definition set_tick (v : nat) (s : State) : State :=
  {| _is_validated := _is_validated s; station_tasks := station_tasks s; recording_processes := recording_processes s;
     recordings := recordings s; files := files s; clock := clock s;
     tick := v; trace := trace s |}.

Definition set_trace (v : list Event) (s : State) : State :=
  {| _is_validated := _is_validated s; station_tasks := station_tasks s; recording_processes := recording_processes s;
     recordings := recordings s; files := files s; clock := clock s;
     tick := tick s; trace := v |}.

Definition set_is_validated (v : bool) (s : State) : State :=
  {| _is_validated := v; station_tasks := station_tasks s;
     recording_processes := recording_processes s;
     recordings := recordings s; files := files s; clock := clock s;
     tick := tick s; trace := trace s |}.

(** ** The state monad *)

Definition M (A : Type) : Type := State → A * State.

Definition ret {A} (a : A) : M A := λ s, (a, s).

Definition bind {A B} (m : M A) (k : A → M B) : M B :=
  λ s, let '(a, s') := m s in k a s'.

Notation "'let*' x := e 'in' k" := (bind e (λ x, k))
  (at level 10, x pattern, e at level 200, k at level 200).

Definition exec {A} (m : M A) (s : State) : State := (m s).2.
Definition eval {A} (m : M A) (s : State) : A := (m s).1.

Definition get {A} (f : State → A) : M A := λ s, (f s, s).

Definition emit (e : Event) : M unit := λ s, (tt, set_trace (trace s ++ [e]) s).

(** Each question asked to the surroundings takes the next index. *)
Definition next_tick : M nat := λ s, (tick s, set_tick (S (tick s)) s).

(** [await asyncio.sleep(ms / 1000)] *)
Definition sleep (ms : Z) : M unit :=
  λ s, (tt, set_trace (trace s ++ [EvSleep ms]) (set_clock (clock s + ms)%Z s)).

Fixpoint for_each {A} (l : list A) (body : A → M unit) : M unit :=
  match l with
  | [] => ret tt
  | x :: rest => let* _ := body x in for_each rest body
  end.

(** [os.path.exists] *)
Definition path_exists (path : string) : M bool :=
  get (λ s, bool_decide (is_Some (files s !! path))).

(** [os.path.basename]; the backslash separates only on Windows. *)
Definition basename (windows : bool) (path : string) : string :=
  string_of_list_ascii
    (fold_left (λ acc c,
       if Ascii.eqb c "/"%char || (windows && Ascii.eqb c "\"%char) then [] else acc ++ [c])
       (list_ascii_of_string path) []).

(** ** Operations of [EnhancedStationRecordingService] *)

Section service.
Variable cfg : Config.
Variable env : Env.

(** *** ProcessHandle *)

Definition _is_process_running (process : Process) : M bool :=
  let* t := next_tick in
  ret (process_alive env (pid process) t).

(** Common body of [_terminate_process] and [_force_kill_process]:
    nothing is sent to a process that has exited, a vanished process
    counts as success, any other error as failure. *)
Definition signal_process (sig : Signal) (process : Process) : M bool :=
  let* alive := _is_process_running process in
  if negb alive then ret true
  else
    let* _ := emit (EvSignal (pid process) sig) in
    let* t := next_tick in
    match signal_outcome env (pid process) t with
    | SigDelivered => ret true
    | SigNoProcess => ret true
    | SigError _ => ret false
    end.

Definition _terminate_process : Process → M bool := signal_process SIGTERM.
Definition _force_kill_process : Process → M bool := signal_process SIGKILL.

(** The loop [while time.time() - start_time < timeout], one poll every
    100 ms. [None] means the fuel ran out before the loop ended. *)
Fixpoint cleanup_loop (fuel : nat) (process : Process) (start_time timeout : Z)
  : M (option bool) :=
  match fuel with
  | O => ret None
  | S fuel' =>
      let* t := get clock in
      if (t - start_time <? timeout)%Z then
        let* alive := _is_process_running process in
        if negb alive then
          let* _ := (if is_windows cfg then sleep (windows_file_delay cfg) else ret tt) in
          ret (Some true)
        else
          let* _ := sleep 100 in
          cleanup_loop fuel' process start_time timeout
      else ret (Some false)
  end.

Definition cleanup_fuel (timeout : Z) : nat := Z.to_nat (timeout / 100) + 2.

Definition _wait_for_process_cleanup (process : Process) (timeout : option Z) : M bool :=
  let timeout := default (process_cleanup_timeout cfg) timeout in
  let* start_time := get clock in
  let* r := cleanup_loop (cleanup_fuel timeout) process start_time timeout in
  ret (default false r).

(** *** RetryingFileOps *)

(** [FileNotFoundError] is an [IOError], so the first handler answers
    for a missing file too. *)
Definition _is_file_locked (file_path : string) : M bool :=
  let* ex := path_exists file_path in
  if ex then
    let* t := next_tick in
    ret (file_locked env file_path t)
  else ret true.

Definition retry_delay (base_delay : Z) (attempt : nat) : Z :=
  Z.min (base_delay * 2 ^ Z.of_nat attempt) (max_retry_delay cfg).

(** [for attempt in range(max_retries)], from [attempt] on, [n] rounds left. *)
Fixpoint unlock_loop (file_path : string) (base_delay : Z) (n attempt : nat) : M bool :=
  match n with
  | O => ret false
  | S n' =>
      let* locked := _is_file_locked file_path in
      if negb locked then ret true
      else
        let* _ := sleep (retry_delay base_delay attempt) in
        unlock_loop file_path base_delay n' (S attempt)
  end.

Definition _wait_for_file_unlock (file_path : string)
    (max_retries : option nat) (base_delay : option Z) : M bool :=
  let max_retries := default (max_file_access_retries cfg) max_retries in
  let base_delay := default (base_retry_delay cfg) base_delay in
  let* ex := path_exists file_path in
  if negb ex then ret false
  else unlock_loop file_path base_delay max_retries 0.

(** [os.path.getsize]: the size, or the text of the exception. *)
Definition getsize (file_path : string) : M (nat + string) :=
  let* t := next_tick in
  let* fs := get files in
  match getsize_error env file_path t, fs !! file_path with
  | Some e, _ => ret (inr e)
  | None, Some content => ret (inl (length content))
  | None, None => ret (inr ("No such file or directory: " +:+ file_path))
  end.

Fixpoint read_loop (file_path : string) (n attempt : nat)
  : M (bool * option (list Byte.byte) * string) :=
  match n with
  | O => ret (false, None,
              "Failed to read file after " +:+ pretty (max_file_access_retries cfg) +:+ " attempts")
  | S n' =>
      let* t := next_tick in
      let* fs := get files in
      match open_outcome env file_path t, fs !! file_path with
      | IoOk, Some content => ret (true, Some content, "Success")
      | IoError e, _ => ret (false, None, "Unexpected error reading file: " +:+ e)
      | _, _ =>
          let* _ := sleep (retry_delay (base_retry_delay cfg) attempt) in
          read_loop file_path n' (S attempt)
      end
  end.

Definition _safe_file_read (file_path : string)
  : M (bool * option (list Byte.byte) * string) :=
  let* ex := path_exists file_path in
  if negb ex then ret (false, None, "File does not exist: " +:+ file_path)
  else
    let* size := getsize file_path in
    match size with
    | inr e => ret (false, None, "Cannot get file size: " +:+ e)
    | inl O => ret (false, None, "File is empty: " +:+ file_path)
    | inl (S _) =>
        let* unlocked := _wait_for_file_unlock file_path None None in
        if negb unlocked then
          ret (false, None, "File remains locked after retries: " +:+ file_path)
        else read_loop file_path (max_file_access_retries cfg) 0
    end.

Fixpoint delete_loop (file_path : string) (n attempt : nat) : M (bool * string) :=
  match n with
  | O => ret (false,
              "Failed to delete file after " +:+ pretty (max_file_access_retries cfg) +:+ " attempts")
  | S n' =>
      let* _ := emit (EvRemove file_path) in
      let* t := next_tick in
      let* fs := get files in
      match remove_outcome env file_path t, fs !! file_path with
      | IoOk, Some _ =>
          λ s, ((true, "File deleted successfully"), set_files (delete file_path (files s)) s)
      | IoError e, _ => ret (false, "Unexpected error deleting file: " +:+ e)
      | _, _ =>
          let* _ := sleep (retry_delay (base_retry_delay cfg) attempt) in
          delete_loop file_path n' (S attempt)
      end
  end.

Definition _safe_file_delete (file_path : string) : M (bool * string) :=
  let* ex := path_exists file_path in
  if negb ex then ret (true, "File already deleted")
  else
    let* unlocked := _wait_for_file_unlock file_path None None in
    if negb unlocked then ret (false, "Cannot delete locked file: " +:+ file_path)
    else delete_loop file_path (max_file_access_retries cfg) 0.

(** *** Finalization *)

(** The assignments shared by every failure branch. *)
Definition set_failed (rec : RadioSessionRecording) (msg : string)
    (actual_end_time : Z) (actual_duration_minutes : pyfloat)
    (file_path : option string) : RadioSessionRecording :=
  {| station_id := station_id rec;
     program_id := program_id rec;
     actual_start_time := actual_start_time rec;
     actual_end_time := Some actual_end_time;
     recording_status := failed;
     recording_file_path := file_path;
     recording_file_url := recording_file_url rec;
     file_size_mb := file_size_mb rec;
     duration_minutes := Some (py_round actual_duration_minutes 1);
     error_message := Some msg |}.

Definition set_completed (rec : RadioSessionRecording)
    (actual_end_time : Z) (actual_duration_minutes : pyfloat)
    (file_path_saved file_url : string) (size_mb : pyfloat) : RadioSessionRecording :=
  {| station_id := station_id rec;
     program_id := program_id rec;
     actual_start_time := actual_start_time rec;
     actual_end_time := Some actual_end_time;
     recording_status := completed;
     recording_file_path := Some file_path_saved;
     recording_file_url := Some file_url;
     file_size_mb := Some (py_round size_mb 2);
     duration_minutes := Some (py_round actual_duration_minutes 1);
     error_message := None |}.

Definition write_file (file_path : string) (content : list Byte.byte) : M unit :=
  λ s, (tt, set_files (<[file_path := content]> (files s)) s).

Definition leave_residue (residue : option (string * option (list Byte.byte))) : M unit :=
  match residue with
  | None => ret tt
  | Some (file_path, Some bytes) => write_file file_path bytes
  | Some (file_path, None) => λ s, (tt, set_files (delete file_path (files s)) s)
  end.

(** [await save_upload_file(upload_file, "recordings/sessions")], the
    upload holding [content]. *)
Definition save_upload_file (filename : string) (content : list Byte.byte)
  : M ((string * string) + string) :=
  let* _ := emit (EvUpload filename) in
  let* t := next_tick in
  match upload_outcome env filename t with
  | Uploaded file_path file_url =>
      let* _ := write_file file_path content in
      ret (inl (file_path, file_url))
  | UploadFailed msg residue =>
      let* _ := leave_residue residue in
      ret (inr msg)
  end.

(** The assignments of one branch to the pending record, the status
    among them. *)
Definition assign (recording_id : string) (rec : RadioSessionRecording)
  : M RadioSessionRecording :=
  let* _ := emit (EvStatus recording_id (recording_status rec)) in
  ret rec.

Definition db_commit (recording_id : string) (rec : RadioSessionRecording) : M unit :=
  λ s, (tt, set_trace (trace s ++ [EvCommit recording_id (recording_status rec)])
              (set_recordings (<[recording_id := rec]> (recordings s)) s)).

(** The record as it stands when [db.commit()] is reached. *)
Definition finalized_record (recording_data : RecordingData)
    (rec : RadioSessionRecording) : M RadioSessionRecording :=
  let recording_id := rd_recording_id recording_data in
  let file_path := rd_file_path recording_data in
  let actual_start_time := rd_start_time recording_data in
  let* actual_end_time := get clock in
  let actual_duration_minutes := total_minutes (actual_end_time - actual_start_time) in
  let fail msg path :=
    assign recording_id (set_failed rec msg actual_end_time actual_duration_minutes path) in
  let* ex := path_exists file_path in
  if ex then
    let* size := getsize file_path in
    match size with
    | inr file_check_error =>
        fail ("File check error: " +:+ file_check_error) (recording_file_path rec)
    | inl O =>
        fail "Recording file is empty (0 bytes)" (recording_file_path rec)
    | inl (S _ as file_size) =>
        let file_size_mb := megabytes file_size in
        let* (success, file_content, error_msg) := _safe_file_read file_path in
        match success, file_content with
        | true, Some ((_ :: _) as content) =>
            let original_filename := basename (is_windows cfg) file_path in
            let* uploaded := save_upload_file original_filename content in
            match uploaded with
            | inl (file_path_saved, file_url) =>
                let* rec' :=
                  assign recording_id
                    (set_completed rec actual_end_time actual_duration_minutes
                       file_path_saved file_url file_size_mb) in
                let* _ := _safe_file_delete file_path in
                ret rec'
            | inr upload_error =>
                fail ("File upload error: " +:+ upload_error) (Some file_path)
            end
        | _, _ =>
            fail ("File read error: " +:+ error_msg) (Some file_path)
        end
    end
  else fail "Recording file not found" (recording_file_path rec).

Definition _finalize_recording (recording_data : RecordingData) : M unit :=
  let recording_id := rd_recording_id recording_data in
  let* table := get recordings in
  match table !! recording_id with
  | None => ret tt
  | Some rec =>
      let* rec' := finalized_record recording_data rec in
      db_commit recording_id rec'
  end.

(** *** Start action *)

(** The assignments of the branch taken when FFmpeg did not start: no
    duration among them. *)
Definition set_start_failed (rec : RadioSessionRecording) (actual_end_time : Z)
  : RadioSessionRecording :=
  {| station_id := station_id rec;
     program_id := program_id rec;
     actual_start_time := actual_start_time rec;
     actual_end_time := Some actual_end_time;
     recording_status := failed;
     recording_file_path := recording_file_path rec;
     recording_file_url := recording_file_url rec;
     file_size_mb := file_size_mb rec;
     duration_minutes := duration_minutes rec;
     error_message := Some "Failed to start FFmpeg process" |}.

(** [_create_recording_entry]: the new row, committed as [recording] with
    the clock reading as [actual_start_time]. [recording_id] is the key
    the database gives the row. *)
Definition _create_recording_entry (recording_id sid : string) (session : Session)
    (file_path : string) : M RadioSessionRecording :=
  let* now := get clock in
  let recording_entry :=
    {| station_id := sid;
       program_id := match session !! "program_id" with
                     | Some (PStr p) => Some p
                     | _ => None
                     end;
       actual_start_time := Some now;
       actual_end_time := None;
       recording_status := recording;
       recording_file_path := Some file_path;
       recording_file_url := None;
       file_size_mb := None;
       duration_minutes := None;
       error_message := None |} in
  let* _ := db_commit recording_id recording_entry in
  ret recording_entry.

(** [_start_ffmpeg_recording]: [spawned] is what [subprocess.Popen] gave,
    [None] when it raised; the process is polled after three seconds. *)
Definition _start_ffmpeg_recording (spawned : option Process) : M (option Process) :=
  match spawned with
  | None => ret None
  | Some process =>
      let* _ := sleep 3000 in
      let* t := next_tick in
      ret (if process_alive env (pid process) t then Some process else None)
  end.

(** [_start_session_recording], given the generated file path, the key
    of the new row and the result of [subprocess.Popen]. *)
Definition _start_session_recording (sid : string) (session : Session)
    (recording_key recording_id file_path : string) (spawned : option Process) : M unit :=
  let* recording_entry := _create_recording_entry recording_id sid session file_path in
  let* process := _start_ffmpeg_recording spawned in
  match process with
  | Some process =>
      let* now := get clock in
      let recording_data :=
        {| rd_process := process;
           rd_recording_id := recording_id;
           rd_file_path := file_path;
           rd_start_time := now;
           rd_session := session |} in
      λ s, (tt, set_recording_processes
                  (<[recording_key := recording_data]> (recording_processes s)) s)
  | None =>
      let* now := get clock in
      let* recording_entry := assign recording_id (set_start_failed recording_entry now) in
      db_commit recording_id recording_entry
  end.

(** *** Stop action *)

Definition deregister (recording_key : string) : M unit :=
  λ s, match recording_processes s !! recording_key with
       | Some _ =>
           (tt, set_trace (trace s ++ [EvDeregister recording_key])
                  (set_recording_processes (delete recording_key (recording_processes s)) s))
       | None => (tt, s)
       end.

(** Steps 1 and 2, the first [try] block: ask the process to end, wait
    for it, kill it when the wait times out. *)
Definition stop_capture_process (process : Process) : M unit :=
  let* _ := _terminate_process process in
  let* process_cleaned := _wait_for_process_cleanup process None in
  if negb process_cleaned then
    let* _ := _force_kill_process process in
    let* _ := sleep (if is_windows cfg then windows_file_delay cfg else 1000) in
    let* _ := _is_process_running process in
    ret tt
  else ret tt.

Definition _stop_session_recording (recording_key : string) : M unit :=
  let* table := get recording_processes in
  match table !! recording_key with
  | None => ret tt
  | Some recording_data =>
      let* _ := stop_capture_process (rd_process recording_data) in
      let* _ := _finalize_recording recording_data in
      deregister recording_key
  end.

(** *** Shutdown *)

Definition _save_station_recordings_on_shutdown (sid : string) : M unit :=
  let* table := get recording_processes in
  let station_recordings :=
    filter (λ k, String.prefix sid k = true) (elements (dom table)) in
  for_each station_recordings _stop_session_recording.

(** [task.cancel()] followed by the await of the task. The handler
    [except asyncio.CancelledError] of the loop, which saves the
    station's recordings, runs only when the cancellation reaches the
    task at an await inside the [try]; a task that has not run yet, or
    that sleeps in the back-off of the error handler, ends without
    saving. *)
Definition cancel_task (entry : string * Task) : M unit :=
  let* _ := emit (EvCancel entry.1) in
  match entry.2 with
  | TaskRunning =>
      let* t := next_tick in
      if cancel_handled env entry.1 t
      then _save_station_recordings_on_shutdown entry.1
      else ret tt
  | TaskFinished => ret tt
  end.

Definition clear_tracking : M unit :=
  λ s, (tt, set_recording_processes ∅ (set_station_tasks ∅ s)).

Definition stop : M unit :=
  let* table := get recording_processes in
  let active_recordings := elements (dom table) in
  let* _ := for_each active_recordings _stop_session_recording in
  let* tasks := get station_tasks in
  let* _ := for_each (map_to_list tasks) cancel_task in
  clear_tracking.

End service.

(* ===================================================================== *)
(** * Preflight validation ([OSSpecificSystemValidator]) *)
(* ===================================================================== *)

(** What the checks find on the machine is given as a [Probes] record;
    [validate_system] is the function from these findings to the report.
    Sizes in gigabytes are exact rationals (a byte count over 2^30). *)

Inductive Platform := Windows | Linux | Darwin | OtherPlatform.

(** The lines of the report; a constructor stands for one f-string. *)
Inductive Message :=
  | Text (s : string)
  | FFmpegValidationFailed (reason : string)
  | FFmpegOsChecksFailed (e : string)
  | StorageValidationFailed (e : string)
  | LowDiskSpace (available_gb min_disk_gb : Q)
  | SmallStorageDevice (total_gb : Q)
  | StorageNearlyFull (available_gb total_gb : Q)
  | DatabaseValidationFailed (reason : string)
  | FilePermissionsValidationFailed (e : string)
  | LowMemory (memory_gb : Q)
  | LowCpuCount (n : Z)
  | ResourcesCheckFailed (e : string)
  | NetworkValidationWarning (reason : string)
  | ValidationException (e : string).

(** Warnings and platform issues gathered by a platform-specific block. *)
Record Findings := {
  found_warnings : list Message;
  found_issues : list Message
}.

Inductive DbProbe :=
  | DbConnectFailed (e : string)                 (* no session, or SELECT 1 fails *)
  | DbConnected (table_error : string → option string).

Inductive ResourcesProbe :=
  | ResourcesFailed (e : string)
  | ResourcesRead (memory_total : N) (cpu_count : option Z) (found : Findings).

Record Probes := {
  platform : Platform;
  prerequisites : Findings;                 (* _validate_os_prerequisites *)
  which_ffmpeg : option string;              (* shutil.which('ffmpeg') *)
  ffmpeg_runs : list (option string);        (* output of each execution method that succeeds *)
  ffmpeg_os_checks : Findings + string;      (* _validate_ffmpeg_os_specific, or its exception *)
  timezone_warnings : list Message;          (* _configure_timezone *)
  disk_usage : (N * N) + string;             (* mkdir and disk_usage: (free, total) bytes *)
  storage_found : Findings;
  database : DbProbe;
  write_test_error : option string;          (* writing the test file raises *)
  read_back : string;                        (* what reading it returns *)
  permissions_found : Findings;
  permissions_late_error : option string;    (* stat, umask or unlink raises *)
  resources : ResourcesProbe;
  network : bool * string;                   (* _validate_network *)
  services : Findings                        (* _validate_os_specific_services *)
}.

Record ValidationResult := {
  is_valid : bool;
  errors : list Message;
  warnings : list Message;
  platform_specific_issues : list Message
}.

(** [n / (1024**3)] *)
Definition gigabytes (n : N) : Q := Qmake (Z.of_N n) (2 ^ 30).

Definition Qlt_bool (x y : Q) : bool := negb (Qle_bool y x).

Definition _validate_ffmpeg_output (output ffmpeg_path : string) : bool * string * string :=
  if bool_decide (PyStr.str_strip (PyStr.chars output) = []) then
    (false, "FFmpeg output is empty", ffmpeg_path)
  else
    let lines := PyStr.split_on PyStr.newline (PyStr.chars output) in
    let version_line := PyStr.str_strip (default [] (head lines)) in
    if PyStr.startswith version_line (PyStr.chars "ffmpeg version") then
      (true, PyStr.text version_line, ffmpeg_path)
    else (false, "Unexpected version format: " +:+ PyStr.text version_line, ffmpeg_path).

Definition _validate_ffmpeg (pf : Platform) (which : option string)
    (runs : list (option string)) : bool * string * string :=
  match which with
  | None =>
      (false,
       match pf with
       | Windows => "FFmpeg not found. Install from https://ffmpeg.org or use 'winget install ffmpeg'"
       | Linux => "FFmpeg not found. Install with 'sudo apt install ffmpeg' (Ubuntu/Debian) or 'sudo yum install ffmpeg' (RHEL/CentOS)"
       | Darwin => "FFmpeg not found. Install with 'brew install ffmpeg' or from https://ffmpeg.org"
       | OtherPlatform => "FFmpeg not found in PATH. Please install FFmpeg and ensure it's accessible."
       end, "")
  | Some ffmpeg_path =>
      match omap id runs with
      | output :: _ => _validate_ffmpeg_output output ffmpeg_path
      | [] => (false, "All FFmpeg execution methods failed. Check FFmpeg installation and permissions.",
               ffmpeg_path)
      end
  end.

Record StorageResult := {
  storage_success : bool;
  available_gb : Q;
  storage_warnings : list Message;
  storage_issues : list Message;
  storage_error : string
}.

Definition _validate_storage_os_specific (p : Probes) : StorageResult :=
  match disk_usage p with
  | inr e =>
      {| storage_success := false; available_gb := 0; storage_warnings := [];
         storage_issues := []; storage_error := e |}
  | inl (free, total) =>
      let available := gigabytes free in
      let total_gb := gigabytes total in
      let ws := found_warnings (storage_found p) ++
                (if Qlt_bool total_gb 100 then [SmallStorageDevice total_gb] else []) in
      if (total =? 0)%N then
        {| storage_success := true; available_gb := available; storage_warnings := ws;
           storage_issues := found_issues (storage_found p);
           storage_error := "float division by zero" |}
      else
        {| storage_success := true; available_gb := available; storage_warnings := ws;
           storage_issues := found_issues (storage_found p) ++
             (if Qlt_bool (available / total_gb) (1 # 10)
              then [StorageNearlyFull available total_gb] else []);
           storage_error := "" |}
  end.

Definition tables_to_check : list string :=
  ["stations"; "station_schedules"; "radio_session_recordings"].

Definition _validate_database (p : Probes) : bool * string :=
  match database p with
  | DbConnectFailed e => (false, "Database connection failed: " +:+ e)
  | DbConnected table_error =>
      match omap (λ table, (λ e, (table, e)) <$> table_error table) tables_to_check with
      | (table, e) :: _ => (false, "Required table '" +:+ table +:+ "' not accessible: " +:+ e)
      | [] => (true, "Database connectivity confirmed")
      end
  end.

Record PermissionsResult := {
  permissions_success : bool;
  permissions_warnings : list Message;
  permissions_issues : list Message;
  permissions_error : string
}.

Definition _validate_file_permissions_os_specific (p : Probes) : PermissionsResult :=
  match write_test_error p with
  | Some e =>
      {| permissions_success := false; permissions_warnings := []; permissions_issues := [];
         permissions_error := "File permission test failed: " +:+ e |}
  | None =>
      if negb (String.eqb (read_back p) "test") then
        {| permissions_success := false; permissions_warnings := []; permissions_issues := [];
           permissions_error := "File read/write test failed" |}
      else
        match permissions_late_error p with
        | Some e =>
            {| permissions_success := false;
               permissions_warnings := found_warnings (permissions_found p);
               permissions_issues := found_issues (permissions_found p);
               permissions_error := "File permission test failed: " +:+ e |}
        | None =>
            {| permissions_success := true;
               permissions_warnings := found_warnings (permissions_found p);
               permissions_issues := found_issues (permissions_found p);
               permissions_error := "" |}
        end
  end.

Record ResourcesResult := {
  memory_gb : Q;
  cpu_count : option Z;
  resources_warnings : list Message;
  resources_issues : list Message
}.

Definition _check_system_resources_os_specific (p : Probes) : ResourcesResult :=
  match resources p with
  | ResourcesFailed e =>
      {| memory_gb := 0; cpu_count := Some 1%Z;
         resources_warnings := [ResourcesCheckFailed e]; resources_issues := [] |}
  | ResourcesRead memory_total cpus found =>
      {| memory_gb := gigabytes memory_total; cpu_count := cpus;
         resources_warnings := found_warnings found; resources_issues := found_issues found |}
  end.

(** [validate_system]. The prerequisite checks never report an error.
    Comparing a missing CPU count with 2 raises, which the outer handler
    turns into an invalid report. *)
Definition validate_system (min_disk_gb : Q) (p : Probes) : ValidationResult :=
  let errors := [] in
  let warnings := found_warnings (prerequisites p) in
  let issues := found_issues (prerequisites p) in
  (* 3. FFmpeg *)
  let '(errors, warnings, issues) :=
    match _validate_ffmpeg (platform p) (which_ffmpeg p) (ffmpeg_runs p) with
    | (false, reason, _) => (errors ++ [FFmpegValidationFailed reason], warnings, issues)
    | (true, _, _) =>
        match ffmpeg_os_checks p with
        | inl found => (errors, warnings ++ found_warnings found, issues ++ found_issues found)
        | inr e => (errors, warnings ++ [FFmpegOsChecksFailed e], issues)
        end
    end in
  (* 4. Timezone *)
  let warnings := warnings ++ timezone_warnings p in
  (* 5. Storage *)
  let storage_result := _validate_storage_os_specific p in
  let '(errors, warnings, issues) :=
    if storage_success storage_result then
      (errors,
       warnings ++
         (if Qlt_bool (available_gb storage_result) min_disk_gb
          then [LowDiskSpace (available_gb storage_result) min_disk_gb] else []) ++
         storage_warnings storage_result,
       issues ++ storage_issues storage_result)
    else (errors ++ [StorageValidationFailed (storage_error storage_result)], warnings, issues) in
  (* 6. Database *)
  let errors :=
    match _validate_database p with
    | (false, reason) => errors ++ [DatabaseValidationFailed reason]
    | (true, _) => errors
    end in
  (* 7. File permissions *)
  let permissions_result := _validate_file_permissions_os_specific p in
  let '(errors, warnings, issues) :=
    if permissions_success permissions_result then
      (errors, warnings ++ permissions_warnings permissions_result,
       issues ++ permissions_issues permissions_result)
    else (errors ++ [FilePermissionsValidationFailed (permissions_error permissions_result)],
          warnings, issues) in
  (* 8. System resources *)
  let res := _check_system_resources_os_specific p in
  let warnings :=
    warnings ++ (if Qlt_bool (memory_gb res) 1 then [LowMemory (memory_gb res)] else []) in
  match cpu_count res with
  | None =>
      {| is_valid := false;
         errors := errors ++
           [ValidationException "'<' not supported between instances of 'NoneType' and 'int'"];
         warnings := warnings;
         platform_specific_issues := issues |}
  | Some cpus =>
      let warnings :=
        warnings ++ (if (cpus <? 2)%Z then [LowCpuCount cpus] else []) ++ resources_warnings res in
      let issues := issues ++ resources_issues res in
      (* 9. Network *)
      let warnings :=
        match network p with
        | (false, reason) => warnings ++ [NetworkValidationWarning reason]
        | (true, _) => warnings
        end in
      (* 10. Services *)
      let warnings := warnings ++ found_warnings (services p) in
      let issues := issues ++ found_issues (services p) in
      {| is_valid := bool_decide (length errors = 0);
         errors := errors; warnings := warnings; platform_specific_issues := issues |}
  end.

(** ** Orchestrator startup *)

Inductive StartOutcome :=
  | SystemExit (msg : string)
  | Started.

Section startup.
Variable cfg : Config.
Variable env : Env.

(** [_start_station_task]: a previous task of the station is cancelled
    and awaited, then the new loop is registered. *)
Definition _start_station_task (sid : string) : M unit :=
  let* tasks := get station_tasks in
  let* _ :=
    match tasks !! sid with
    | Some old_task => cancel_task cfg env (sid, old_task)
    | None => ret tt
    end in
  λ s, (tt, set_station_tasks (<[sid := TaskRunning]> (station_tasks s)) s).

(** [start], given the ids of the active stations. *)
Definition start (active_stations : list string) : M unit :=
  for_each active_stations _start_station_task.

Definition min_disk_gb_default : Q := 5.

Definition validate_and_start (p : Probes) (active_stations : list string) : M StartOutcome :=
  let validation_result := validate_system min_disk_gb_default p in
  if negb (is_valid validation_result) then
    ret (SystemExit "System validation failed - see report above")
  else
    let* _ := (λ s, (tt, set_is_validated true s)) in
    let* _ := start active_stations in
    ret Started.

End startup.

(** ** The time format, as the specification words it

    "HH:MM (two colon-separated integers)": an integer is what [int()]
    accepts, blanks around an optional sign and decimal digits, where
    single underscores may separate digits. These definitions are the
    reference the parser [_time_to_seconds] is compared with. *)

Inductive int_body (digit : N → bool) : list N → Prop :=
  | int_body_digit d :
      digit d = true → int_body digit [d]
  | int_body_cons d l :
      digit d = true → int_body digit l → int_body digit (d :: l)
  | int_body_sep d l :
      digit d = true → int_body digit l → int_body digit (d :: PyStr.underscore :: l).

Definition int_sign (l : list N) : Prop :=
  l = [] ∨ l = [PyStr.plus] ∨ l = [PyStr.minus].

Definition int_literal_of (blank digit : N → bool) (l : list N) : Prop :=
  ∃ ws1 sign body ws2,
    l = ws1 ++ sign ++ body ++ ws2 ∧
    Forall (λ c, blank c = true) ws1 ∧
    Forall (λ c, blank c = true) ws2 ∧
    int_sign sign ∧ int_body digit body ∧
    length (filter (λ c, digit c = true) body) ≤ PyStr.int_max_str_digits.

(** The blanks of an integer literal: tab, line feed, vertical tab, form
    feed, carriage return, the space, and the white space beyond ASCII. *)
Definition int_blank (c : N) : bool :=
  ((9 <=? c) && (c <=? 13) || (c =? 32) || (127 <=? c) && PyStr.unicode_space c)%N.

(** Its digits: 0 to 9 and the decimal digits of the other scripts. *)
Definition int_digit (c : N) : bool :=
  ((48 <=? c) && (c <=? 57) ||
   (127 <=? c) && negb (PyStr.unicode_space c) &&
   bool_decide (is_Some (PyStr.unicode_decimal c)))%N.

Definition int_literal : list N → Prop := int_literal_of int_blank int_digit.

Definition hh_mm_form (s : string) : Prop :=
  ∃ a b, PyStr.chars s = a ++ (PyStr.colon :: b) ∧ int_literal a ∧ int_literal b.

(** Executable test of the same form, through the parser's own pieces. *)
Definition hh_mm_parses (s : string) : bool :=
  match PyStr.split_on PyStr.colon (PyStr.chars s) with
  | [a; b] => bool_decide (is_Some (PyStr.py_int a)) && bool_decide (is_Some (PyStr.py_int b))
  | _ => false
  end.

(** [ShouldStop] as the specification words it: the end is moved 24 hours
    ahead when it is not after the start. Used only to compare with
    [_should_stop_recording]. *)
Definition should_stop_as_specified (session : Session) (now : LocalTime) : bool :=
  let start_seconds := _time_to_seconds (session_get_or session "start_time" (PStr "00:00")) in
  let end_seconds := _time_to_seconds (session_get_or session "end_time" (PStr "23:59")) in
  let end_seconds := if (end_seconds <=? start_seconds)%Z then (end_seconds + 24 * 3600)%Z else end_seconds in
  (end_seconds <=? current_seconds now)%Z.

(** Sample sessions and clock readings. *)
Definition morning_session : Session := mk_session "09:00" "10:00".
Definition overnight_session : Session := mk_session "23:30" "00:30".

Definition at_time (d : Weekday) (h m s : nat) : LocalTime :=
  {| weekday := d; hour := h; minute := m; second := s |}.

Definition overnight_schedule : StationSchedule :=
  {| sessions := <["monday" := [overnight_session]]> (<["tuesday" := [overnight_session]]> ∅) |}.

Definition morning_schedule : StationSchedule :=
  {| sessions := <["monday" := [morning_session]]> ∅ |}.

(** Schedules as the admin screen saves them: every weekday listed, every
    session with its programme. *)
Definition program_session (program_id start_time end_time : string) : Session :=
  <["program_id" := PStr program_id]> (mk_session start_time end_time).

Definition week_of (monday : list Session) : StationSchedule :=
  {| sessions := <["monday" := monday]> (list_to_map ((λ day, (day, [])) <$> required_days)) |}.

Definition padded_overnight_schedule : StationSchedule :=
  week_of [program_session "late-show" "23:30" "00:30"].

Definition unpadded_overnight_session : Session := program_session "late-show" "22:00" "6:00".

Definition unpadded_overnight_schedule : StationSchedule :=
  week_of [program_session "breakfast" "09:00" "10:00"; unpadded_overnight_session].

(** ** Vocabulary of the properties *)

(** [respects R m] says that every run of [m] relates the state before to
    the state after by [R]. *)
Definition respects (R : relation State) {A} (m : M A) : Prop :=
  ∀ s, R s (exec m s).

Definition is_pause (e : Event) : Prop :=
  match e with EvSleep _ => True | _ => False end.

Definition is_capture_event (e : Event) : Prop :=
  match e with EvCancel _ => False | _ => True end.

Definition trace_ext (P : Event → Prop) : relation State :=
  λ s s', ∃ evs, trace s' = trace s ++ evs ∧ Forall P evs.

Definition same_tables : relation State :=
  λ s s', station_tasks s' = station_tasks s ∧ recording_processes s' = recording_processes s.

Definition same_recordings : relation State :=
  λ s s', recordings s' = recordings s.

Definition same_files : relation State :=
  λ s s', files s' = files s.

Definition same_tasks : relation State :=
  λ s s', station_tasks s' = station_tasks s.

Definition same_validated : relation State :=
  λ s s', _is_validated s' = _is_validated s.

(** Records are never dropped, and a terminal record stays terminal. *)
Definition recordings_settle : relation State :=
  λ s s', ∀ id r, recordings s !! id = Some r →
    ∃ r', recordings s' !! id = Some r' ∧
      (is_terminal (recording_status r) = true → is_terminal (recording_status r') = true).

(** [returns Q m]: whatever the state, the value [m] computes satisfies [Q]. *)
Definition returns {A} (Q : A → Prop) (m : M A) : Prop :=
  ∀ s, Q (eval m s).

(** The exact value of a float expression, before any rounding to
    binary64: minutes and megabytes as fractions, [round] to a number of
    decimals, half to even. *)
Definition round_half_even (x : Q) : Z :=
  let below := Qfloor x in
  match Qcompare (x - inject_Z below) (1 # 2) with
  | Lt => below
  | Gt => (below + 1)%Z
  | Eq => if Z.even below then below else (below + 1)%Z
  end.

Fixpoint exact_value (x : pyfloat) : Q :=
  match x with
  | total_minutes delta_ms => Qmake delta_ms 60000
  | megabytes size => Qmake (Z.of_nat size) 1048576
  | py_round x ndigits =>
      let scale := inject_Z (10 ^ Z.of_nat ndigits) in
      (inject_Z (round_half_even (exact_value x * scale)) / scale)%Q
  end.

Definition is_cleanup (e : Event) : Prop :=
  match e with EvSleep _ | EvRemove _ => True | _ => False end.

(** The file store after a failed upload that left [residue]. *)
Definition after_residue (residue : option (string * option (list Byte.byte)))
    (fs : gmap string (list Byte.byte)) : gmap string (list Byte.byte) :=
  match residue with
  | None => fs
  | Some (file_path, Some bytes) => <[file_path := bytes]> fs
  | Some (file_path, None) => delete file_path fs
  end.

(** The path under [static/uploads] that an upload touches. *)
Definition upload_path (outcome : UploadOutcome) : option string :=
  match outcome with
  | Uploaded file_path _ => Some file_path
  | UploadFailed _ (Some (file_path, _)) => Some file_path
  | UploadFailed _ None => None
  end.

(** What every exit of finalization has assigned when the commit is
    reached, [t] being the clock reading taken on entry. *)
Definition finalized_shape (recording_data : RecordingData) (rec : RadioSessionRecording)
    (t : Z) (rec' : RadioSessionRecording) : Prop :=
  actual_end_time rec' = Some t ∧
  duration_minutes rec' =
    Some (py_round (total_minutes (t - rd_start_time recording_data)) 1) ∧
  is_terminal (recording_status rec') = true ∧
  (recording_status rec' = failed → is_Some (error_message rec')) ∧
  (recording_status rec' = completed → error_message rec' = None) ∧
  station_id rec' = station_id rec ∧
  actual_start_time rec' = actual_start_time rec.

(** The same findings with another amount of free disk space, or of
    memory. *)
Definition with_free_bytes (free : N) (p : Probes) : Probes :=
  {| platform := platform p; prerequisites := prerequisites p;
     which_ffmpeg := which_ffmpeg p; ffmpeg_runs := ffmpeg_runs p;
     ffmpeg_os_checks := ffmpeg_os_checks p; timezone_warnings := timezone_warnings p;
     disk_usage := match disk_usage p with
                   | inl (_, total) => inl (free, total)
                   | inr e => inr e
                   end;
     storage_found := storage_found p; database := database p;
     write_test_error := write_test_error p; read_back := read_back p;
     permissions_found := permissions_found p;
     permissions_late_error := permissions_late_error p;
     resources := resources p; network := network p; services := services p |}.

Definition with_memory_bytes (memory_total : N) (p : Probes) : Probes :=
  {| platform := platform p; prerequisites := prerequisites p;
     which_ffmpeg := which_ffmpeg p; ffmpeg_runs := ffmpeg_runs p;
     ffmpeg_os_checks := ffmpeg_os_checks p; timezone_warnings := timezone_warnings p;
     disk_usage := disk_usage p;
     storage_found := storage_found p; database := database p;
     write_test_error := write_test_error p; read_back := read_back p;
     permissions_found := permissions_found p;
     permissions_late_error := permissions_late_error p;
     resources := match resources p with
                  | ResourcesRead _ cpus found => ResourcesRead memory_total cpus found
                  | ResourcesFailed e => ResourcesFailed e
                  end;
     network := network p; services := services p |}.

(** The pauses of [n] retries from attempt [first] on:
    [min(base_delay * 2 ** attempt, max_retry_delay)]. *)
Definition backoff (cfg : Config) (base_delay : Z) (first n : nat) : list Event :=
  map (λ attempt, EvSleep (Z.min (base_delay * 2 ^ Z.of_nat attempt) (max_retry_delay cfg)))
      (seq first n).

(** ** Sample surroundings and states *)

Definition sample_path : string := "./temp_recordings/capital_news_20250106_0900_090003_ab12cd34.mp3".
Definition sample_key : string := "st1_20250106_0900".

Definition sample_saved : string * string :=
  ("static/uploads/recordings/sessions/capital_news_20250106_0900_090003_ab12cd34_1736143200.mp3",
   "https://example.org/static/uploads/recordings/sessions/capital_news_20250106_0900_090003_ab12cd34_1736143200.mp3").

(** The process exits once it has been polled, files are free, the blob
    store accepts the upload. *)
Definition env_calm : Env := {|
  file_locked := λ _ _, false;
  getsize_error := λ _ _, None;
  open_outcome := λ _ _, IoOk;
  remove_outcome := λ _ _, IoOk;
  upload_outcome := λ _ _, Uploaded sample_saved.1 sample_saved.2;
  process_alive := λ _ t, bool_decide (t < 1);
  signal_outcome := λ _ _, SigDelivered;
  cancel_handled := λ _ _, true
|}.

(** The capture file is never released. *)
Definition env_locked : Env := {|
  file_locked := λ _ _, true;
  getsize_error := λ _ _, None;
  open_outcome := λ _ _, IoDenied "Permission denied";
  remove_outcome := λ _ _, IoDenied "Permission denied";
  upload_outcome := λ _ _, Uploaded sample_saved.1 sample_saved.2;
  process_alive := λ _ t, bool_decide (t < 1);
  signal_outcome := λ _ _, SigDelivered;
  cancel_handled := λ _ _, true
|}.

(** The blob store refuses the upload. *)
Definition env_upload_down : Env := {|
  file_locked := λ _ _, false;
  getsize_error := λ _ _, None;
  open_outcome := λ _ _, IoOk;
  remove_outcome := λ _ _, IoOk;
  upload_outcome := λ _ _,
    UploadFailed "500: Could not upload file: disk full" (Some (sample_saved.1, None));
  process_alive := λ _ t, bool_decide (t < 1);
  signal_outcome := λ _ _, SigDelivered;
  cancel_handled := λ _ _, true
|}.

Definition sample_data : RecordingData := {|
  rd_process := {| pid := 4242 |};
  rd_recording_id := "rec-1";
  rd_file_path := sample_path;
  rd_start_time := 1000;
  rd_session := morning_session
|}.

Definition sample_record : RadioSessionRecording := {|
  station_id := "st1";
  program_id := None;
  actual_start_time := Some 0%Z;
  actual_end_time := None;
  recording_status := recording;
  recording_file_path := Some sample_path;
  recording_file_url := None;
  file_size_mb := None;
  duration_minutes := None;
  error_message := None
|}.

Definition sample_state (content : option (list Byte.byte)) : State := {|
  _is_validated := true;
  station_tasks := {[ "st1" := TaskRunning ]};
  recording_processes := {[ sample_key := sample_data ]};
  recordings := {[ "rec-1" := sample_record ]};
  files := match content with Some c => {[ sample_path := c ]} | None => ∅ end;
  clock := 3601000;
  tick := 0;
  trace := []
|}.

Definition sample_audio : list Byte.byte := [Byte.x49; Byte.x44; Byte.x33].

(** A healthy Linux host, with little free disk space and little memory. *)
Definition no_findings : Findings := {| found_warnings := []; found_issues := [] |}.

Definition probes_low_resources : Probes := {|
  platform := Linux;
  prerequisites := no_findings;
  which_ffmpeg := Some "/usr/bin/ffmpeg";
  ffmpeg_runs := [Some "ffmpeg version 6.1.1 Copyright (c) 2000-2023 the FFmpeg developers"];
  ffmpeg_os_checks := inl no_findings;
  timezone_warnings := [];
  disk_usage := inl (2 * 1024 ^ 3, 500 * 1024 ^ 3)%N;
  storage_found := no_findings;
  database := DbConnected (λ _, None);
  write_test_error := None;
  read_back := "test";
  permissions_found := no_findings;
  permissions_late_error := None;
  resources := ResourcesRead (512 * 1024 ^ 2) (Some 4%Z) no_findings;
  network := (true, "Network connectivity confirmed");
  services := no_findings
|}.

(** The same host without FFmpeg, and with the database down. *)
Definition probes_no_ffmpeg : Probes := {|
  platform := Linux;
  prerequisites := no_findings;
  which_ffmpeg := None;
  ffmpeg_runs := [];
  ffmpeg_os_checks := inl no_findings;
  timezone_warnings := [];
  disk_usage := inl (200 * 1024 ^ 3, 500 * 1024 ^ 3)%N;
  storage_found := no_findings;
  database := DbConnectFailed "connection refused";
  write_test_error := Some "Permission denied";
  read_back := "";
  permissions_found := no_findings;
  permissions_late_error := None;
  resources := ResourcesRead (8 * 1024 ^ 3) (Some 4%Z) no_findings;
  network := (true, "Network connectivity confirmed");
  services := no_findings
|}.

Definition idle_state : State := {|
  _is_validated := false;
  station_tasks := ∅;
  recording_processes := ∅;
  recordings := ∅;
  files := ∅;
  clock := 0;
  tick := 0;
  trace := []
|}.

(** ** [_add_seconds_to_time]

    Of [datetime.now()] only the date matters, given as its proleptic
    Gregorian ordinal: 1 for 0001-01-01, [max_ordinal] for 9999-12-31.
    A [timedelta] holds at most [max_delta_days] days in either
    direction, and adding one to a date must stay within the ordinals;
    otherwise [OverflowError] is raised. Every exception returns the
    argument. *)

Definition max_ordinal : Z := 3652059.
Definition max_delta_days : Z := 999999999.

(** [%H] and [%M] of [strftime]: two decimal digits. *)
Definition two_digits (n : Z) : string :=
  String (ascii_of_N (Z.to_N (48 + n / 10)))
    (String (ascii_of_N (Z.to_N (48 + n mod 10))) "").

Definition strftime_HM (hour minute : Z) : string :=
  two_digits hour +:+ ":" +:+ two_digits minute.

Definition _add_seconds_to_time (today : Z) (time_str : pyval) (seconds : Z) : pyval :=
  match time_str with
  | PStr s =>
      match PyStr.split_on PyStr.colon (PyStr.chars s) with
      | [a; b] =>
          match PyStr.py_int a, PyStr.py_int b with
          | Some hour, Some minute =>
              (* dt = datetime.now().replace(hour=hour, minute=minute, second=0) *)
              if ((0 <=? hour) && (hour <? 24) && (0 <=? minute) && (minute <? 60))%Z then
                (* timedelta(seconds=seconds) *)
                if ((- max_delta_days <=? seconds / 86400) &&
                    (seconds / 86400 <=? max_delta_days))%Z then
                  (* new_dt = dt + timedelta *)
                  let total := (hour * 3600 + minute * 60 + seconds)%Z in
                  let day := (today + total / 86400)%Z in
                  if ((1 <=? day) && (day <=? max_ordinal))%Z then
                    let second_of_day := (total mod 86400)%Z in
                    PStr (strftime_HM (second_of_day / 3600) (second_of_day mod 3600 / 60))
                  else time_str
                else time_str
              else time_str
          | _, _ => time_str
          end
      | _ => time_str
      end
  | _ => time_str
  end.

(** ** Time budgets

    The longest one stop action can take: the cleanup timeout overrun by
    one poll, the pause after the kill, and the unlock wait and the
    retries of both the read and the delete of the capture file. *)
Definition stop_time_budget (cfg : Config) : Z :=
  (process_cleanup_timeout cfg + 100 +
   (if is_windows cfg then windows_file_delay cfg else 1000) +
   4 * (Z.of_nat (max_file_access_retries cfg) * max_retry_delay cfg))%Z.

Definition delays_nonneg (cfg : Config) : Prop :=
  (0 ≤ base_retry_delay cfg ∧ 0 ≤ max_retry_delay cfg ∧
   0 ≤ process_cleanup_timeout cfg ∧ 0 ≤ windows_file_delay cfg)%Z.

(** The capture process ignores every signal and never exits. *)
Definition env_stubborn : Env := {|
  file_locked := λ _ _, false;
  getsize_error := λ _ _, None;
  open_outcome := λ _ _, IoOk;
  remove_outcome := λ _ _, IoOk;
  upload_outcome := λ _ _, Uploaded sample_saved.1 sample_saved.2;
  process_alive := λ _ _, true;
  signal_outcome := λ _ _, SigDelivered;
  cancel_handled := λ _ _, true
|}.

(** What happened between two states. *)
Definition new_events (s s' : State) : list Event := drop (length (trace s)) (trace s').

Definition elapsed (s s' : State) : Z := (clock s' - clock s)%Z.

(* ===================================================================== *)
(** * Verified properties *)
(* ===================================================================== *)

(** ** ScheduleResolver *)

Example time_to_seconds_0900 : _time_to_seconds (PStr "09:00") = 32400%Z.
Proof. reflexivity. Qed.

Example time_to_seconds_three_parts : _time_to_seconds (PStr "09:00:00") = 0%Z.
Proof. reflexivity. Qed.

Example time_to_seconds_padded : _time_to_seconds (PStr " 9:1_5 ") = 33300%Z.
Proof. reflexivity. Qed.

Example should_start_after : _should_start_recording morning_session (at_time Monday 9 0 5) = true.
Proof. vm_compute. reflexivity. Qed.

Example should_start_before : _should_start_recording morning_session (at_time Monday 8 59 59) = false.
Proof. vm_compute. reflexivity. Qed.

Lemma session_matches_spec cur session :
  session_matches cur session = true ↔
    truthy (session_get session "start_time") = true ∧
    truthy (session_get session "end_time") = true ∧
    let start_seconds := _time_to_seconds (session_get session "start_time") in
    let end_seconds := _time_to_seconds (session_get session "end_time") in
    (start_seconds ≤ cur ∧
     cur ≤ (if decide (end_seconds ≤ start_seconds) then end_seconds + 24 * 3600 else end_seconds))%Z.
Proof.
  unfold session_matches, session_window. cbv zeta.
  rewrite !andb_true_iff, !Z.leb_le.
  destruct (Z.leb_spec (_time_to_seconds (session_get session "end_time"))
              (_time_to_seconds (session_get session "start_time")));
    case_decide; try lia; tauto.
Qed.

Lemma scan_sessions_first cur l s :
  scan_sessions cur l = Some s ↔
    ∃ before after, l = before ++ s :: after ∧
      Forall (λ x, session_matches cur x = false) before ∧
      session_matches cur s = true.
Proof.
  induction l as [|x l IH]; simpl.
  - split; [done|]. intros (before & after & Heq & _). by destruct before.
  - destruct (session_matches cur x) eqn:Hx.
    + split.
      * intros [= ->]. exists [], l. repeat split; auto.
      * intros (before & after & Heq & Hb & Hs).
        destruct before as [|y before]; simplify_eq/=; [done|].
        apply Forall_cons in Hb as [Hy _]. congruence.
    + rewrite IH. split.
      * intros (before & after & -> & Hb & Hs).
        exists (x :: before), after. repeat split; auto.
      * intros (before & after & Heq & Hb & Hs).
        destruct before as [|y before]; simplify_eq/=; [congruence|].
        apply Forall_cons in Hb as [_ Hb]. eauto.
Qed.

(** ** Schedule validation: what a stored session looks like *)

Lemma is_valid_time_string v :
  _is_valid_time v = true →
  ∃ s a b hour minute,
    v = PStr s ∧ PyStr.split_on PyStr.colon (PyStr.chars s) = [a; b] ∧
    PyStr.py_int a = Some hour ∧ PyStr.py_int b = Some minute ∧
    (0 ≤ hour ≤ 23)%Z ∧ (0 ≤ minute ≤ 59)%Z.
Proof.
  unfold _is_valid_time. destruct v as [| |?|s]; try done.
  destruct (PyStr.split_on _ _) as [|a [|b [|??]]] eqn:Hsplit; try done.
  destruct (PyStr.py_int a) as [hour|] eqn:Ha; [|done].
  destruct (PyStr.py_int b) as [minute|] eqn:Hb; [|done].
  intros H. exists s, a, b, hour, minute. repeat split; auto; lia.
Qed.

Lemma missing_fields_none (session : Session) day index :
  omap (λ field, if decide (is_Some (session !! field)) then None
                 else Some (MissingField day index field))
    ["program_id"; "start_time"; "end_time"] = [] →
  is_Some (session !! "program_id") ∧ is_Some (session !! "start_time") ∧
  is_Some (session !! "end_time").
Proof.
  simpl. repeat case_decide; simpl; done.
Qed.

(** A session without an error line has its three fields, both times in
    the accepted format, and a start that is below the end as a string. *)
Lemma validate_session_clean session day index :
  _validate_session session day index = Some [] →
  ∃ a b,
    is_Some (session !! "program_id") ∧
    session !! "start_time" = Some (PStr a) ∧ session !! "end_time" = Some (PStr b) ∧
    _is_valid_time (PStr a) = true ∧ _is_valid_time (PStr b) = true ∧
    PyStr.str_lt (PyStr.chars a) (PyStr.chars b) = true.
Proof.
  unfold _validate_session. cbv zeta.
  set (missing := omap _ _).
  destruct (session !! "start_time") as [st|] eqn:Hst; last first.
  { destruct (session !! "end_time") as [en|] eqn:Hen.
    - destruct (_is_valid_time en); intros [= H].
      + apply missing_fields_none in H as (_ & [? Hs] & _). congruence.
      + by destruct missing.
    - intros [= H]. apply missing_fields_none in H as (_ & [? Hs] & _). congruence. }
  destruct (session !! "end_time") as [en|] eqn:Hen; last first.
  { destruct (_is_valid_time st); intros [= H].
    - apply missing_fields_none in H as (_ & _ & [? Hs]). congruence.
    - by destruct missing. }
  destruct (py_ge st en) as [[|]|] eqn:Hge; [| |done].
  { intros [= H]. by apply app_eq_nil in H as [_ ?]. }
  destruct (_is_valid_time st) eqn:Hvs; last first.
  { destruct (_is_valid_time en); intros [= H].
    - by apply app_eq_nil in H as [_ ?].
    - by apply app_eq_nil in H as [_ ?]. }
  destruct (_is_valid_time en) eqn:Hve; last first.
  { intros [= H]. by apply app_eq_nil in H as [_ ?]. }
  intros [= H]. apply missing_fields_none in H as (Hp & _ & _).
  destruct (is_valid_time_string _ Hvs) as (a & _ & _ & _ & _ & -> & _).
  destruct (is_valid_time_string _ Hve) as (b & _ & _ & _ & _ & -> & _).
  exists a, b. repeat split; auto.
  unfold py_ge, py_lt in Hge. simpl in Hge.
  by destruct (PyStr.str_lt _ _).
Qed.

Lemma session_errors_clean day i day_sessions session :
  session_errors day i day_sessions = Some [] → session ∈ day_sessions →
  ∃ index, _validate_session session day index = Some [].
Proof.
  revert i. induction day_sessions as [|s rest IH]; intros i; simpl.
  { intros _ H. by apply elem_of_nil in H. }
  destruct (_validate_session s day i) as [here|] eqn:Hs; [|done].
  destruct (session_errors day (S i) rest) as [more|] eqn:Hrest; [|done].
  intros [= H]. apply app_eq_nil in H as [-> ->].
  intros [->|Hin]%elem_of_cons; eauto.
Qed.

Lemma validate_days_clean schedule days warnings day :
  validate_days schedule days = Some ([], warnings) → day ∈ days →
  ∃ day_sessions,
    sessions schedule !! day = Some day_sessions ∧
    session_errors day 0 day_sessions = Some [].
Proof.
  revert warnings. induction days as [|d rest IH]; intros warnings; simpl.
  { intros _ H. by apply elem_of_nil in H. }
  destruct (sessions schedule !! d) as [day_sessions|] eqn:Hd.
  - destruct (session_errors d 0 day_sessions) as [errors|] eqn:He; [|done].
    destruct (_check_day_conflicts day_sessions d) as [conflicts|]; [|done].
    destruct (validate_days schedule rest) as [[more_errors more_warnings]|] eqn:Hrest; [|done].
    intros [= H _]. apply app_eq_nil in H as [-> ->].
    intros [->|Hin]%elem_of_cons; eauto.
  - destruct (validate_days schedule rest) as [[more_errors more_warnings]|]; done.
Qed.

Lemma passes_validation_sessions schedule day day_sessions session :
  passes_validation schedule = true → day ∈ required_days →
  sessions schedule !! day = Some day_sessions → session ∈ day_sessions →
  ∃ a b,
    is_Some (session !! "program_id") ∧
    session !! "start_time" = Some (PStr a) ∧ session !! "end_time" = Some (PStr b) ∧
    _is_valid_time (PStr a) = true ∧ _is_valid_time (PStr b) = true ∧
    PyStr.str_lt (PyStr.chars a) (PyStr.chars b) = true.
Proof.
  unfold passes_validation, validate_sessions.
  destruct (validate_days schedule required_days) as [[errors warnings]|] eqn:Hdays; [|done].
  simpl. intros Hvalid%bool_decide_eq_true_1 Hday Hlookup Hin.
  destruct errors; [|done].
  destruct (validate_days_clean _ _ _ _ Hdays Hday) as (l & Hl & Hclean).
  rewrite Hlookup in Hl. injection Hl as <-.
  destruct (session_errors_clean _ _ _ _ Hclean Hin) as (index & Hsession).
  by apply validate_session_clean in Hsession.
Qed.

Example empty_sessions_pass : passes_validation get_empty_sessions = true.
Proof. vm_compute. reflexivity. Qed.

Lemma day_name_required d : day_name d ∈ required_days.
Proof. destruct d; vm_compute; set_solver. Qed.


(** C2 (amended): a schedule that lists, under a weekday, a session whose
    start_time is not below its end_time as a string does not pass the
    validation that guards every save. The session 23:30-00:30 is such a
    session, so no stored schedule hands it to the resolver. *)
Theorem overnight_spelling_is_refused schedule day day_sessions session a b :
  day ∈ required_days →
  sessions schedule !! day = Some day_sessions → session ∈ day_sessions →
  session !! "start_time" = Some (PStr a) → session !! "end_time" = Some (PStr b) →
  PyStr.str_lt (PyStr.chars a) (PyStr.chars b) = false →
  passes_validation schedule = false.
Proof.
  intros Hday Hlookup Hin Ha Hb Hlt.
  destruct (passes_validation schedule) eqn:Hpass; [|done].
  destruct (passes_validation_sessions _ _ _ _ Hpass Hday Hlookup Hin)
    as (a' & b' & _ & Ha' & Hb' & _ & _ & Hlt').
  congruence.
Qed.

Lemma overnight_spelling_is_refused_witness :
  passes_validation padded_overnight_schedule = false.
Proof.
  apply (overnight_spelling_is_refused padded_overnight_schedule "monday"
           [program_session "late-show" "23:30" "00:30"]
           (program_session "late-show" "23:30" "00:30") "23:30" "00:30").
  - vm_compute. set_solver.
  - vm_compute. reflexivity.
  - apply list_elem_of_here.
  - vm_compute. reflexivity.
  - vm_compute. reflexivity.
  - vm_compute. reflexivity.
Defined.


(** Where the end is after the start, [_should_stop_recording] is the
    specified predicate. *)
Lemma should_stop_agrees_same_day session now :
  (_time_to_seconds (session_get_or session "start_time" (PStr "00:00"))
     < _time_to_seconds (session_get_or session "end_time" (PStr "23:59")))%Z →
  _should_stop_recording session now = should_stop_as_specified session now.
Proof.
  intros Hlt. unfold _should_stop_recording, should_stop_as_specified. cbv zeta.
  destruct (Z.leb_spec (_time_to_seconds (session_get_or session "end_time" (PStr "23:59")))
              (_time_to_seconds (session_get_or session "start_time" (PStr "00:00"))));
    [lia|done].
Qed.

(** C4, as stated, fails: a clock reading equal to the end of the session
    is still inside the window the code tests. *)
Lemma end_instant_is_matched :
  _get_current_session (Some morning_schedule) (at_time Monday 10 0 0) = Some morning_session ∧
  _time_to_seconds (session_get morning_session "end_time") = current_seconds (at_time Monday 10 0 0) ∧
  ¬ (_time_to_seconds (session_get morning_session "start_time")
       ≤ current_seconds (at_time Monday 10 0 0)
       < _time_to_seconds (session_get morning_session "end_time"))%Z.
Proof.
  split; [vm_compute; reflexivity|].
  split; [vm_compute; reflexivity|].
  vm_compute. intros [_ H]. discriminate H.
Qed.

(** C4 (amended): [_get_current_session] returns the first session, in
    list order, of the current day whose start and end are both set and
    whose closed window [start, end] (end moved 24 hours ahead when it is
    not after the start) contains the current time of day. *)
Theorem current_session_first_closed_match sch now s :
  _get_current_session (Some sch) now = Some s ↔
    ∃ before after,
      sessions sch !! day_name (weekday now) = Some (before ++ s :: after) ∧
      Forall (λ x, session_matches (current_seconds now) x = false) before ∧
      truthy (session_get s "start_time") = true ∧
      truthy (session_get s "end_time") = true ∧
      let start_seconds := _time_to_seconds (session_get s "start_time") in
      let end_seconds := _time_to_seconds (session_get s "end_time") in
      (start_seconds ≤ current_seconds now ∧
       current_seconds now ≤
         (if decide (end_seconds ≤ start_seconds) then end_seconds + 24 * 3600 else end_seconds))%Z.
Proof.
  unfold _get_current_session.
  destruct (decide (sessions sch = ∅)) as [He|_].
  - split; [done|]. intros (before & after & Hl & _).
    rewrite He, lookup_empty in Hl. done.
  - destruct (sessions sch !! day_name (weekday now)) as [ds|] eqn:Hd.
    + rewrite scan_sessions_first. split.
      * intros (before & after & -> & Hb & Hs).
        exists before, after. apply session_matches_spec in Hs as (? & ? & ?). auto.
      * intros (before & after & [= ->] & Hb & Hs).
        exists before, after. rewrite session_matches_spec. auto.
    + split; [done|]. by intros (before & after & ? & _).
Qed.

(** ** The text primitives *)

Section text_primitives.
Import PyStr.

Lemma split_on_nonempty sep l : split_on sep l ≠ [].
Proof.
  destruct l as [|c r]; simpl; [done|].
  destruct (c =? sep)%N; [done|]. by destruct (split_on sep r).
Qed.

Lemma split_on_no_sep sep l : sep ∉ l → split_on sep l = [l].
Proof.
  induction l as [|c r IH]; simpl; [done|].
  intros Hnot. apply not_elem_of_cons in Hnot as [Hne Hr].
  destruct (N.eqb_spec c sep) as [->|_]; [done|].
  by rewrite IH.
Qed.

Lemma split_on_app sep a b :
  sep ∉ a → split_on sep (a ++ sep :: b) = a :: split_on sep b.
Proof.
  induction a as [|c r IH]; simpl; intros Hnot.
  - by rewrite N.eqb_refl.
  - apply not_elem_of_cons in Hnot as [Hne Hr].
    destruct (N.eqb_spec c sep) as [->|_]; [done|].
    by rewrite IH.
Qed.

Lemma split_on_single sep l b :
  split_on sep l = [b] → l = b ∧ sep ∉ b.
Proof.
  revert b. induction l as [|c r IH]; simpl; intros b.
  - intros [= <-]. split; [done|]. apply not_elem_of_nil.
  - destruct (N.eqb_spec c sep) as [->|Hne].
    + intros [= _ Hr]. by pose proof (split_on_nonempty sep r).
    + destruct (split_on sep r) as [|h t] eqn:Hs; [by pose proof (split_on_nonempty sep r)|].
      intros [= <- ->]. destruct (IH h eq_refl) as [-> Hh].
      split; [done|]. apply not_elem_of_cons. by split.
Qed.

Lemma split_on_two sep l a b :
  split_on sep l = [a; b] ↔ l = a ++ (sep :: b) ∧ (sep ∉ a) ∧ (sep ∉ b).
Proof.
  split.
  - revert a. induction l as [|c r IH]; simpl; intros a; [done|].
    destruct (N.eqb_spec c sep) as [->|Hne].
    + intros [= <- Hr]. apply split_on_single in Hr as [-> Hb].
      split; [done|]. split; [apply not_elem_of_nil|done].
    + destruct (split_on sep r) as [|h t] eqn:Hs; [done|].
      intros [= <- ->]. destruct (IH h eq_refl) as (-> & Ha & Hb).
      split; [done|]. split; [|done]. apply not_elem_of_cons. by split.
  - intros (-> & Ha & Hb). rewrite split_on_app by done.
    by rewrite split_on_no_sep.
Qed.

(** *** Blanks *)

Lemma lstrip_decomp blank l :
  ∃ ws, l = ws ++ lstrip_by blank l ∧ Forall (λ c, blank c = true) ws.
Proof.
  induction l as [|c r (ws & Hr & Hws)]; simpl.
  - by exists [].
  - destruct (blank c) eqn:Hc.
    + exists (c :: ws). split; [by rewrite Hr at 1|]. by constructor.
    + by exists [].
Qed.

Lemma lstrip_spaces blank ws l :
  Forall (λ c, blank c = true) ws → lstrip_by blank (ws ++ l) = lstrip_by blank l.
Proof. induction 1 as [|c ws Hc _ IH]; simpl; [done|]. by rewrite Hc. Qed.

Lemma strip_decomp blank l :
  ∃ ws1 ws2, l = ws1 ++ strip_by blank l ++ ws2 ∧
    Forall (λ c, blank c = true) ws1 ∧ Forall (λ c, blank c = true) ws2.
Proof.
  destruct (lstrip_decomp blank l) as (ws1 & Hl & Hws1).
  destruct (lstrip_decomp blank (rev (lstrip_by blank l))) as (ws2 & Hr & Hws2).
  exists ws1, (rev ws2). split; [|split; [done|by apply Forall_rev]].
  unfold strip_by, rstrip_by. rewrite Hl at 1. f_equal.
  transitivity (rev (rev (lstrip_by blank l))); [by rewrite rev_involutive|].
  rewrite Hr at 1. by rewrite rev_app_distr.
Qed.

(** *** Digits *)

Lemma underscore_not_digit : is_digit underscore = false.
Proof. reflexivity. Qed.

Lemma digit_not_space c : is_digit c = true → is_space c = false.
Proof.
  unfold is_digit, is_space. intros H.
  apply andb_true_iff in H as [H1 H2].
  apply N.leb_le in H1, H2.
  apply orb_false_iff. split; [apply andb_false_iff|].
  - right. apply N.leb_gt. lia.
  - apply N.eqb_neq. lia.
Qed.

Lemma digit_not_sign c : is_digit c = true → c ≠ plus ∧ c ≠ minus ∧ c ≠ colon.
Proof. intros H. repeat split; intros ->; discriminate H. Qed.

Lemma int_body_head digit l :
  int_body digit l → ∃ d r, l = d :: r ∧ digit d = true.
Proof. destruct 1; eauto. Qed.

Lemma int_body_last digit l :
  int_body digit l → ∃ r d, l = r ++ [d] ∧ digit d = true.
Proof.
  induction 1 as [d Hd|d l Hd _ (r & e & -> & He)|d l Hd _ (r & e & -> & He)].
  - by exists [], d.
  - by exists (d :: r), e.
  - by exists (d :: underscore :: r), e.
Qed.

Lemma int_body_chars digit l c :
  int_body digit l → c ∈ l → digit c = true ∨ c = underscore.
Proof.
  induction 1 as [d Hd|d l Hd _ IH|d l Hd _ IH]; intros Hc.
  - apply list_elem_of_singleton in Hc as ->. by left.
  - apply elem_of_cons in Hc as [->|Hc]; auto.
  - apply elem_of_cons in Hc as [->|Hc]; [by left|].
    apply elem_of_cons in Hc as [->|Hc]; auto.
Qed.

Lemma digits_ok_spec l :
  (digits_ok false l = true ↔ int_body is_digit l) ∧
  (digits_ok true l = true ↔
     l = [] ∨ int_body is_digit l ∨ ∃ r, l = underscore :: r ∧ int_body is_digit r).
Proof.
  induction l as [|c r [IHf IHt]].
  - simpl. split.
    + split; [done|]. intros H. by apply int_body_head in H as (? & ? & ? & _).
    + split; [by left|done].
  - assert (Hcons : is_digit c = true →
              (digits_ok true r = true ↔ int_body is_digit (c :: r))).
    { intros Hc. rewrite IHt. split.
      - intros [->|[Hr|(r' & -> & Hr')]]; by constructor.
      - inversion 1; subst; eauto. }
    simpl. destruct (is_digit c) eqn:Hc.
    + split; [by apply Hcons|].
      rewrite (Hcons eq_refl). split; [by auto|].
      intros [?|[?|(r' & [= -> _] & _)]]; [done..|].
      by rewrite underscore_not_digit in Hc.
    + split.
      * rewrite andb_false_r. split; [done|].
        intros H. apply int_body_head in H as (? & ? & [= <- _] & Hd). congruence.
      * rewrite andb_true_r. destruct (N.eqb_spec c underscore) as [->|Hne].
        -- rewrite IHf. split; [by eauto|].
           intros [?|[H|(r' & [= ->] & Hr')]]; [done| |done].
           apply int_body_head in H as (? & ? & [= <- _] & Hd). congruence.
        -- split; [done|].
           intros [?|[H|(r' & [= -> _] & _)]]; [done| |done].
           apply int_body_head in H as (? & ? & [= <- _] & Hd). congruence.
Qed.

(** *** The parser accepts exactly the ASCII integer literals *)

Lemma split_sign_decomp core neg body :
  split_sign core = (neg, body) → ∃ sign, core = sign ++ body ∧ int_sign sign.
Proof.
  unfold split_sign, int_sign. destruct core as [|c r].
  - intros [= <- <-]. exists []. auto.
  - destruct (N.eqb_spec c minus) as [->|_].
    { intros [= <- <-]. exists [minus]. auto. }
    destruct (N.eqb_spec c plus) as [->|_].
    { intros [= <- <-]. exists [plus]. auto. }
    intros [= <- <-]. exists []. auto.
Qed.

Lemma split_sign_literal sign body :
  int_sign sign → int_body is_digit body →
  ∃ neg, split_sign (sign ++ body) = (neg, body).
Proof.
  intros Hsign Hbody.
  destruct (int_body_head _ _ Hbody) as (d & r & -> & Hd).
  destruct (digit_not_sign _ Hd) as (Hp & Hm & _).
  destruct Hsign as [-> | [-> | ->] ]; simpl.
  - destruct (N.eqb_spec d minus); [done|].
    destruct (N.eqb_spec d plus); [done|]. by exists false.
  - by exists false.
  - by exists true.
Qed.

Lemma strip_literal ws1 sign body ws2 :
  Forall (λ c, is_space c = true) ws1 →
  Forall (λ c, is_space c = true) ws2 →
  int_sign sign → int_body is_digit body →
  strip_by is_space (ws1 ++ sign ++ body ++ ws2) = sign ++ body.
Proof.
  intros Hws1 Hws2 Hsign Hbody.
  destruct (int_body_head _ _ Hbody) as (d & r & Hdr & Hd).
  destruct (int_body_last _ _ Hbody) as (r' & e & Hre & He).
  unfold strip_by. rewrite lstrip_spaces by done.
  assert (lstrip_by is_space (sign ++ body ++ ws2) = sign ++ body ++ ws2) as ->.
  { destruct Hsign as [-> | [-> | ->] ]; [|done..].
    rewrite Hdr. simpl. by rewrite (digit_not_space _ Hd). }
  unfold rstrip_by. rewrite (app_assoc sign), rev_app_distr.
  rewrite lstrip_spaces by by apply Forall_rev.
  rewrite Hre at 1. rewrite (app_assoc sign), rev_app_distr. simpl.
  rewrite (digit_not_space _ He).
  change (e :: rev (sign ++ r')) with ([e] ++ rev (sign ++ r')).
  rewrite <- (rev_app_distr _ [e]), rev_involutive, <- app_assoc.
  by rewrite <- Hre.
Qed.

Lemma py_long_literal l : is_Some (py_long l) ↔ int_literal_of is_space is_digit l.
Proof.
  unfold py_long. split.
  - destruct (split_sign (strip_by is_space l)) as [neg body] eqn:Hs.
    destruct (digits_ok false body) eqn:Hok; simpl; [|by intros [? ?]].
    destruct (digit_count body <=? int_max_str_digits) eqn:Hn; [|by intros [? ?]].
    intros _. apply split_sign_decomp in Hs as (sign & Hcore & Hsign).
    destruct (strip_decomp is_space l) as (ws1 & ws2 & Hl & Hws1 & Hws2).
    exists ws1, sign, body, ws2. repeat split; try done.
    + rewrite Hl at 1. rewrite Hcore. by rewrite <- app_assoc.
    + by apply digits_ok_spec.
    + by apply Nat.leb_le.
  - intros (ws1 & sign & body & ws2 & -> & Hws1 & Hws2 & Hsign & Hbody & Hn).
    rewrite strip_literal by done.
    destruct (split_sign_literal _ _ Hsign Hbody) as [neg ->].
    apply digits_ok_spec in Hbody as ->.
    unfold digit_count. apply Nat.leb_le in Hn as ->.
    simpl. eauto.
Qed.

(** *** From the text to what the parser sees *)

Lemma unicode_decimal_bound c d : unicode_decimal c = Some d → (d < 10)%N.
Proof.
  unfold unicode_decimal. destruct (find _ _) as [z|] eqn:Hz; [|done].
  intros [= <-]. apply find_some in Hz as [_ Hz].
  apply andb_true_iff in Hz as [H1 H2].
  apply N.leb_le in H1. apply N.ltb_lt in H2. lia.
Qed.

Lemma to_ascii_space c : is_space (to_ascii c) = int_blank c.
Proof.
  unfold to_ascii, int_blank, is_space.
  destruct (N.ltb_spec c 127) as [Hlt|Hge].
  - replace (127 <=? c)%N with false by (symmetry; apply N.leb_gt; lia).
    by rewrite orb_false_r.
  - replace (127 <=? c)%N with true by (symmetry; apply N.leb_le; lia).
    replace ((9 <=? c) && (c <=? 13))%N with false
      by (symmetry; apply andb_false_iff; right; apply N.leb_gt; lia).
    replace (c =? 32)%N with false by (symmetry; apply N.eqb_neq; lia).
    simpl. destruct (unicode_space c); [done|].
    destruct (unicode_decimal c) as [d|] eqn:Hd; [|done].
    apply unicode_decimal_bound in Hd.
    apply orb_false_iff. split; [apply andb_false_iff; right|];
      [apply N.leb_gt|apply N.eqb_neq]; lia.
Qed.

Lemma to_ascii_digit c : is_digit (to_ascii c) = int_digit c.
Proof.
  unfold to_ascii, int_digit, is_digit.
  destruct (N.ltb_spec c 127) as [Hlt|Hge].
  - replace (127 <=? c)%N with false by (symmetry; apply N.leb_gt; lia).
    by rewrite orb_false_r.
  - replace (127 <=? c)%N with true by (symmetry; apply N.leb_le; lia).
    replace ((48 <=? c) && (c <=? 57))%N with false
      by (symmetry; apply andb_false_iff; right; apply N.leb_gt; lia).
    simpl. destruct (unicode_space c); [done|]. simpl.
    destruct (unicode_decimal c) as [d|] eqn:Hd; [|done].
    apply unicode_decimal_bound in Hd.
    rewrite bool_decide_eq_true_2 by eauto.
    apply andb_true_iff. split; apply N.leb_le; lia.
Qed.

Lemma to_ascii_mark c m : (m < 127)%N → m ≠ 32%N → m ≠ 63%N → is_digit m = false →
  to_ascii c = m ↔ c = m.
Proof.
  intros Hm H32 H63 Hdig. unfold to_ascii. split.
  - destruct (N.ltb_spec c 127); [done|].
    destruct (unicode_space c); [congruence|].
    destruct (unicode_decimal c) as [d|] eqn:Hd; [|congruence].
    apply unicode_decimal_bound in Hd. intros <-.
    exfalso. revert Hdig. unfold is_digit.
    intros Hdig. apply andb_false_iff in Hdig as [Hx|Hx]; apply N.leb_gt in Hx; lia.
  - intros ->. by replace (m <? 127)%N with true by (symmetry; apply N.ltb_lt; lia).
Qed.

Lemma transform_sign l : int_sign (transform l) ↔ int_sign l.
Proof.
  unfold int_sign, transform. split.
  - intros [H|[H|H]].
    + apply fmap_nil_inv in H. auto.
    + destruct l as [|c [|? ?]]; try done. injection H as H.
      apply (to_ascii_mark c plus) in H; [subst; auto|done..].
    + destruct l as [|c [|? ?]]; try done. injection H as H.
      apply (to_ascii_mark c minus) in H; [subst; auto|done..].
  - intros [->|[->| ->]]; auto.
Qed.

Lemma transform_body l : int_body is_digit (transform l) ↔ int_body int_digit l.
Proof.
  unfold transform. split.
  - remember (to_ascii <$> l) as k eqn:Hk. intros H. revert l Hk.
    induction H as [d Hd|d k Hd _ IH|d k Hd _ IH]; intros l Hk.
    + destruct l as [|c [|? ?]]; try done. injection Hk as ->.
      constructor. by rewrite <- to_ascii_digit.
    + destruct l as [|c l]; [done|]. injection Hk as -> ->.
      constructor; [by rewrite <- to_ascii_digit|by apply IH].
    + destruct l as [|c [|u l]]; try done. injection Hk as -> Hu ->.
      symmetry in Hu. apply (to_ascii_mark u underscore) in Hu; [subst u|done..].
      apply int_body_sep; [by rewrite <- to_ascii_digit|by apply IH].
  - induction 1 as [d Hd|d k Hd _ IH|d k Hd _ IH]; simpl.
    + constructor. by rewrite to_ascii_digit.
    + constructor; [by rewrite to_ascii_digit|done].
    + change (to_ascii underscore) with underscore.
      apply int_body_sep; [by rewrite to_ascii_digit|done].
Qed.

Lemma transform_count l :
  length (filter (λ c, is_digit c = true) (transform l)) =
  length (filter (λ c, int_digit c = true) l).
Proof.
  unfold transform. induction l as [|c l IH]; [done|]. simpl.
  rewrite !filter_cons. rewrite to_ascii_digit.
  case_decide; simpl; by rewrite <- IH.
Qed.

Lemma transform_blanks l :
  Forall (λ c, is_space c = true) (transform l) ↔ Forall (λ c, int_blank c = true) l.
Proof.
  unfold transform. rewrite Forall_fmap. apply Forall_iff. intros c. simpl.
  by rewrite to_ascii_space.
Qed.

Lemma transform_literal l :
  int_literal_of is_space is_digit (transform l) ↔ int_literal l.
Proof.
  unfold int_literal, int_literal_of. split.
  - intros (ws1 & sign & body & ws2 & Hl & Hws1 & Hws2 & Hsign & Hbody & Hn).
    unfold transform in Hl.
    apply fmap_app_inv in Hl as (ws1' & r1 & -> & Hr1 & ->). symmetry in Hr1.
    apply fmap_app_inv in Hr1 as (sign' & r2 & -> & Hr2 & ->). symmetry in Hr2.
    apply fmap_app_inv in Hr2 as (body' & ws2' & -> & -> & ->).
    exists ws1', sign', body', ws2'. split; [done|].
    split; [by apply transform_blanks|]. split; [by apply transform_blanks|].
    split; [by apply transform_sign|]. split; [by apply transform_body|].
    by rewrite <- transform_count.
  - intros (ws1 & sign & body & ws2 & -> & Hws1 & Hws2 & Hsign & Hbody & Hn).
    exists (transform ws1), (transform sign), (transform body), (transform ws2).
    split; [unfold transform; by rewrite !fmap_app|].
    split; [by apply transform_blanks|]. split; [by apply transform_blanks|].
    split; [by apply transform_sign|]. split; [by apply transform_body|].
    by rewrite transform_count.
Qed.

(** *** [int()] accepts exactly the integer literals *)

Lemma py_int_literal l : is_Some (py_int l) ↔ int_literal l.
Proof. unfold py_int. by rewrite py_long_literal, transform_literal. Qed.

Lemma int_blank_not_colon c : int_blank c = true → c ≠ colon.
Proof. intros H ->. discriminate H. Qed.

Lemma int_digit_not_colon c : int_digit c = true → c ≠ colon.
Proof. intros H ->. discriminate H. Qed.

Lemma int_literal_no_colon l : int_literal l → colon ∉ l.
Proof.
  intros (ws1 & sign & body & ws2 & -> & Hws1 & Hws2 & Hsign & Hbody & _) Hin.
  rewrite !elem_of_app in Hin. destruct Hin as [Hin|[Hin|[Hin|Hin]]].
  - rewrite Forall_forall in Hws1. by apply Hws1, int_blank_not_colon in Hin.
  - destruct Hsign as [-> | [-> | ->] ].
    + by apply elem_of_nil in Hin.
    + by apply list_elem_of_singleton in Hin.
    + by apply list_elem_of_singleton in Hin.
  - destruct (int_body_chars _ _ _ Hbody Hin) as [H|H]; [|done].
    by apply int_digit_not_colon in H.
  - rewrite Forall_forall in Hws2. by apply Hws2, int_blank_not_colon in Hin.
Qed.

End text_primitives.

(** ** The time format *)

Lemma hh_mm_parses_spec s : hh_mm_form s ↔ hh_mm_parses s = true.
Proof.
  unfold hh_mm_form, hh_mm_parses. split.
  - intros (a & b & Hs & Ha & Hb).
    assert (PyStr.split_on PyStr.colon (PyStr.chars s) = [a; b]) as ->.
    { apply split_on_two. eauto using int_literal_no_colon. }
    apply andb_true_iff. split; apply bool_decide_eq_true; by apply py_int_literal.
  - destruct (PyStr.split_on PyStr.colon (PyStr.chars s)) as [|a [|b [|]]] eqn:Hs; try done.
    intros [Ha Hb]%andb_true_iff.
    apply bool_decide_eq_true in Ha, Hb.
    apply split_on_two in Hs as (Hs & _ & _).
    exists a, b. split; [done|]. split; by apply py_int_literal.
Qed.

Lemma time_to_seconds_malformed s :
  ¬ hh_mm_form s → _time_to_seconds (PStr s) = 0%Z.
Proof.
  rewrite hh_mm_parses_spec. unfold hh_mm_parses, _time_to_seconds.
  destruct (PyStr.split_on PyStr.colon (PyStr.chars s)) as [|a [|b [|]]]; try done.
  destruct (PyStr.py_int a) as [h|]; [|done].
  destruct (PyStr.py_int b) as [m|]; [|done].
  intros []. apply andb_true_iff. split; by apply bool_decide_eq_true.
Qed.

Lemma current_seconds_nonneg now : (0 ≤ current_seconds now)%Z.
Proof. unfold current_seconds. lia. Qed.

(** C10: a string that is not two colon-separated integers converts to 0
    seconds, so a session whose [start_time] is such a string is always
    due to start. *)
Theorem malformed_time_counts_as_midnight s :
  ¬ hh_mm_form s →
  _time_to_seconds (PStr s) = 0%Z ∧
  ∀ (session : Session) now,
    session !! "start_time" = Some (PStr s) →
    _should_start_recording session now = true.
Proof.
  intros Hbad. pose proof (time_to_seconds_malformed s Hbad) as H0.
  split; [done|]. intros session now Hs.
  unfold _should_start_recording, session_get_or. rewrite Hs.
  change (default (PStr "00:00") (Some (PStr s))) with (PStr s).
  rewrite H0. apply Z.leb_le, current_seconds_nonneg.
Qed.

Lemma malformed_time_counts_as_midnight_witness :
  ¬ hh_mm_form "09.00" ∧
  _time_to_seconds (PStr "09.00") = 0%Z ∧
  _should_start_recording (mk_session "09.00" "10:00") (at_time Friday 3 0 0) = true.
Proof.
  assert (Hbad : ¬ hh_mm_form "09.00").
  { rewrite hh_mm_parses_spec. vm_compute. discriminate. }
  destruct (malformed_time_counts_as_midnight "09.00" Hbad) as [H0 Hstart].
  split; [exact Hbad|]. split; [exact H0|].
  apply Hstart. vm_compute. reflexivity.
Defined.

(** ** Frame reasoning for the state monad

    For a preorder [R], [respects R] composes along [bind], so a property
    of the primitive steps carries over to whole operations. *)

Global Instance trace_ext_preorder P : PreOrder (trace_ext P).
Proof.
  split.
  - intros s. exists []. by rewrite app_nil_r.
  - intros s1 s2 s3 (e1 & H1 & P1) (e2 & H2 & P2). exists (e1 ++ e2).
    split; [by rewrite H2, H1, app_assoc|by apply Forall_app].
Qed.

Global Instance same_tables_preorder : PreOrder same_tables.
Proof.
  split; [done|]. intros s1 s2 s3 [H1 H1'] [H2 H2']. split; congruence.
Qed.

Global Instance same_recordings_preorder : PreOrder same_recordings.
Proof. split; [done|]. intros s1 s2 s3 H1 H2. unfold same_recordings in *. congruence. Qed.

Global Instance same_files_preorder : PreOrder same_files.
Proof. split; [done|]. intros s1 s2 s3 H1 H2. unfold same_files in *. congruence. Qed.

Global Instance recordings_settle_preorder : PreOrder recordings_settle.
Proof.
  split.
  - intros s id r Hr. eauto.
  - intros s1 s2 s3 H1 H2 id r Hr.
    destruct (H1 id r Hr) as (r2 & Hr2 & T2).
    destruct (H2 id r2 Hr2) as (r3 & Hr3 & T3). eauto.
Qed.

Section frame.
Context (R : relation State) `{!PreOrder R}.

Lemma respects_ret {A} (a : A) : respects R (ret a).
Proof. intros s. reflexivity. Qed.

Lemma respects_get {A} (f : State → A) : respects R (get f).
Proof. intros s. reflexivity. Qed.

Lemma respects_bind {A B} (m : M A) (k : A → M B) :
  respects R m → (∀ a, respects R (k a)) → respects R (bind m k).
Proof.
  intros Hm Hk s. unfold exec, bind.
  specialize (Hm s). unfold exec in Hm.
  destruct (m s) as [a s1]. simpl in *.
  etrans; [exact Hm|]. apply Hk.
Qed.

Lemma respects_for_each {A} (l : list A) (body : A → M unit) :
  (∀ x, respects R (body x)) → respects R (for_each l body).
Proof.
  intros Hb. induction l as [|x l IH]; simpl.
  - apply respects_ret.
  - apply respects_bind; [apply Hb|done].
Qed.

Lemma respects_path_exists path : respects R (path_exists path).
Proof. apply respects_get. Qed.

End frame.

Ltac r_ret := refine (respects_ret _ _).
Ltac r_get := refine (respects_get _ _).
Ltac r_exists := refine (respects_path_exists _ _).
Ltac r_bind := refine (respects_bind _ _ _ _ _).

Ltac respects_step :=
  lazymatch goal with
  | |- respects _ (ret _) => r_ret
  | |- respects _ (get _) => r_get
  | |- respects _ (path_exists _) => r_exists
  | |- respects _ (bind _ _) => r_bind; [|intros ?]
  | |- respects _ (if ?b then _ else _) => destruct b
  | |- respects _ (match ?x with _ => _ end) => destruct x
  | |- respects _ _ => solve [auto]
  end.

Ltac respects_auto := repeat respects_step.

(** Operations of the process and file layer, for any relation kept by
    the primitive steps they are built from. *)
Section frame_operations.
Context (cfg : Config) (env : Env).
Context (R : relation State) `{!PreOrder R}.
Hypothesis R_tick : respects R next_tick.
Hypothesis R_sleep : ∀ ms, respects R (sleep ms).
Hypothesis R_signal : ∀ p sig, respects R (emit (EvSignal p sig)).
Hypothesis R_upload : ∀ f, respects R (emit (EvUpload f)).
Hypothesis R_status : ∀ id st, respects R (emit (EvStatus id st)).
Hypothesis R_remove : ∀ path, respects R (emit (EvRemove path)).
Hypothesis R_write : ∀ path content, respects R (write_file path content).
Hypothesis R_residue : ∀ residue, respects R (leave_residue residue).
Hypothesis R_unlink : ∀ path (a : bool * string),
  respects R (λ s, (a, set_files (delete path (files s)) s)).

Lemma respects_is_process_running process :
  respects R (_is_process_running env process).
Proof. unfold _is_process_running. respects_auto. Qed.
Hint Resolve respects_is_process_running : core.

Lemma respects_signal_process sig process :
  respects R (signal_process env sig process).
Proof. unfold signal_process. respects_auto. Qed.
Hint Resolve respects_signal_process : core.

Lemma respects_cleanup_loop fuel process start_time timeout :
  respects R (cleanup_loop cfg env fuel process start_time timeout).
Proof. induction fuel as [|fuel IH]; simpl; respects_auto. Qed.
Hint Resolve respects_cleanup_loop : core.

Lemma respects_wait_for_process_cleanup process timeout :
  respects R (_wait_for_process_cleanup cfg env process timeout).
Proof. unfold _wait_for_process_cleanup. cbv zeta. respects_auto. Qed.

Lemma respects_stop_capture_process process :
  respects R (stop_capture_process cfg env process).
Proof.
  unfold stop_capture_process, _terminate_process, _force_kill_process.
  pose proof respects_wait_for_process_cleanup. respects_auto.
Qed.

Lemma respects_is_file_locked path : respects R (_is_file_locked env path).
Proof. unfold _is_file_locked. respects_auto. Qed.
Hint Resolve respects_is_file_locked : core.

Lemma respects_unlock_loop path base n attempt :
  respects R (unlock_loop cfg env path base n attempt).
Proof.
  revert attempt. induction n as [|n IH]; intros attempt; simpl; respects_auto.
Qed.
Hint Resolve respects_unlock_loop : core.

Lemma respects_wait_for_file_unlock path max_retries base :
  respects R (_wait_for_file_unlock cfg env path max_retries base).
Proof. unfold _wait_for_file_unlock. cbv zeta. respects_auto. Qed.
Hint Resolve respects_wait_for_file_unlock : core.

Lemma respects_getsize path : respects R (getsize env path).
Proof. unfold getsize. respects_auto. Qed.
Hint Resolve respects_getsize : core.

Lemma respects_read_loop path n attempt :
  respects R (read_loop cfg env path n attempt).
Proof.
  revert attempt. induction n as [|n IH]; intros attempt; simpl; respects_auto.
Qed.
Hint Resolve respects_read_loop : core.

Lemma respects_safe_file_read path : respects R (_safe_file_read cfg env path).
Proof. unfold _safe_file_read. respects_auto. Qed.
Hint Resolve respects_safe_file_read : core.

Lemma respects_delete_loop path n attempt :
  respects R (delete_loop cfg env path n attempt).
Proof.
  revert attempt. induction n as [|n IH]; intros attempt; simpl; respects_auto.
Qed.
Hint Resolve respects_delete_loop : core.

Lemma respects_safe_file_delete path : respects R (_safe_file_delete cfg env path).
Proof. unfold _safe_file_delete. respects_auto. Qed.
Hint Resolve respects_safe_file_delete : core.

Lemma respects_save_upload_file filename content :
  respects R (save_upload_file env filename content).
Proof. unfold save_upload_file. respects_auto. Qed.
Hint Resolve respects_save_upload_file : core.

Lemma respects_assign id rec : respects R (assign id rec).
Proof. unfold assign. respects_auto. Qed.
Hint Resolve respects_assign : core.

Lemma respects_finalized_record data rec :
  respects R (finalized_record cfg env data rec).
Proof. unfold finalized_record. cbv zeta. respects_auto. Qed.

Hypothesis R_commit : ∀ id rec, respects R (db_commit id rec).
Hypothesis R_deregister : ∀ key, respects R (deregister key).
Hypothesis R_cancel : ∀ sid, respects R (emit (EvCancel sid)).

Lemma respects_finalize_recording data :
  respects R (_finalize_recording cfg env data).
Proof.
  unfold _finalize_recording. cbv zeta.
  pose proof respects_finalized_record. respects_auto.
Qed.
Hint Resolve respects_finalize_recording : core.

Lemma respects_stop_session_recording key :
  respects R (_stop_session_recording cfg env key).
Proof.
  unfold _stop_session_recording.
  pose proof respects_stop_capture_process. respects_auto.
Qed.
Hint Resolve respects_stop_session_recording : core.

Lemma respects_cancel_task entry : respects R (cancel_task cfg env entry).
Proof.
  unfold cancel_task, _save_station_recordings_on_shutdown.
  r_bind; [done|intros _]. destruct entry.2; [|r_ret].
  r_bind; [done|intros t]. destruct (cancel_handled env entry.1 t); [|r_ret].
  r_bind; [r_get|intros table]. apply respects_for_each; auto.
Qed.

End frame_operations.

(** Primitive steps and the relations they keep. *)

Lemma same_tables_prim :
  respects same_tables next_tick ∧
  (∀ ms, respects same_tables (sleep ms)) ∧
  (∀ e, respects same_tables (emit e)) ∧
  (∀ path (a : bool * string),
     respects same_tables (λ s, (a, set_files (delete path (files s)) s))) ∧
  (∀ path content, respects same_tables (write_file path content)) ∧
  (∀ residue, respects same_tables (leave_residue residue)).
Proof. repeat split; by destruct residue as [[? []]|]. Qed.

Lemma same_recordings_prim :
  respects same_recordings next_tick ∧
  (∀ ms, respects same_recordings (sleep ms)) ∧
  (∀ e, respects same_recordings (emit e)) ∧
  (∀ path (a : bool * string),
     respects same_recordings (λ s, (a, set_files (delete path (files s)) s))) ∧
  (∀ path content, respects same_recordings (write_file path content)) ∧
  (∀ residue, respects same_recordings (leave_residue residue)).
Proof. repeat split; by destruct residue as [[? []]|]. Qed.

Lemma same_files_prim :
  respects same_files next_tick ∧
  (∀ ms, respects same_files (sleep ms)) ∧
  (∀ e, respects same_files (emit e)).
Proof. repeat split. Qed.

Lemma trace_ext_prim P :
  respects (trace_ext P) next_tick ∧
  (∀ ms, P (EvSleep ms) → respects (trace_ext P) (sleep ms)) ∧
  (∀ e, P e → respects (trace_ext P) (emit e)) ∧
  (∀ path (a : bool * string),
     respects (trace_ext P) (λ s, (a, set_files (delete path (files s)) s))) ∧
  (∀ path content, respects (trace_ext P) (write_file path content)) ∧
  (∀ residue, respects (trace_ext P) (leave_residue residue)).
Proof.
  repeat split.
  - intros s. exists []. by rewrite app_nil_r.
  - intros ms HP s. exists [EvSleep ms]. split; [done|]. by constructor.
  - intros e HP s. exists [e]. split; [done|]. by constructor.
  - intros path a s. exists []. by rewrite app_nil_r.
  - intros path content s. exists []. by rewrite app_nil_r.
  - intros residue s. exists []. destruct residue as [[? []]|]; by rewrite app_nil_r.
Qed.

(** ** RetryingFileOps *)

Section file_ops.
Context (cfg : Config) (env : Env).

Lemma backoff_S base first n :
  backoff cfg base first (S n) = EvSleep (retry_delay cfg base first) :: backoff cfg base (S first) n.
Proof. reflexivity. Qed.

(** For every behaviour of the file, the pauses of the unlock loop are
    the first [k] terms of the backoff sequence; the loop gives up
    exactly after [n] of them. *)
Lemma unlock_loop_trace path base n first s :
  ∃ k a s',
    unlock_loop cfg env path base n first s = (a, s') ∧
    trace s' = trace s ++ backoff cfg base first k ∧
    files s' = files s ∧
    (a = true → k < n) ∧ (a = false → k = n).
Proof.
  revert first s. induction n as [|n IH]; intros first s.
  - exists 0, false, s. simpl. rewrite app_nil_r. repeat split; done.
  - cbn [unlock_loop]. unfold bind at 1.
    destruct (_is_file_locked env path s) as [locked s1] eqn:Hl.
    assert (trace s1 = trace s ∧ files s1 = files s) as [Ht Hf].
    { unfold _is_file_locked, bind, path_exists, get, next_tick, ret in Hl.
      destruct (bool_decide _); simplify_eq; done. }
    destruct locked; simpl.
    + unfold bind at 1. unfold sleep at 1.
      destruct (IH (S first)
                  (set_trace (trace s1 ++ [EvSleep (retry_delay cfg base first)])
                     (set_clock (clock s1 + retry_delay cfg base first)%Z s1)))
        as (k & a & s' & Hrun & Htr & Hfs & Hlt & Hge).
      exists (S k), a, s'. rewrite Hrun. split; [done|].
      rewrite Htr, backoff_S. simpl. rewrite Ht, <- app_assoc. simpl.
      split; [done|]. split; [by rewrite Hfs|]. split; intros Ha.
      * specialize (Hlt Ha). lia.
      * specialize (Hge Ha). lia.
    + exists 0, true, s1. simpl. rewrite app_nil_r.
      repeat split; try done; lia.
Qed.

Lemma is_file_locked_never_free path s :
  (∀ t, file_locked env path t = true) →
  ∃ s', _is_file_locked env path s = (true, s') ∧
        trace s' = trace s ∧ files s' = files s.
Proof.
  intros Hlocked. unfold _is_file_locked, bind, path_exists, get, next_tick, ret.
  destruct (bool_decide _); [rewrite Hlocked|]; eauto.
Qed.

Lemma unlock_loop_never_free path base n first s :
  (∀ t, file_locked env path t = true) →
  ∃ s', unlock_loop cfg env path base n first s = (false, s') ∧
        trace s' = trace s ++ backoff cfg base first n ∧ files s' = files s.
Proof.
  intros Hlocked.
  destruct (unlock_loop_trace path base n first s) as (k & a & s' & Hrun & Htr & Hfs & Hlt & Hge).
  destruct a.
  - exfalso. clear Htr Hfs Hge Hlt. revert first s s' Hrun.
    induction n as [|n IH]; intros first s s' Hrun; [done|].
    cbn [unlock_loop] in Hrun. unfold bind at 1 in Hrun.
    destruct (is_file_locked_never_free path s Hlocked) as (s1 & Hl & _).
    rewrite Hl in Hrun. simpl in Hrun. unfold bind at 1 in Hrun. unfold sleep at 1 in Hrun.
    by apply IH in Hrun.
  - rewrite (Hge eq_refl) in Htr. eauto.
Qed.

Lemma wait_for_file_unlock_trace path max_retries base s :
∃ k a s',
  _wait_for_file_unlock cfg env path (Some max_retries) (Some base) s = (a, s') ∧
  k ≤ max_retries ∧
  trace s' = trace s ++ backoff cfg base 0 k ∧
  (a = true → k < max_retries).
Proof.
  unfold _wait_for_file_unlock. cbv zeta. unfold bind, path_exists, get.
  destruct (bool_decide _); simpl.
  - destruct (unlock_loop_trace path base max_retries 0 s)
      as (k & a & s' & Hrun & Htr & _ & Hlt & Hge).
    exists k, a, s'. repeat split; try done.
    destruct a; [specialize (Hlt eq_refl)|specialize (Hge eq_refl)]; lia.
  - exists 0, false, s. unfold ret. simpl. rewrite app_nil_r.
    repeat split; [lia|done].
Qed.

Lemma wait_for_file_unlock_never_free path max_retries base s :
is_Some (files s !! path) →
(∀ t, file_locked env path t = true) →
∃ s', _wait_for_file_unlock cfg env path max_retries base s = (false, s') ∧
      trace s' = trace s ++
        backoff cfg (default (base_retry_delay cfg) base) 0
          (default (max_file_access_retries cfg) max_retries) ∧
      files s' = files s.
Proof.
  intros Hex Hlocked.
  unfold _wait_for_file_unlock. cbv zeta. unfold bind, path_exists, get.
  rewrite bool_decide_eq_true_2 by done. simpl.
  by apply unlock_loop_never_free.
Qed.

(** C5: the unlock wait pauses [min(base_delay * 2 ** attempt,
    max_retry_delay)] before each retry, [attempt] counting from 0, and
    gives up after [max_retries] of them; on a file that exists and is
    never released it answers [False], and [_safe_file_delete] then
    reports an error without calling [os.remove]: the file stays. *)
Theorem locked_file_backoff path max_retries base_delay s :
let wait := _wait_for_file_unlock cfg env path (Some max_retries) (Some base_delay) in
let delete := _safe_file_delete cfg env path in
(∃ k, k ≤ max_retries ∧
   trace (exec wait s) =
     trace s ++ map (λ attempt,
                  EvSleep (Z.min (base_delay * 2 ^ Z.of_nat attempt) (max_retry_delay cfg)))
                (seq 0 k) ∧
   (eval wait s = true → k < max_retries)) ∧
(is_Some (files s !! path) →
 (∀ t, file_locked env path t = true) →
 eval wait s = false ∧
 trace (exec wait s) = trace s ++ backoff cfg base_delay 0 max_retries ∧
 eval delete s = (false, "Cannot delete locked file: " +:+ path) ∧
 trace (exec delete s) =
   trace s ++ backoff cfg (base_retry_delay cfg) 0 (max_file_access_retries cfg) ∧
 files (exec delete s) = files s).
Proof.
  intros wait delete. split.
  - destruct (wait_for_file_unlock_trace path max_retries base_delay s)
      as (k & a & s' & Hrun & Hk & Htr & Hlt).
    exists k. unfold exec, eval, wait. rewrite Hrun. simpl. by subst.
  - intros Hex Hlocked.
    destruct (wait_for_file_unlock_never_free path (Some max_retries) (Some base_delay) s Hex Hlocked)
      as (s1 & Hrun & Htr & Hfs).
    destruct (wait_for_file_unlock_never_free path None None s Hex Hlocked)
      as (s2 & Hrun2 & Htr2 & Hfs2).
    unfold exec, eval, wait. rewrite Hrun. simpl. split; [done|]. split; [done|].
    unfold delete, _safe_file_delete, bind, path_exists, get.
    rewrite bool_decide_eq_true_2 by done. simpl. rewrite Hrun2. simpl. done.
Qed.

End file_ops.

Lemma locked_file_backoff_witness :
let s := sample_state (Some sample_audio) in
let delete := _safe_file_delete (default_config false) env_locked sample_path in
eval delete s = (false, "Cannot delete locked file: " +:+ sample_path) ∧
trace (exec delete s) =
  [EvSleep 500; EvSleep 1000; EvSleep 2000; EvSleep 4000; EvSleep 8000;
   EvSleep 16000; EvSleep 30000; EvSleep 30000; EvSleep 30000; EvSleep 30000] ∧
files (exec delete s) !! sample_path = Some sample_audio.
Proof.
  intros s delete.
  destruct (locked_file_backoff (default_config false) env_locked sample_path 10 500 s)
    as [_ H].
  destruct H as (_ & _ & Hres & Htr & Hfs).
  - vm_compute. eauto.
  - reflexivity.
  - split; [exact Hres|]. split; [exact Htr|]. fold delete in Hfs. rewrite Hfs. reflexivity.
Defined.

(** ** Finalization *)

Lemma returns_ret {A} (Q : A → Prop) (a : A) : Q a → returns Q (ret a).
Proof. intros Ha s. exact Ha. Qed.

Lemma returns_bind {A B} (Q : B → Prop) (m : M A) (k : A → M B) :
  (∀ a, returns Q (k a)) → returns Q (bind m k).
Proof.
  intros Hk s. unfold eval, bind. destruct (m s) as [a s1]. apply Hk.
Qed.

Lemma returns_assign (Q : RadioSessionRecording → Prop) id rec :
  Q rec → returns Q (assign id rec).
Proof. intros Ha s. exact Ha. Qed.

Lemma returns_assign_bind {B} (Q : B → Prop) id rec (k : RadioSessionRecording → M B) :
  returns Q (k rec) → returns Q (bind (assign id rec) k).
Proof. intros Hk s. apply Hk. Qed.

Ltac returns_step :=
  lazymatch goal with
  | |- returns _ (ret _) => apply returns_ret
  | |- returns _ (assign _ _) => apply returns_assign
  | |- returns _ (bind (assign _ _) _) => apply returns_assign_bind
  | |- returns _ (bind _ _) => apply returns_bind; intros ?
  | |- returns _ (if ?b then _ else _) => destruct b
  | |- returns _ (match ?x with _ => _ end) => destruct x
  end.

Section finalization.
Context (cfg : Config) (env : Env).

Lemma finalized_record_shape data rec s :
  finalized_shape data rec (clock s) (eval (finalized_record cfg env data rec) s).
Proof.
  unfold finalized_record, eval. cbv zeta. unfold bind at 1, get at 1.
  cbv beta iota. generalize (clock s). intros t.
  match goal with
  | |- ?Q (?m s).1 => revert s; change (returns Q m)
  end.
  repeat returns_step; repeat split; simpl; eauto; done.
Qed.

Lemma finalize_recording_found data rec s :
  recordings s !! rd_recording_id data = Some rec →
  let r := finalized_record cfg env data rec s in
  exec (_finalize_recording cfg env data) s =
    set_trace (trace r.2 ++ [EvCommit (rd_recording_id data) (recording_status r.1)])
      (set_recordings (<[rd_recording_id data := r.1]> (recordings r.2)) r.2).
Proof.
  intros Hrec. unfold _finalize_recording, exec. cbv zeta.
  unfold bind at 1, get at 1. rewrite Hrec. unfold bind.
  by destruct (finalized_record cfg env data rec s).
Qed.

Lemma finalize_recording_missing data s :
  recordings s !! rd_recording_id data = None →
  _finalize_recording cfg env data s = (tt, s).
Proof.
  intros Hrec. unfold _finalize_recording. cbv zeta.
  unfold bind, get. by rewrite Hrec.
Qed.




(** *** Upload and local clean-up *)

Lemma safe_file_read_quiet path s :
  trace_ext is_pause s (exec (_safe_file_read cfg env path) s) ∧
  same_files s (exec (_safe_file_read cfg env path) s).
Proof.
  split.
  - apply respects_safe_file_read; [apply _|apply trace_ext_prim|].
    intros ms. by apply trace_ext_prim.
  - apply respects_safe_file_read; [apply _|apply same_files_prim..].
Qed.

Lemma safe_file_delete_cleanup path s :
  trace_ext is_cleanup s (exec (_safe_file_delete cfg env path) s).
Proof.
  apply respects_safe_file_delete; [apply _|apply trace_ext_prim|..].
  - intros ms. by apply trace_ext_prim.
  - intros p. by apply trace_ext_prim.
  - apply trace_ext_prim.
Qed.

End finalization.

(** C6 (the claim fails on the code). The start action creates the
    record at 0 and registers the capture three seconds later, once the
    process is seen alive. Finalized at 63.6 s, with the capture file
    missing, the record is committed as [failed] with its own
    [actual_start_time] 0 and [actual_end_time] 63600, and with
    [round(60.6 s in minutes, 1)], which is 1.0, as duration, where the
    claim's formula gives [round(63.6 s in minutes, 1)], which is 1.1.
    And when the process does not start, the start action commits the
    record as [failed], a terminal status, without any duration. *)
Lemma duration_is_measured_from_capture_start :
  let cfg := default_config false in
  let start_action :=
    _start_session_recording env_calm "st1" morning_session sample_key "rec-1" sample_path in
  let started := exec (start_action (Some {| pid := 4242 |})) idle_state in
  let later := exec (sleep 60600) started in
  let refused := exec (start_action None) idle_state in
  (∃ data rec',
     recording_processes started !! sample_key = Some data ∧
     rd_start_time data = 3000%Z ∧
     recordings (exec (_finalize_recording cfg env_calm data) later) !! "rec-1" = Some rec' ∧
     recording_status rec' = failed ∧
     error_message rec' = Some "Recording file not found" ∧
     actual_start_time rec' = Some 0%Z ∧
     actual_end_time rec' = Some 63600%Z ∧
     duration_minutes rec' = Some (py_round (total_minutes 60600) 1) ∧
     duration_minutes rec' ≠ Some (py_round (total_minutes (63600 - 0)) 1) ∧
     (exact_value (py_round (total_minutes 60600) 1) == 1)%Q ∧
     (exact_value (py_round (total_minutes (63600 - 0)) 1) == 11 # 10)%Q) ∧
  (∃ rec',
     recordings refused !! "rec-1" = Some rec' ∧
     recording_status rec' = failed ∧
     is_terminal (recording_status rec') = true ∧
     actual_end_time rec' = Some 0%Z ∧
     duration_minutes rec' = None ∧
     trace refused =
       [EvCommit "rec-1" recording; EvStatus "rec-1" failed; EvCommit "rec-1" failed]).
Proof.
  intros cfg start_action started later refused. split.
  - eexists _, _. split; [reflexivity|]. split; [reflexivity|].
    split; [reflexivity|]. repeat split; try reflexivity. discriminate.
  - eexists. split; [reflexivity|]. repeat split; reflexivity.
Qed.


(** ** ProcessHandle *)

Section process.
Context (cfg : Config) (env : Env).

(** The wait loop ends by itself before the fuel does: every round that
    goes on moves the clock 100 ms ahead. *)
Lemma cleanup_loop_enough_fuel fuel process start_time timeout s :
  (timeout - (clock s - start_time) ≤ (Z.of_nat fuel - 1) * 100)%Z →
  (1 ≤ fuel) →
  is_Some (eval (cleanup_loop cfg env fuel process start_time timeout) s).
Proof.
  revert s. induction fuel as [|fuel IH]; intros s Hbound Hpos; [lia|].
  cbn [cleanup_loop]. unfold eval, bind at 1, get at 1.
  destruct (Z.ltb_spec (clock s - start_time) timeout) as [Hlt|Hge];
    [|by eexists].
  unfold bind at 1, _is_process_running at 1, bind at 1, next_tick, ret at 1.
  destruct (process_alive env (pid process) (tick s)); simpl.
  - unfold bind at 1, sleep at 1. apply IH; simpl; lia.
  - unfold bind. destruct (is_windows cfg); by eexists.
Qed.

Lemma wait_for_process_cleanup_total process timeout s :
  is_Some (eval (cleanup_loop cfg env
                   (cleanup_fuel (default (process_cleanup_timeout cfg) timeout))
                   process (clock s)
                   (default (process_cleanup_timeout cfg) timeout)) s).
Proof.
  apply cleanup_loop_enough_fuel; unfold cleanup_fuel; [|lia].
  generalize (default (process_cleanup_timeout cfg) timeout). intros t.
  destruct (Z.le_gt_cases 0 t) as [Hnn|Hneg].
  - rewrite Nat2Z.inj_add, Z2Nat.id by (apply Z.div_pos; lia).
    pose proof (Z.mod_pos_bound t 100 ltac:(lia)).
    pose proof (Z.div_mod t 100 ltac:(lia)). lia.
  - lia.
Qed.

End process.

(** ** Stop action *)

Section stopping.
Context (cfg : Config) (env : Env).

Lemma finalized_record_frames data rec s :
  let s1 := exec (finalized_record cfg env data rec) s in
  same_tables s s1 ∧ same_recordings s s1 ∧ trace_ext is_capture_event s s1.
Proof.
  split; [|split].
  - apply respects_finalized_record; first [apply _|intros; apply same_tables_prim].
  - apply respects_finalized_record; first [apply _|intros; apply same_recordings_prim].
  - apply respects_finalized_record;
      first [apply _|apply trace_ext_prim|intros; by apply trace_ext_prim].
Qed.

Lemma stop_capture_process_frames process s :
  let s1 := exec (stop_capture_process cfg env process) s in
  same_tables s s1 ∧ same_recordings s s1 ∧ same_files s s1 ∧
  trace_ext is_capture_event s s1.
Proof.
  split; [|split; [|split]].
  - apply respects_stop_capture_process; first [apply _|intros; apply same_tables_prim].
  - apply respects_stop_capture_process; first [apply _|intros; apply same_recordings_prim].
  - apply respects_stop_capture_process; first [apply _|intros; apply same_files_prim].
  - apply respects_stop_capture_process;
      first [apply _|apply trace_ext_prim|intros; by apply trace_ext_prim].
Qed.

(** What one finalization does to the service state. *)
Lemma finalize_recording_effect data s :
  let id := rd_recording_id data in
  let s' := exec (_finalize_recording cfg env data) s in
  same_tables s s' ∧
  ∃ evs, trace s' = trace s ++ evs ∧ Forall is_capture_event evs ∧
    match recordings s !! id with
    | Some rec =>
        ∃ rec', recordings s' = <[id := rec']> (recordings s) ∧
                is_terminal (recording_status rec') = true ∧
                EvCommit id (recording_status rec') ∈ evs
    | None => recordings s' = recordings s
    end.
Proof.
  intros id s'. subst s'.
  destruct (recordings s !! id) as [rec|] eqn:Hrec.
  - rewrite (finalize_recording_found cfg env data rec s Hrec). cbv zeta.
    destruct (finalized_record_frames data rec s) as (Htab & Hrecs & (evs & Htr & Hev)).
    pose proof (finalized_record_shape cfg env data rec s) as (_ & _ & Hterm & _).
    unfold exec, eval, same_tables, same_recordings in *.
    destruct (finalized_record cfg env data rec s) as [rec' s1]. simpl in *.
    split; [done|].
    exists (evs ++ [EvCommit id (recording_status rec')]).
    split; [by rewrite Htr, app_assoc|]. split.
    + apply Forall_app. split; [done|]. by repeat constructor.
    + exists rec'. rewrite Hrecs. split; [done|]. split; [done|].
      apply elem_of_app. right. by apply list_elem_of_singleton.
  - unfold exec. rewrite (finalize_recording_missing cfg env data s Hrec). simpl.
    split; [done|]. exists []. by rewrite app_nil_r.
Qed.

Lemma stop_session_recording_absent key s :
  recording_processes s !! key = None →
  _stop_session_recording cfg env key s = (tt, s).
Proof.
  intros Hkey. unfold _stop_session_recording, bind, get. by rewrite Hkey.
Qed.

(** What stopping a registered capture does to the service state. *)
Lemma stop_session_recording_effect key data s :
  recording_processes s !! key = Some data →
  let id := rd_recording_id data in
  let s' := exec (_stop_session_recording cfg env key) s in
  recording_processes s' = delete key (recording_processes s) ∧
  station_tasks s' = station_tasks s ∧
  ∃ evs, trace s' = trace s ++ evs ++ [EvDeregister key] ∧
    Forall is_capture_event evs ∧
    match recordings s !! id with
    | Some rec =>
        ∃ rec', recordings s' = <[id := rec']> (recordings s) ∧
                is_terminal (recording_status rec') = true ∧
                EvCommit id (recording_status rec') ∈ evs
    | None => recordings s' = recordings s
    end.
Proof.
  intros Hkey id s'. subst s'. unfold exec.
  destruct (_stop_session_recording cfg env key s) as [[] s'] eqn:Hrun. simpl.
  unfold _stop_session_recording in Hrun. unfold bind at 1, get at 1 in Hrun.
  rewrite Hkey in Hrun. unfold bind at 1 in Hrun.
  destruct (stop_capture_process_frames (rd_process data) s)
    as ([Htasks1 Hprocs1] & Hrecs1 & _ & (evs1 & Htr1 & Hev1)).
  unfold exec, same_recordings in *.
  destruct (stop_capture_process cfg env (rd_process data) s) as [[] s1]. simpl in *.
  unfold bind at 1 in Hrun.
  destruct (finalize_recording_effect data s1) as ([Htasks2 Hprocs2] & evs2 & Htr2 & Hev2 & Hdb).
  unfold exec in *.
  destruct (_finalize_recording cfg env data s1) as [[] s2]. simpl in *.
  unfold deregister in Hrun. rewrite Hprocs2, Hprocs1, Hkey in Hrun.
  injection Hrun as <-. simpl.
  split; [done|]. split; [congruence|].
  exists (evs1 ++ evs2). split; [by rewrite Htr2, Htr1, <- !app_assoc|].
  split; [by apply Forall_app|].
  fold id in Hdb |- *. rewrite Hrecs1 in Hdb.
  destruct (recordings s !! id); [|done].
  destruct Hdb as (rec' & ? & ? & ?). exists rec'.
  split; [done|]. split; [done|]. apply elem_of_app. by right.
Qed.

(** C8: after the stop action has run for a key, the key is gone from
    the active-capture table, and running the stop action again for the
    same key returns at once: same state, no event, hence no second
    finalization. *)
Theorem stop_twice_is_noop key s :
  let s1 := exec (_stop_session_recording cfg env key) s in
  recording_processes s1 !! key = None ∧
  _stop_session_recording cfg env key s1 = (tt, s1).
Proof.
  intros s1.
  assert (recording_processes s1 !! key = None) as Hgone.
  { subst s1. destruct (recording_processes s !! key) as [data|] eqn:Hkey.
    - destruct (stop_session_recording_effect key data s Hkey) as (-> & _).
      apply lookup_delete_eq.
    - unfold exec. by rewrite stop_session_recording_absent. }
  split; [done|]. by apply stop_session_recording_absent.
Qed.

End stopping.

Ltac membership :=
  match goal with
  | H : _ ∉ _ :: _ |- _ =>
      exfalso; apply H; first [apply list_elem_of_here|by apply list_elem_of_further]
  | H : _ ∈ _ :: _ |- _ => apply elem_of_cons in H as [?|?]
  end.

(** ** Shutdown *)

Section shutdown.
Context (cfg : Config) (env : Env).

Lemma stop_session_recording_settle key s :
  recordings_settle s (exec (_stop_session_recording cfg env key) s).
Proof.
  destruct (recording_processes s !! key) as [data|] eqn:Hkey.
  - destruct (stop_session_recording_effect cfg env key data s Hkey)
      as (_ & _ & evs & _ & _ & Hdb).
    cbv zeta in Hdb. intros id r Hr.
    destruct (recordings s !! rd_recording_id data) as [rec|] eqn:Hrec.
    + destruct Hdb as (rec' & -> & Hterm & _).
      destruct (decide (id = rd_recording_id data)) as [->|Hne].
      * exists rec'. rewrite lookup_insert_eq. auto.
      * exists r. rewrite lookup_insert_ne by done. auto.
    + rewrite Hdb. eauto.
  - unfold exec. rewrite stop_session_recording_absent by done. reflexivity.
Qed.

Lemma for_each_cons {A} (x : A) (rest : list A) (body : A → M unit) s :
  exec (for_each (x :: rest) body) s = exec (for_each rest body) (exec (body x) s).
Proof. unfold exec. simpl. unfold bind. by destruct (body x s). Qed.

(** The first step of [stop]: every listed key is stopped, finalized and
    taken out of the table, and nothing else in the tables moves. *)
Lemma drain_effect keys s :
  let s' := exec (for_each keys (_stop_session_recording cfg env)) s in
  station_tasks s' = station_tasks s ∧
  (∀ k, recording_processes s' !! k =
          if decide (k ∈ keys) then None else recording_processes s !! k) ∧
  recordings_settle s s' ∧
  ∃ evs, trace s' = trace s ++ evs ∧ Forall is_capture_event evs ∧
    ∀ k data, k ∈ keys → recording_processes s !! k = Some data →
      EvDeregister k ∈ evs ∧
      ∀ rec, recordings s !! rd_recording_id data = Some rec →
        (∃ st, is_terminal st = true ∧ EvCommit (rd_recording_id data) st ∈ evs) ∧
        (∃ rec', recordings s' !! rd_recording_id data = Some rec' ∧
                 is_terminal (recording_status rec') = true).
Proof.
  revert s. induction keys as [|k0 keys IH]; intros s; cbv zeta.
  - split; [done|]. split; [done|]. split; [reflexivity|].
    exists []. split; [by rewrite app_nil_r|]. split; [done|].
    intros k data Hin. by apply elem_of_nil in Hin.
  - rewrite for_each_cons.
    pose proof (stop_session_recording_settle k0 s) as Hsettle0.
    set (s1 := exec (_stop_session_recording cfg env k0) s) in *.
    destruct (IH s1) as (Htasks & Hprocs & Hsettle & evs' & Htr & Hev & Hkeys).
    set (s' := exec (for_each keys (_stop_session_recording cfg env)) s1) in *.
    destruct (recording_processes s !! k0) as [data0|] eqn:Hk0.
    + destruct (stop_session_recording_effect cfg env k0 data0 s Hk0)
        as (Hprocs0 & Htasks0 & evs0 & Htr0 & Hev0 & Hdb0).
      fold s1 in Hprocs0, Htasks0, Htr0, Hdb0. cbv zeta in Hdb0.
      split; [congruence|]. split; [|split; [by etrans|]].
      { intros k. rewrite Hprocs, Hprocs0.
        destruct (decide (k = k0)) as [->|Hne]; repeat case_decide;
          rewrite ?lookup_delete_eq, ?lookup_delete_ne by done; try done;
          by membership. }
      exists (evs0 ++ [EvDeregister k0] ++ evs').
      split; [by rewrite Htr, Htr0, <- !app_assoc|]. split.
      { apply Forall_app. split; [done|]. apply Forall_app. split; [|done].
        by repeat constructor. }
      intros k data Hin Hk. destruct (decide (k = k0)) as [->|Hne].
      * assert (data = data0) as -> by congruence. split.
        { rewrite !elem_of_app. right. left. by apply list_elem_of_singleton. }
        intros rec Hrec. rewrite Hrec in Hdb0.
        destruct Hdb0 as (rec' & Hdb0 & Hterm & Hcommit). split.
        { eexists. split; [exact Hterm|]. apply elem_of_app. by left. }
        destruct (Hsettle (rd_recording_id data0) rec') as (rec'' & Hrec'' & Hterm'').
        { rewrite Hdb0. apply lookup_insert_eq. }
        eauto.
      * apply elem_of_cons in Hin as [?|Hin]; [done|].
        assert (recording_processes s1 !! k = Some data) as Hk1.
        { rewrite Hprocs0. by rewrite lookup_delete_ne. }
        destruct (Hkeys k data Hin Hk1) as [Hder Hrecs]. split.
        { rewrite !elem_of_app. by right; right. }
        intros rec Hrec.
        destruct (Hsettle0 _ _ Hrec) as (rec1 & Hrec1 & _).
        destruct (Hrecs rec1 Hrec1) as [(st & Hst & Hcommit) Hfinal].
        split; [|done]. exists st. split; [done|].
        rewrite !elem_of_app. by right; right.
    + assert (s1 = s) as Heq.
      { unfold s1, exec. by rewrite stop_session_recording_absent. }
      rewrite Heq in *. split; [done|]. split; [|split; [done|]].
      { intros k. rewrite Hprocs.
        destruct (decide (k = k0)) as [->|Hne]; repeat case_decide;
          try done; by membership. }
      exists evs'. split; [done|]. split; [done|].
      intros k data Hin Hk. apply elem_of_cons in Hin as [->|Hin]; [congruence|].
      by apply Hkeys.
Qed.

(** With no capture left, cancelling a station task has nothing to save. *)
Lemma cancel_task_idle entry s :
  recording_processes s = ∅ →
  ∃ n, cancel_task cfg env entry s =
         (tt, set_tick n (set_trace (trace s ++ [EvCancel entry.1]) s)).
Proof.
  intros Hidle. unfold cancel_task, bind, emit, next_tick. simpl.
  destruct entry.2.
  - exists (S (tick s)). destruct (cancel_handled env entry.1 _); [|done].
    unfold _save_station_recordings_on_shutdown, bind, get. simpl.
    by rewrite Hidle, dom_empty_L, elements_empty.
  - exists (tick s). unfold ret. by destruct s.
Qed.

Lemma cancel_all_idle entries s :
  recording_processes s = ∅ →
  ∃ n, for_each entries (cancel_task cfg env) s =
         (tt, set_tick n (set_trace (trace s ++ map (λ e, EvCancel e.1) entries) s)).
Proof.
  revert s. induction entries as [|entry entries IH]; intros s Hidle; simpl.
  - exists (tick s). rewrite app_nil_r. by destruct s.
  - unfold bind. destruct (cancel_task_idle entry s Hidle) as [n ->].
    match goal with
    | |- context [for_each entries _ ?s1] =>
        destruct (IH s1) as [n' ->]; [done|]
    end.
    exists n'. simpl. unfold set_tick, set_trace. simpl.
    by rewrite <- app_assoc.
Qed.

(** C1: [stop] first runs the stop action, finalization included, for
    every key of the active-capture table, and only then cancels station
    tasks: in the trace, the events of the first step, without any
    cancellation among them, come before the cancellations, they hold the
    removal of every such key and the commit of its record in a terminal
    status, and the record is terminal at the end. Afterwards both tables
    are empty. *)
Theorem shutdown_drains_before_cancelling s :
  let s' := exec (stop cfg env) s in
  station_tasks s' = ∅ ∧
  recording_processes s' = ∅ ∧
  ∃ drained,
    trace s' = trace s ++ drained ++
               map (λ entry, EvCancel entry.1) (map_to_list (station_tasks s)) ∧
    Forall is_capture_event drained ∧
    ∀ key data, recording_processes s !! key = Some data →
      EvDeregister key ∈ drained ∧
      ∀ rec, recordings s !! rd_recording_id data = Some rec →
        (∃ st, is_terminal st = true ∧ EvCommit (rd_recording_id data) st ∈ drained) ∧
        (∃ rec', recordings s' !! rd_recording_id data = Some rec' ∧
                 is_terminal (recording_status rec') = true).
Proof.
  intros s'. subst s'. unfold exec.
  destruct (stop cfg env s) as [[] s'] eqn:Hrun. simpl.
  unfold stop in Hrun. unfold bind at 1, get at 1 in Hrun. unfold bind at 1 in Hrun.
  destruct (drain_effect (elements (dom (recording_processes s))) s)
    as (Htasks & Hprocs & _ & drained & Htr & Hev & Hkeys).
  unfold exec in *.
  destruct (for_each (elements (dom (recording_processes s)))
              (_stop_session_recording cfg env) s) as [[] s1].
  simpl in *.
  assert (recording_processes s1 = ∅) as Hidle.
  { apply map_eq. intros k. rewrite Hprocs, lookup_empty.
    case_decide as Hin; [done|].
    apply not_elem_of_dom. by rewrite <- elem_of_elements. }
  unfold bind at 1, get at 1 in Hrun. unfold bind in Hrun.
  destruct (cancel_all_idle (map_to_list (station_tasks s1)) s1 Hidle) as [n Hcancel].
  rewrite Hcancel in Hrun.
  unfold clear_tracking in Hrun. injection Hrun as <-. simpl.
  split; [done|]. split; [done|].
  exists drained. rewrite Htasks, Htr, <- app_assoc. split; [done|]. split; [done|].
  intros key data Hkey. apply Hkeys; [|done].
  apply elem_of_elements, elem_of_dom. eauto.
Qed.

End shutdown.

Lemma shutdown_drains_before_cancelling_witness :
  let s := sample_state (Some sample_audio) in
  let s' := exec (stop (default_config false) env_calm) s in
  station_tasks s' = ∅ ∧ recording_processes s' = ∅ ∧
  trace s' =
    [EvSignal 4242 SIGTERM;
     EvUpload "capital_news_20250106_0900_090003_ab12cd34.mp3";
     EvStatus "rec-1" completed;
     EvRemove sample_path;
     EvCommit "rec-1" completed;
     EvDeregister sample_key;
     EvCancel "st1"] ∧
  ∃ rec', recordings s' !! "rec-1" = Some rec' ∧
          is_terminal (recording_status rec') = true.
Proof.
  intros s s'.
  destruct (shutdown_drains_before_cancelling (default_config false) env_calm s)
    as (Htasks & Hprocs & drained & Htr & Hev & Hkeys).
  destruct (Hkeys sample_key sample_data) as [_ Hrec]; [reflexivity|].
  destruct (Hrec sample_record) as [_ Hfinal]; [reflexivity|].
  split; [exact Htasks|]. split; [exact Hprocs|].
  split; [reflexivity|exact Hfinal].
Defined.

Lemma stop_twice_is_noop_witness :
  let stop_capture := _stop_session_recording (default_config false) env_calm sample_key in
  let s1 := exec stop_capture (sample_state (Some sample_audio)) in
  recording_status <$> recordings s1 !! "rec-1" = Some completed ∧
  recording_processes s1 !! sample_key = None ∧
  stop_capture s1 = (tt, s1).
Proof.
  intros stop_capture s1. split; [reflexivity|].
  exact (stop_twice_is_noop (default_config false) env_calm sample_key
           (sample_state (Some sample_audio))).
Defined.

(** ** Preflight validation *)

Lemma Qlt_bool_iff x y : Qlt_bool x y = true ↔ (x < y)%Q.
Proof.
  unfold Qlt_bool. rewrite negb_true_iff. split.
  - intros H. apply Qnot_le_lt. intros Hle.
    apply Qle_bool_iff in Hle. congruence.
  - intros H. destruct (Qle_bool y x) eqn:Hle; [|done].
    apply Qle_bool_iff in Hle. by apply Qlt_not_le in H.
Qed.

(** The errors of the report, check by check. *)
Lemma validate_system_errors min_disk_gb p :
  errors (validate_system min_disk_gb p) =
    (match _validate_ffmpeg (platform p) (which_ffmpeg p) (ffmpeg_runs p) with
     | (false, reason, _) => [FFmpegValidationFailed reason]
     | (true, _, _) => []
     end) ++
    (if storage_success (_validate_storage_os_specific p) then []
     else [StorageValidationFailed (storage_error (_validate_storage_os_specific p))]) ++
    (match _validate_database p with
     | (false, reason) => [DatabaseValidationFailed reason]
     | (true, _) => []
     end) ++
    (if permissions_success (_validate_file_permissions_os_specific p) then []
     else [FilePermissionsValidationFailed
             (permissions_error (_validate_file_permissions_os_specific p))]) ++
    (match cpu_count (_check_system_resources_os_specific p) with
     | None => [ValidationException
                  "'<' not supported between instances of 'NoneType' and 'int'"]
     | Some _ => []
     end).
Proof.
  unfold validate_system.
  destruct (_validate_ffmpeg (platform p) (which_ffmpeg p) (ffmpeg_runs p)) as [[[] ?] ?];
    destruct (ffmpeg_os_checks p);
    destruct (storage_success (_validate_storage_os_specific p));
    destruct (_validate_database p) as [[] ?];
    destruct (permissions_success (_validate_file_permissions_os_specific p));
    destruct (cpu_count (_check_system_resources_os_specific p));
    destruct (network p) as [[] ?];
    simpl; rewrite ?app_nil_r; reflexivity.
Qed.

Lemma validate_system_valid_iff min_disk_gb p :
  is_valid (validate_system min_disk_gb p) = true ↔
  errors (validate_system min_disk_gb p) = [].
Proof.
  unfold validate_system.
  destruct (_validate_ffmpeg (platform p) (which_ffmpeg p) (ffmpeg_runs p)) as [[[] ?] ?];
    destruct (ffmpeg_os_checks p);
    destruct (storage_success (_validate_storage_os_specific p));
    destruct (_validate_database p) as [[] ?];
    destruct (permissions_success (_validate_file_permissions_os_specific p));
    destruct (cpu_count (_check_system_resources_os_specific p));
    destruct (network p) as [[] ?];
    simpl; split; intros H; try done; by destruct (app_eq_nil _ _ H).
Qed.

Lemma validate_system_invalid min_disk_gb p m :
  m ∈ errors (validate_system min_disk_gb p) →
  is_valid (validate_system min_disk_gb p) = false.
Proof.
  intros Hin. destruct (is_valid _) eqn:Hv; [|done].
  apply validate_system_valid_iff in Hv. rewrite Hv in Hin.
  by apply elem_of_nil in Hin.
Qed.

Lemma low_disk_space_warning min_disk_gb p free total :
  disk_usage p = inl (free, total) →
  (gigabytes free < min_disk_gb)%Q →
  LowDiskSpace (gigabytes free) min_disk_gb ∈ warnings (validate_system min_disk_gb p).
Proof.
  intros Hdisk Hlow. apply Qlt_bool_iff in Hlow.
  unfold validate_system, _validate_storage_os_specific. rewrite Hdisk.
  destruct (_validate_ffmpeg (platform p) (which_ffmpeg p) (ffmpeg_runs p)) as [[[] ?] ?];
    destruct (ffmpeg_os_checks p);
    destruct (total =? 0)%N;
    destruct (_validate_database p) as [[] ?];
    destruct (permissions_success (_validate_file_permissions_os_specific p));
    destruct (cpu_count (_check_system_resources_os_specific p));
    destruct (network p) as [[] ?];
    simpl; rewrite Hlow; rewrite !elem_of_app, ?elem_of_cons; tauto.
Qed.

Lemma low_memory_warning min_disk_gb p memory_total cpus found :
  resources p = ResourcesRead memory_total cpus found →
  (gigabytes memory_total < 1)%Q →
  LowMemory (gigabytes memory_total) ∈ warnings (validate_system min_disk_gb p).
Proof.
  intros Hres Hlow. apply Qlt_bool_iff in Hlow.
  unfold validate_system, _check_system_resources_os_specific. rewrite Hres.
  destruct (_validate_ffmpeg (platform p) (which_ffmpeg p) (ffmpeg_runs p)) as [[[] ?] ?];
    destruct (ffmpeg_os_checks p);
    destruct (storage_success (_validate_storage_os_specific p));
    destruct (_validate_database p) as [[] ?];
    destruct (permissions_success (_validate_file_permissions_os_specific p));
    destruct cpus;
    destruct (network p) as [[] ?];
    simpl; rewrite Hlow; rewrite !elem_of_app, ?elem_of_cons; tauto.
Qed.

(** The amount of free disk space and of memory never changes the errors
    of the report. *)
Lemma validate_system_errors_sizes min_disk_gb p free memory_total :
  errors (validate_system min_disk_gb (with_memory_bytes memory_total (with_free_bytes free p))) =
  errors (validate_system min_disk_gb p).
Proof.
  rewrite !validate_system_errors.
  unfold _validate_storage_os_specific, _validate_database,
    _validate_file_permissions_os_specific, _check_system_resources_os_specific.
  simpl.
  destruct (disk_usage p) as [[free0 total]|e]; destruct (resources p); simpl;
    try destruct (total =? 0)%N; reflexivity.
Qed.

(** ** Orchestrator startup *)

Global Instance same_tasks_preorder : PreOrder same_tasks.
Proof. split; [done|]. intros s1 s2 s3 H1 H2. unfold same_tasks in *. congruence. Qed.

Global Instance same_validated_preorder : PreOrder same_validated.
Proof. split; [done|]. intros s1 s2 s3 H1 H2. unfold same_validated in *. congruence. Qed.

Section startup_facts.
Context (cfg : Config) (env : Env).

Lemma stop_session_recording_tasks key :
  respects same_tasks (_stop_session_recording cfg env key).
Proof.
  intros s. destruct (recording_processes s !! key) as [data|] eqn:Hkey.
  - by destruct (stop_session_recording_effect cfg env key data s Hkey) as (_ & ? & _).
  - unfold exec. by rewrite stop_session_recording_absent.
Qed.

Lemma cancel_task_tasks entry : respects same_tasks (cancel_task cfg env entry).
Proof.
  unfold cancel_task. r_bind; [done|intros _].
  destruct entry.2; [|r_ret].
  r_bind; [done|intros t]. destruct (cancel_handled env entry.1 t); [|r_ret].
  unfold _save_station_recordings_on_shutdown. r_bind; [r_get|intros table].
  apply respects_for_each; [apply _|]. apply stop_session_recording_tasks.
Qed.

Lemma start_station_task_effect sid s :
  station_tasks (exec (_start_station_task cfg env sid) s) =
    <[sid := TaskRunning]> (station_tasks s).
Proof.
  unfold _start_station_task, exec. unfold bind at 1, get at 1. unfold bind.
  destruct (station_tasks s !! sid) as [old_task|].
  - pose proof (cancel_task_tasks (sid, old_task) s) as Hsame.
    unfold exec, same_tasks in Hsame.
    destruct (cancel_task cfg env (sid, old_task) s) as [[] s1]. simpl in *.
    by rewrite Hsame.
  - done.
Qed.

Lemma start_registers stations sid s :
  station_tasks (exec (start cfg env stations) s) !! sid =
    if decide (sid ∈ stations) then Some TaskRunning else station_tasks s !! sid.
Proof.
  unfold start. revert s. induction stations as [|x stations IH]; intros s.
  - done.
  - rewrite for_each_cons, IH, start_station_task_effect.
    destruct (decide (sid = x)) as [->|Hne]; repeat case_decide;
      rewrite ?lookup_insert_eq, ?lookup_insert_ne by done; try done; by membership.
Qed.

Lemma same_validated_prim :
  respects same_validated next_tick ∧
  (∀ ms, respects same_validated (sleep ms)) ∧
  (∀ e, respects same_validated (emit e)) ∧
  (∀ path (a : bool * string),
     respects same_validated (λ s, (a, set_files (delete path (files s)) s))) ∧
  (∀ path content, respects same_validated (write_file path content)) ∧
  (∀ residue, respects same_validated (leave_residue residue)) ∧
  (∀ id rec, respects same_validated (db_commit id rec)) ∧
  (∀ key, respects same_validated (deregister key)).
Proof.
  repeat split.
  - intros residue s. by destruct residue as [[? []]|].
  - intros key s. unfold same_validated, exec, deregister.
    by destruct (recording_processes s !! key).
Qed.

Lemma start_validated stations : respects same_validated (start cfg env stations).
Proof.
  unfold start. apply respects_for_each; [apply _|]. intros sid.
  unfold _start_station_task. r_bind; [r_get|intros tasks].
  r_bind; [|by intros _ s].
  destruct (tasks !! sid); [|r_ret].
  apply respects_cancel_task; first [apply _|intros; apply same_validated_prim].
Qed.

(** C9: a missing FFmpeg, a recording directory that cannot be created
    or written, and an unreachable database each put an error in the
    report, which makes it invalid, and [validate_and_start] then raises
    [SystemExit] without touching the service; the amounts of free disk
    space and of memory never change the errors nor the verdict, a low
    amount only adds its warning; and with a valid report the service is
    marked validated and a task runs for every active station. *)
Theorem preflight_hard_and_soft_failures p stations s :
  let report := validate_system min_disk_gb_default p in
  let aborted :=
    is_valid report = false ∧
    validate_and_start cfg env p stations s =
      (SystemExit "System validation failed - see report above", s) in
  (which_ffmpeg p = None →
     (∃ reason, FFmpegValidationFailed reason ∈ errors report) ∧ aborted) ∧
  (∀ e, disk_usage p = inr e →
     StorageValidationFailed e ∈ errors report ∧ aborted) ∧
  (∀ e, write_test_error p = Some e →
     FilePermissionsValidationFailed ("File permission test failed: " +:+ e) ∈ errors report ∧
     aborted) ∧
  (∀ e, database p = DbConnectFailed e →
     DatabaseValidationFailed ("Database connection failed: " +:+ e) ∈ errors report ∧
     aborted) ∧
  (∀ free memory_total,
     let report' :=
       validate_system min_disk_gb_default
         (with_memory_bytes memory_total (with_free_bytes free p)) in
     errors report' = errors report ∧ is_valid report' = is_valid report) ∧
  (∀ free total, disk_usage p = inl (free, total) →
     (gigabytes free < min_disk_gb_default)%Q →
     LowDiskSpace (gigabytes free) min_disk_gb_default ∈ warnings report) ∧
  (∀ memory_total cpus found, resources p = ResourcesRead memory_total cpus found →
     (gigabytes memory_total < 1)%Q →
     LowMemory (gigabytes memory_total) ∈ warnings report) ∧
  (is_valid report = true →
     let run := validate_and_start cfg env p stations in
     eval run s = Started ∧
     _is_validated (exec run s) = true ∧
     ∀ sid, sid ∈ stations → station_tasks (exec run s) !! sid = Some TaskRunning).
Proof.
  intros report aborted. subst aborted report.
  assert (Habort : ∀ m, m ∈ errors (validate_system min_disk_gb_default p) →
            is_valid (validate_system min_disk_gb_default p) = false ∧
            validate_and_start cfg env p stations s =
              (SystemExit "System validation failed - see report above", s)).
  { intros m Hm. apply validate_system_invalid in Hm. split; [done|].
    unfold validate_and_start. by rewrite Hm. }
  pose proof (validate_system_errors min_disk_gb_default p) as Herr.
  split; [|split; [|split; [|split; [|split; [|split; [|split]]]]]].
  - intros Hwhich.
    assert (FFmpegValidationFailed
              (_validate_ffmpeg (platform p) None (ffmpeg_runs p)).1.2
              ∈ errors (validate_system min_disk_gb_default p)) as Hin.
    { rewrite Herr, Hwhich. simpl. rewrite ?elem_of_app, ?elem_of_cons. auto 10. }
    split; [by eexists|by eapply Habort].
  - intros e Hdisk.
    assert (StorageValidationFailed e ∈ errors (validate_system min_disk_gb_default p))
      as Hin.
    { rewrite Herr. unfold _validate_storage_os_specific. rewrite Hdisk. simpl.
      rewrite ?elem_of_app, ?elem_of_cons. auto 10. }
    split; [done|by eapply Habort].
  - intros e Hwrite.
    assert (FilePermissionsValidationFailed ("File permission test failed: " +:+ e)
              ∈ errors (validate_system min_disk_gb_default p)) as Hin.
    { rewrite Herr. unfold _validate_file_permissions_os_specific. rewrite Hwrite. simpl.
      rewrite ?elem_of_app, ?elem_of_cons. auto 10. }
    split; [done|by eapply Habort].
  - intros e Hdb.
    assert (DatabaseValidationFailed ("Database connection failed: " +:+ e)
              ∈ errors (validate_system min_disk_gb_default p)) as Hin.
    { rewrite Herr. unfold _validate_database. rewrite Hdb. simpl.
      rewrite ?elem_of_app, ?elem_of_cons. auto 10. }
    split; [done|by eapply Habort].
  - intros free memory_total. cbv zeta.
    pose proof (validate_system_errors_sizes min_disk_gb_default p free memory_total) as He.
    split; [done|].
    pose proof (validate_system_valid_iff min_disk_gb_default p) as Hv.
    pose proof (validate_system_valid_iff min_disk_gb_default
                  (with_memory_bytes memory_total (with_free_bytes free p))) as Hv'.
    rewrite He in Hv'.
    apply eq_true_iff_eq. by rewrite Hv', Hv.
  - intros free total Hdisk Hlow. by eapply low_disk_space_warning.
  - intros memory_total cpus found Hres Hlow. by eapply low_memory_warning.
  - intros Hvalid run. subst run.
    assert (validate_and_start cfg env p stations s =
              (Started, exec (start cfg env stations) (set_is_validated true s))) as Hrun.
    { unfold validate_and_start, exec. rewrite Hvalid. simpl. unfold bind.
      by destruct (start cfg env stations (set_is_validated true s)). }
    unfold eval, exec at 1 2. rewrite Hrun. simpl. split; [done|]. split.
    + by rewrite (start_validated stations (set_is_validated true s)).
    + intros sid Hin. rewrite start_registers. by rewrite decide_True.
Qed.

End startup_facts.

Lemma preflight_hard_and_soft_failures_witness :
  let cfg := default_config false in
  (is_valid (validate_system min_disk_gb_default probes_no_ffmpeg) = false ∧
   validate_and_start cfg env_calm probes_no_ffmpeg ["st1"; "st2"] idle_state =
     (SystemExit "System validation failed - see report above", idle_state)) ∧
  (LowDiskSpace (gigabytes (2 * 1024 ^ 3)) min_disk_gb_default
     ∈ warnings (validate_system min_disk_gb_default probes_low_resources) ∧
   LowMemory (gigabytes (512 * 1024 ^ 2))
     ∈ warnings (validate_system min_disk_gb_default probes_low_resources) ∧
   eval (validate_and_start cfg env_calm probes_low_resources ["st1"; "st2"]) idle_state
     = Started ∧
   station_tasks
     (exec (validate_and_start cfg env_calm probes_low_resources ["st1"; "st2"]) idle_state)
     !! "st2" = Some TaskRunning).
Proof.
  intros cfg. split.
  - destruct (preflight_hard_and_soft_failures cfg env_calm probes_no_ffmpeg
                ["st1"; "st2"] idle_state) as (Hffmpeg & _).
    destruct (Hffmpeg eq_refl) as [_ Haborted]. exact Haborted.
  - destruct (preflight_hard_and_soft_failures cfg env_calm probes_low_resources
                ["st1"; "st2"] idle_state)
      as (_ & _ & _ & _ & _ & Hdisk & Hmemory & Hstart).
    split; [apply (Hdisk _ (500 * 1024 ^ 3)%N); reflexivity|].
    split; [apply (Hmemory _ (Some 4%Z) no_findings); reflexivity|].
    destruct Hstart as (Hstarted & _ & Htasks); [reflexivity|].
    split; [exact Hstarted|]. apply Htasks.
    apply list_elem_of_further, list_elem_of_here.
Defined.

(* ===================================================================== *)
(** * Further properties of the code *)
(* ===================================================================== *)

(** ** The schedule predicates, seen from the station loop

    The loop asks [_should_start_recording] and [_should_stop_recording]
    only about the session [_get_current_session] has just returned. *)

Lemma current_session_matches sch now s :
  _get_current_session (Some sch) now = Some s →
  session_matches (current_seconds now) s = true ∧
  ∃ day_sessions, sessions sch !! day_name (weekday now) = Some day_sessions ∧
                  s ∈ day_sessions.
Proof.
  unfold _get_current_session.
  destruct (decide (sessions sch = ∅)); [done|].
  destruct (sessions sch !! day_name (weekday now)) as [ds|]; [|done].
  intros (before & after & -> & _ & Hm)%scan_sessions_first.
  split; [done|]. exists (before ++ s :: after). split; [done|].
  apply elem_of_app. right. apply list_elem_of_here.
Qed.

Lemma truthy_session_get (session : Session) k d :
  truthy (session_get session k) = true →
  session_get_or session k d = session_get session k.
Proof.
  unfold session_get, session_get_or. by destruct (session !! k).
Qed.

(** X1: for the session the resolver reports as current, the start test
    always answers yes: in the loop only the absence of the key from the
    active-capture table decides whether a capture is started. *)
Theorem current_session_is_due_to_start sch now s :
  _get_current_session (Some sch) now = Some s →
  _should_start_recording s now = true.
Proof.
  intros [Hm _]%current_session_matches.
  apply session_matches_spec in Hm as (Hstart & _ & Hle & _).
  unfold _should_start_recording. rewrite truthy_session_get by done.
  by apply Z.leb_le.
Qed.

Lemma current_session_is_due_to_start_witness :
  _should_start_recording morning_session (at_time Monday 9 30 0) = true.
Proof.
  apply (current_session_is_due_to_start morning_schedule). vm_compute. reflexivity.
Defined.

(** X2: for a current session that ends after it starts, the stop test
    answers yes only when the clock reading is the end second itself:
    one second later the session is no longer current. *)
Theorem stop_fires_only_at_end_second sch now s :
  _get_current_session (Some sch) now = Some s →
  (_time_to_seconds (session_get s "start_time")
     < _time_to_seconds (session_get s "end_time"))%Z →
  _should_stop_recording s now = true →
  current_seconds now = _time_to_seconds (session_get s "end_time").
Proof.
  intros [Hm _]%current_session_matches Hlt Hstop.
  apply session_matches_spec in Hm as (_ & Hend & _ & Hle).
  unfold _should_stop_recording in Hstop.
  rewrite truthy_session_get in Hstop by done.
  apply Z.leb_le in Hstop. cbv zeta in Hle.
  rewrite decide_False in Hle by lia. lia.
Qed.

Lemma stop_fires_only_at_end_second_witness :
  current_seconds (at_time Monday 10 0 0) =
    _time_to_seconds (session_get morning_session "end_time").
Proof.
  apply (stop_fires_only_at_end_second morning_schedule).
  - vm_compute. reflexivity.
  - vm_compute. reflexivity.
  - vm_compute. reflexivity.
Defined.

(** X3: a current session whose end is not after its start (it crosses
    midnight) is due to stop at every clock reading at which it is
    current. *)
Theorem overnight_session_always_due_to_stop sch now s :
  _get_current_session (Some sch) now = Some s →
  (_time_to_seconds (session_get s "end_time")
     ≤ _time_to_seconds (session_get s "start_time"))%Z →
  _should_stop_recording s now = true.
Proof.
  intros [Hm _]%current_session_matches Hle.
  apply session_matches_spec in Hm as (_ & Hend & Hstart & _).
  unfold _should_stop_recording. rewrite truthy_session_get by done.
  apply Z.leb_le. lia.
Qed.

Lemma overnight_session_always_due_to_stop_witness :
  _should_stop_recording overnight_session (at_time Monday 23 31 0) = true.
Proof.
  apply (overnight_session_always_due_to_stop overnight_schedule).
  - vm_compute. reflexivity.
  - vm_compute. intros H. discriminate H.
Defined.

(** ** RetryingFileOps: what a result means *)

Section file_results.
Context (cfg : Config) (env : Env).

Lemma retry_delay_bounds base attempt :
  (0 ≤ base)%Z → (0 ≤ max_retry_delay cfg)%Z →
  (0 ≤ retry_delay cfg base attempt ≤ max_retry_delay cfg)%Z.
Proof.
  intros Hb Hm. unfold retry_delay. split; [|apply Z.le_min_r].
  apply Z.min_glb; [|done]. apply Z.mul_nonneg_nonneg; [done|].
  apply Z.pow_nonneg. lia.
Qed.

Lemma is_file_locked_frame path s :
  ∃ b s', _is_file_locked env path s = (b, s') ∧
          files s' = files s ∧ clock s' = clock s.
Proof.
  unfold _is_file_locked, bind, path_exists, get, next_tick, ret.
  destruct (bool_decide _); eauto.
Qed.

Lemma unlock_loop_bounds path base n attempt s :
  ∃ b s', unlock_loop cfg env path base n attempt s = (b, s') ∧
    files s' = files s ∧
    ((0 ≤ base)%Z → (0 ≤ max_retry_delay cfg)%Z →
     (clock s ≤ clock s' ≤ clock s + Z.of_nat n * max_retry_delay cfg)%Z).
Proof.
  revert attempt s. induction n as [|n IH]; intros attempt s.
  - exists false, s. split; [done|]. split; [done|]. lia.
  - cbn [unlock_loop]. unfold bind at 1.
    destruct (is_file_locked_frame path s) as (locked & s1 & -> & Hf1 & Hc1).
    destruct locked; simpl.
    + unfold bind at 1, sleep at 1.
      destruct (IH (S attempt)
                  (set_trace (trace s1 ++ [EvSleep (retry_delay cfg base attempt)])
                     (set_clock (clock s1 + retry_delay cfg base attempt)%Z s1)))
        as (b & s' & -> & Hf & Hc).
      exists b, s'. split; [done|]. simpl in *. split; [congruence|].
      intros Hb Hm. specialize (Hc Hb Hm).
      pose proof (retry_delay_bounds base attempt Hb Hm). lia.
    + exists true, s1. split; [done|]. split; [done|]. lia.
Qed.

Lemma wait_for_file_unlock_bounds path max_retries base s :
  ∃ b s', _wait_for_file_unlock cfg env path max_retries base s = (b, s') ∧
    files s' = files s ∧
    ((0 ≤ default (base_retry_delay cfg) base)%Z → (0 ≤ max_retry_delay cfg)%Z →
     (clock s ≤ clock s' ≤
        clock s + Z.of_nat (default (max_file_access_retries cfg) max_retries) *
                  max_retry_delay cfg)%Z).
Proof.
  unfold _wait_for_file_unlock. cbv zeta. unfold bind, path_exists, get.
  destruct (bool_decide _); simpl.
  - apply unlock_loop_bounds.
  - exists false, s. split; [done|]. split; [done|]. lia.
Qed.

Lemma read_loop_result path n attempt s :
  ∃ ok content msg s', read_loop cfg env path n attempt s = (ok, content, msg, s') ∧
    files s' = files s ∧
    (ok = true → content = files s !! path ∧ is_Some content) ∧
    (ok = false → content = None) ∧
    ((0 ≤ base_retry_delay cfg)%Z → (0 ≤ max_retry_delay cfg)%Z →
     (clock s ≤ clock s' ≤ clock s + Z.of_nat n * max_retry_delay cfg)%Z).
Proof.
  revert attempt s. induction n as [|n IH]; intros attempt s.
  - eexists false, None, _, s. split; [reflexivity|]. repeat split; try done; lia.
  - cbn [read_loop]. unfold bind at 1, next_tick at 1. unfold bind at 1, get at 1.
    simpl.
    assert (Hretry :
      ∃ ok content msg s',
        (let* _ := sleep (retry_delay cfg (base_retry_delay cfg) attempt) in
         read_loop cfg env path n (S attempt)) (set_tick (S (tick s)) s)
          = (ok, content, msg, s') ∧
        files s' = files s ∧
        (ok = true → content = files s !! path ∧ is_Some content) ∧
        (ok = false → content = None) ∧
        ((0 ≤ base_retry_delay cfg)%Z → (0 ≤ max_retry_delay cfg)%Z →
         (clock s ≤ clock s' ≤ clock s + Z.of_nat (S n) * max_retry_delay cfg)%Z)).
    { unfold bind, sleep.
      match goal with
      | |- context [read_loop cfg env path n (S attempt) ?s2] =>
          destruct (IH (S attempt) s2) as (ok & c & msg & s' & -> & Hf & Hok & Hno & Hc)
      end.
      exists ok, c, msg, s'. split; [done|]. simpl in *.
      split; [done|]. split; [done|]. split; [done|].
      intros Hb Hm. specialize (Hc Hb Hm).
      pose proof (retry_delay_bounds (base_retry_delay cfg) attempt Hb Hm). lia. }
    destruct (open_outcome env path (tick s)) as [|e|e];
      destruct (files s !! path) as [content|] eqn:Hfile; try exact Hretry.
    + eexists true, (Some content), _, _. split; [reflexivity|]. simpl.
      repeat split; try done; eauto; lia.
    + eexists false, None, _, _. split; [reflexivity|]. simpl.
      repeat split; try done; lia.
    + eexists false, None, _, _. split; [reflexivity|]. simpl.
      repeat split; try done; lia.
Qed.

Lemma delete_loop_result path n attempt s :
  ∃ ok msg s', delete_loop cfg env path n attempt s = (ok, msg, s') ∧
    (ok = true → files s' = delete path (files s)) ∧
    (ok = false → files s' = files s) ∧
    ((0 ≤ base_retry_delay cfg)%Z → (0 ≤ max_retry_delay cfg)%Z →
     (clock s ≤ clock s' ≤ clock s + Z.of_nat n * max_retry_delay cfg)%Z).
Proof.
  revert attempt s. induction n as [|n IH]; intros attempt s.
  - eexists false, _, s. split; [reflexivity|]. repeat split; try done; lia.
  - cbn [delete_loop]. unfold bind at 1, emit at 1.
    unfold bind at 1, next_tick at 1. unfold bind at 1, get at 1. simpl.
    assert (Hretry :
      ∃ ok msg s',
        (let* _ := sleep (retry_delay cfg (base_retry_delay cfg) attempt) in
         delete_loop cfg env path n (S attempt))
          (set_tick (S (tick s)) (set_trace (trace s ++ [EvRemove path]) s))
          = (ok, msg, s') ∧
        (ok = true → files s' = delete path (files s)) ∧
        (ok = false → files s' = files s) ∧
        ((0 ≤ base_retry_delay cfg)%Z → (0 ≤ max_retry_delay cfg)%Z →
         (clock s ≤ clock s' ≤ clock s + Z.of_nat (S n) * max_retry_delay cfg)%Z)).
    { unfold bind, sleep.
      match goal with
      | |- context [delete_loop cfg env path n (S attempt) ?s2] =>
          destruct (IH (S attempt) s2) as (ok & msg & s' & -> & Hok & Hno & Hc)
      end.
      exists ok, msg, s'. split; [done|]. simpl in *.
      split; [done|]. split; [done|].
      intros Hb Hm. specialize (Hc Hb Hm).
      pose proof (retry_delay_bounds (base_retry_delay cfg) attempt Hb Hm). lia. }
    destruct (remove_outcome env path (tick s)) as [|e|e];
      destruct (files s !! path) as [content|] eqn:Hfile; try exact Hretry.
    + eexists true, _, _. split; [reflexivity|]. simpl.
      repeat split; try done; lia.
    + eexists false, _, _. split; [reflexivity|]. simpl.
      repeat split; try done; lia.
    + eexists false, _, _. split; [reflexivity|]. simpl.
      repeat split; try done; lia.
Qed.

End file_results.

Section file_theorems.
Context (cfg : Config) (env : Env).

Lemma getsize_frame path s :
  ∃ r s', getsize env path s = (r, s') ∧ files s' = files s ∧ clock s' = clock s ∧
    ∀ n, r = inl n → ∃ content, files s !! path = Some content ∧ n = length content.
Proof.
  unfold getsize, bind, next_tick, get, ret. simpl.
  destruct (getsize_error env path (tick s)); [|destruct (files s !! path) eqn:Hfile];
    eexists _, _; (split; [reflexivity|]); simpl; repeat split; try done.
  intros n [= <-]. eauto.
Qed.

Lemma safe_file_read_cases path s :
  ∃ ok content msg s', _safe_file_read cfg env path s = (ok, content, msg, s') ∧
    files s' = files s ∧
    (ok = true → ∃ c, content = Some c ∧ files s !! path = Some c ∧ c ≠ []) ∧
    (ok = false → content = None).
Proof.
  unfold _safe_file_read. unfold bind at 1, path_exists at 1, get at 1.
  destruct (bool_decide _); simpl;
    [|eexists false, None, _, s; split; [reflexivity|]; by repeat split].
  unfold bind at 1.
  destruct (getsize_frame path s) as (r & s1 & -> & Hf1 & _ & Hsize).
  destruct r as [[|n]|e];
    try (eexists false, None, _, s1; split; [reflexivity|]; by repeat split).
  destruct (Hsize _ eq_refl) as (c0 & Hc0 & Hlen).
  unfold bind at 1.
  destruct (wait_for_file_unlock_bounds cfg env path None None s1)
    as (b & s2 & -> & Hf2 & _).
  destruct b; simpl;
    [|eexists false, None, _, s2; split; [reflexivity|];
      repeat split; try done; congruence].
  destruct (read_loop_result cfg env path (max_file_access_retries cfg) 0 s2)
    as (ok & content & msg & s' & -> & Hf & Hok & Hno & _).
  exists ok, content, msg, s'. split; [done|].
  split; [congruence|]. split; [|done].
  intros ->. destruct (Hok eq_refl) as [-> _].
  exists c0. rewrite Hf2, Hf1. split; [done|]. split; [done|].
  intros ->. discriminate.
Qed.

(** X4: [_safe_file_read] never changes a file, returns content only together
    with [True], and on success the content is exactly what is stored under
    the path, which is not empty. *)
Theorem safe_file_read_returns_stored_content path s :
  let r := _safe_file_read cfg env path s in
  files r.2 = files s ∧
  match r.1 with
  | (true, content, _) =>
      ∃ c, content = Some c ∧ files s !! path = Some c ∧ c ≠ []
  | (false, content, _) => content = None
  end.
Proof.
  destruct (safe_file_read_cases path s)
    as (ok & content & msg & s' & -> & Hf & Hok & Hno).
  simpl. split; [done|]. destruct ok; auto.
Qed.

Lemma safe_file_delete_cases path s :
  ∃ ok msg s', _safe_file_delete cfg env path s = (ok, msg, s') ∧
    files s' = (if ok then delete path (files s) else files s) ∧
    (ok = true ↔ files s' !! path = None).
Proof.
  unfold _safe_file_delete. unfold bind at 1, path_exists at 1, get at 1.
  destruct (bool_decide _) eqn:Hex; simpl.
  - apply bool_decide_eq_true in Hex. destruct Hex as [c Hc].
    unfold bind at 1.
    destruct (wait_for_file_unlock_bounds cfg env path None None s)
      as (b & s1 & -> & Hf1 & _).
    destruct b; simpl.
    + destruct (delete_loop_result cfg env path (max_file_access_retries cfg) 0 s1)
        as (ok & msg & s' & -> & Hok & Hno & _).
      exists ok, msg, s'. split; [done|]. destruct ok.
      * rewrite (Hok eq_refl), Hf1. split; [done|].
        by rewrite lookup_delete_eq.
      * rewrite (Hno eq_refl), Hf1. split; [done|]. rewrite Hc. by split.
    + eexists false, _, s1. split; [reflexivity|]. rewrite Hf1, Hc. by split.
  - apply bool_decide_eq_false in Hex.
    assert (files s !! path = None) as Hnone.
    { destruct (files s !! path) eqn:E; [|done]. destruct Hex. eauto. }
    eexists true, _, s. split; [reflexivity|].
    split; [by rewrite delete_id|]. by split.
Qed.

(** X5: [_safe_file_delete] answers [True] exactly when the path is gone
    afterwards: the file store is then the old one without the path, and is
    unchanged when the answer is [False]. *)
Theorem safe_file_delete_removes_only_the_path path s :
  let r := _safe_file_delete cfg env path s in
  files r.2 = (if r.1.1 then delete path (files s) else files s) ∧
  (r.1.1 = true ↔ files r.2 !! path = None).
Proof.
  destruct (safe_file_delete_cases path s) as (ok & msg & s' & -> & Hf & Hiff).
  simpl. by split.
Qed.

Lemma safe_file_read_clock path s :
  (0 ≤ base_retry_delay cfg)%Z → (0 ≤ max_retry_delay cfg)%Z →
  ∃ r s', _safe_file_read cfg env path s = (r, s') ∧
    (clock s ≤ clock s' ≤
       clock s + 2 * (Z.of_nat (max_file_access_retries cfg) * max_retry_delay cfg))%Z.
Proof.
  intros Hb Hm.
  unfold _safe_file_read. unfold bind at 1, path_exists at 1, get at 1.
  destruct (bool_decide _); simpl;
    [|eexists _, _; split; [reflexivity|lia] ].
  unfold bind at 1.
  destruct (getsize_frame path s) as (r' & s1 & -> & _ & Hc1 & _).
  destruct r' as [[|n]|e]; simpl;
    try (eexists _, _; split; [reflexivity|lia]).
  unfold bind at 1.
  destruct (wait_for_file_unlock_bounds cfg env path None None s1)
    as (b & s2 & -> & _ & Hc2). specialize (Hc2 Hb Hm). simpl in Hc2.
  destruct b; simpl; [|eexists _, _; split; [reflexivity|lia] ].
  destruct (read_loop_result cfg env path (max_file_access_retries cfg) 0 s2)
    as (ok & content & msg & s' & -> & _ & _ & _ & Hc).
  specialize (Hc Hb Hm). eexists _, _; split; [reflexivity|lia].
Qed.

Lemma safe_file_delete_clock path s :
  (0 ≤ base_retry_delay cfg)%Z → (0 ≤ max_retry_delay cfg)%Z →
  ∃ r s', _safe_file_delete cfg env path s = (r, s') ∧
    (clock s ≤ clock s' ≤
       clock s + 2 * (Z.of_nat (max_file_access_retries cfg) * max_retry_delay cfg))%Z.
Proof.
  intros Hb Hm.
  unfold _safe_file_delete. unfold bind at 1, path_exists at 1, get at 1.
  destruct (bool_decide _); simpl;
    [|eexists _, _; split; [reflexivity|lia] ].
  unfold bind at 1.
  destruct (wait_for_file_unlock_bounds cfg env path None None s)
    as (b & s1 & -> & _ & Hc1). specialize (Hc1 Hb Hm). simpl in Hc1.
  destruct b; simpl; [|eexists _, _; split; [reflexivity|lia] ].
  destruct (delete_loop_result cfg env path (max_file_access_retries cfg) 0 s1)
    as (ok & msg & s' & -> & _ & _ & Hc).
  specialize (Hc Hb Hm). eexists _, _; split; [reflexivity|lia].
Qed.

(** X6: with non-negative delays, waiting for a file to be released takes at
    most [max_file_access_retries] pauses of at most [max_retry_delay], and a
    whole read or delete at most twice that; the clock never runs backwards. *)
Theorem file_operations_time_bound path s :
  (0 ≤ base_retry_delay cfg)%Z → (0 ≤ max_retry_delay cfg)%Z →
  let budget := (Z.of_nat (max_file_access_retries cfg) * max_retry_delay cfg)%Z in
  (0 ≤ elapsed s (exec (_wait_for_file_unlock cfg env path None None) s) ≤ budget)%Z ∧
  (0 ≤ elapsed s (exec (_safe_file_read cfg env path) s) ≤ 2 * budget)%Z ∧
  (0 ≤ elapsed s (exec (_safe_file_delete cfg env path) s) ≤ 2 * budget)%Z.
Proof.
  intros Hb Hm budget. unfold elapsed, exec. subst budget.
  split; [|split].
  - destruct (wait_for_file_unlock_bounds cfg env path None None s)
      as (b & s' & -> & _ & Hc). specialize (Hc Hb Hm). simpl in *. lia.
  - destruct (safe_file_read_clock path s Hb Hm) as (r & s' & -> & Hc). simpl. lia.
  - destruct (safe_file_delete_clock path s Hb Hm) as (r & s' & -> & Hc). simpl. lia.
Qed.

End file_theorems.

Lemma file_operations_time_bound_witness :
  (0 ≤ clock (exec (_safe_file_delete (default_config false) env_locked sample_path)
               (sample_state (Some sample_audio)))
        - clock (sample_state (Some sample_audio)) ≤ 600000)%Z.
Proof.
  pose proof (file_operations_time_bound (default_config false) env_locked sample_path
                (sample_state (Some sample_audio)) ltac:(simpl; lia) ltac:(simpl; lia)) as (_ & _ & H).
  exact H.
Defined.


(** ** ProcessHandle: what the wait reports, and when a process is killed *)

Section process_results.
Context (cfg : Config) (env : Env).

Lemma new_events_app s s' evs : trace s' = trace s ++ evs → new_events s s' = evs.
Proof. intros H. unfold new_events. by rewrite H, drop_app_length. Qed.

Lemma cleanup_loop_result fuel process start_time timeout s :
  (timeout - (clock s - start_time) ≤ (Z.of_nat fuel - 1) * 100)%Z →
  1 ≤ fuel →
  ∃ b s', cleanup_loop cfg env fuel process start_time timeout s = (Some b, s') ∧
    trace_ext is_pause s s' ∧ tick s ≤ tick s' ∧
    ((0 ≤ windows_file_delay cfg)%Z → (clock s ≤ clock s')%Z) ∧
    (b = true →
       (∃ t, tick s ≤ t < tick s' ∧ process_alive env (pid process) t = false) ∧
       (clock s' - start_time <
          timeout + (if is_windows cfg then windows_file_delay cfg else 0))%Z) ∧
    (b = false →
       (∀ t, tick s ≤ t < tick s' → process_alive env (pid process) t = true) ∧
       (timeout ≤ clock s' - start_time)%Z ∧
       (clock s' = clock s ∨ (clock s' - start_time < timeout + 100)%Z)).
Proof.
  revert s. induction fuel as [|fuel IH]; intros s Hbound Hpos; [lia|].
  cbn [cleanup_loop]. unfold bind at 1, get at 1.
  destruct (Z.ltb_spec (clock s - start_time) timeout) as [Hlt|Hge].
  - unfold bind at 1, _is_process_running at 1, bind at 1, next_tick, ret at 1.
    destruct (process_alive env (pid process) (tick s)) eqn:Halive; simpl.
    + unfold bind at 1, sleep at 1.
      match goal with
      | |- context [cleanup_loop cfg env fuel process start_time timeout ?s2] =>
          destruct (IH s2) as (b & s' & -> & Hext & Htick & Hmono & Hyes & Hno);
            [simpl; lia|simpl; lia|]
      end.
      exists b, s'. split; [done|]. simpl in *.
      split; [|split; [lia|split; [intros Hwd; specialize (Hmono Hwd); lia|split] ] ].
      * destruct Hext as (evs & Hevs & Hp). simpl in Hevs.
        exists (EvSleep 100 :: evs).
        split; [by rewrite Hevs, <- app_assoc|]. constructor; [done|done].
      * intros Hb. destruct (Hyes Hb) as [(t & Ht & Hdead) Hclock].
        split; [|done]. exists t. split; [lia|done].
      * intros Hb. destruct (Hno Hb) as (Hall & Hmin & Hmax).
        split; [|split; [done|right; lia] ].
        intros t Ht. destruct (decide (t = tick s)) as [->|Hne]; [done|].
        apply Hall. lia.
    + unfold bind, ret. destruct (is_windows cfg); simpl.
      * eexists true, _. split; [reflexivity|]. simpl.
        split; [|split; [lia|split; [lia|split] ] ].
        -- exists [EvSleep (windows_file_delay cfg)]. split; [done|]. by constructor.
        -- intros _. split; [|lia]. exists (tick s). split; [lia|done].
        -- done.
      * eexists true, _. split; [reflexivity|]. simpl.
        split; [|split; [lia|split; [lia|split] ] ].
        -- exists []. split; [by rewrite app_nil_r|done].
        -- intros _. split; [|lia]. exists (tick s). split; [lia|done].
        -- done.
  - exists false, s. split; [done|]. split; [reflexivity|]. split; [done|].
    split; [done|]. split; [done|].
    intros _. split; [intros t Ht; lia|]. split; [lia|by left].
Qed.

Lemma wait_for_process_cleanup_cases process timeout s :
  let limit := default (process_cleanup_timeout cfg) timeout in
  ∃ b s', _wait_for_process_cleanup cfg env process timeout s = (b, s') ∧
    trace_ext is_pause s s' ∧ tick s ≤ tick s' ∧
    ((0 ≤ windows_file_delay cfg)%Z → (clock s ≤ clock s')%Z) ∧
    (b = true →
       (∃ t, tick s ≤ t < tick s' ∧ process_alive env (pid process) t = false) ∧
       (clock s' - clock s <
          limit + (if is_windows cfg then windows_file_delay cfg else 0))%Z) ∧
    (b = false →
       (∀ t, tick s ≤ t < tick s' → process_alive env (pid process) t = true) ∧
       (limit ≤ clock s' - clock s)%Z ∧
       ((0 ≤ limit)%Z → (clock s' - clock s < limit + 100)%Z)).
Proof.
  intros limit. unfold _wait_for_process_cleanup. cbv zeta. fold limit.
  unfold bind at 1, get at 1. unfold bind at 1.
  destruct (cleanup_loop_result (cleanup_fuel limit) process (clock s) limit s)
    as (b & s' & -> & Hext & Htick & Hmono & Hyes & Hno).
  { unfold cleanup_fuel. destruct (Z.le_gt_cases 0 limit) as [Hnn|Hneg]; [|lia].
    rewrite Nat2Z.inj_add, Z2Nat.id by (apply Z.div_pos; lia).
    pose proof (Z.mod_pos_bound limit 100 ltac:(lia)).
    pose proof (Z.div_mod limit 100 ltac:(lia)). lia. }
  { unfold cleanup_fuel. lia. }
  exists b, s'. split; [done|]. split; [done|]. split; [done|]. split; [done|].
  split; [done|].
  intros Hb. destruct (Hno Hb) as (Hall & Hmin & Hmax).
  split; [done|]. split; [done|]. intros Hnn. destruct Hmax as [->|]; lia.
Qed.

(** X7: [_wait_for_process_cleanup] always answers. [True] means that one of
    its polls saw the process gone, before the timeout ran out (plus the
    Windows pause); [False] means that every poll saw it alive and that the
    whole timeout has passed, overrun by less than one poll interval. It
    only pauses. *)
Theorem wait_for_process_cleanup_result process timeout s :
  let limit := default (process_cleanup_timeout cfg) timeout in
  ∃ b s', _wait_for_process_cleanup cfg env process timeout s = (b, s') ∧
    Forall is_pause (new_events s s') ∧
    (b = true →
       (∃ t, tick s ≤ t < tick s' ∧ process_alive env (pid process) t = false) ∧
       (elapsed s s' < limit + (if is_windows cfg then windows_file_delay cfg else 0))%Z) ∧
    (b = false →
       (∀ t, tick s ≤ t < tick s' → process_alive env (pid process) t = true) ∧
       (limit ≤ elapsed s s')%Z ∧
       ((0 ≤ limit)%Z → (elapsed s s' < limit + 100)%Z)).
Proof.
  intros limit.
  destruct (wait_for_process_cleanup_cases process timeout s)
    as (b & s' & Hrun & (evs & Hevs & Hp) & _ & _ & Hyes & Hno).
  exists b, s'. split; [done|]. unfold elapsed.
  split; [by rewrite (new_events_app _ _ _ Hevs)|]. by split.
Qed.

Lemma signal_process_result sig process s :
  ∃ b s', signal_process env sig process s = (b, s') ∧
    clock s' = clock s ∧ tick s < tick s' ∧
    ((process_alive env (pid process) (tick s) = false ∧ trace s' = trace s) ∨
     (process_alive env (pid process) (tick s) = true ∧
      trace s' = trace s ++ [EvSignal (pid process) sig])).
Proof.
  unfold signal_process, bind, _is_process_running, next_tick, emit, ret, bind.
  simpl. destruct (process_alive env (pid process) (tick s)) eqn:Halive; simpl.
  - destruct (signal_outcome env (pid process) (S (tick s)));
      eexists _, _; (split; [reflexivity|]); simpl;
      (split; [done|]); (split; [lia|]); right; done.
  - eexists _, _. split; [reflexivity|]. simpl. split; [done|]. split; [lia|].
    by left.
Qed.

(** What stopping the capture process does, step by step: at most one
    request to end, the polls of the wait, and after a full timeout the
    kill with its pause. *)
Lemma stop_capture_process_steps process s :
  let p := pid process in
  let s' := exec (stop_capture_process cfg env process) s in
  let pause := if is_windows cfg then windows_file_delay cfg else 1000%Z in
  ∃ term pauses kill,
    new_events s s' = term ++ pauses ++ kill ∧
    Forall is_pause pauses ∧
    (term = [] ∨
     term = [EvSignal p SIGTERM] ∧ process_alive env p (tick s) = true) ∧
    (kill = [] ∨
     (process_cleanup_timeout cfg + pause ≤ elapsed s s')%Z ∧
     (kill = [EvSleep pause] ∨
      kill = [EvSignal p SIGKILL; EvSleep pause] ∧
      ∃ t, tick s < t ∧ process_alive env p t = true)).
Proof.
  intros p sf pause. subst sf. unfold exec.
  destruct (stop_capture_process cfg env process s) as [u sf] eqn:Hrun.
  cbn [snd]. unfold elapsed. revert Hrun.
  unfold stop_capture_process, _terminate_process, _force_kill_process.
  unfold bind at 1.
  destruct (signal_process_result SIGTERM process s)
    as (b1 & s1 & -> & Hc1 & Ht1 & Htr1).
  unfold bind at 1.
  destruct (wait_for_process_cleanup_cases process None s1)
    as (b & s2 & -> & (pauses & Hpauses & Hforall) & Ht2 & _ & _ & Hno).
  simpl in Hno.
  assert (∃ term, trace s1 = trace s ++ term ∧
            (term = [] ∨
             term = [EvSignal p SIGTERM] ∧ process_alive env p (tick s) = true))
    as (term & Hterm & Hcase).
  { destruct Htr1 as [[Hd Htr]|[Ha Htr] ].
    - exists []. rewrite app_nil_r. auto.
    - exists [EvSignal p SIGTERM]. auto. }
  destruct b; simpl.
  - intros Hrun. apply (f_equal snd) in Hrun. simpl in Hrun. subst sf.
    exists term, pauses, []. rewrite app_nil_r.
    split; [|split; [done|split; [done|by left] ] ].
    apply new_events_app. by rewrite Hpauses, Hterm, app_assoc.
  - destruct (Hno eq_refl) as (_ & Hmin & _).
    unfold bind at 1.
    destruct (signal_process_result SIGKILL process s2)
      as (b3 & s3 & -> & Hc3 & Ht3 & Htr3).
    unfold bind, sleep, _is_process_running, next_tick, ret. simpl.
    fold pause. intros Hrun. apply (f_equal snd) in Hrun. simpl in Hrun. subst sf.
    simpl.
    destruct Htr3 as [[Hd Htr]|[Ha Htr] ].
    + exists term, pauses, [EvSleep pause].
      split; [|split; [done|split; [done|] ] ].
      * apply new_events_app. simpl. rewrite Htr, Hpauses, Hterm.
        by rewrite <- !app_assoc.
      * right. split; [lia|by left].
    + exists term, pauses, [EvSignal p SIGKILL; EvSleep pause].
      split; [|split; [done|split; [done|] ] ].
      * apply new_events_app. simpl. rewrite Htr, Hpauses, Hterm.
        by rewrite <- !app_assoc.
      * right. split; [lia|]. right. split; [done|].
        exists (tick s2). split; [lia|done].
Qed.

(** X8: a capture process that has already exited is sent no signal when
    its recording is stopped; the stop sequence only pauses. *)
Theorem exited_process_receives_no_signal process s :
  (∀ t, tick s ≤ t → process_alive env (pid process) t = false) →
  Forall is_pause (new_events s (exec (stop_capture_process cfg env process) s)).
Proof.
  intros Hdead.
  destruct (stop_capture_process_steps process s)
    as (term & pauses & kill & -> & Hp & Hterm & Hkill).
  apply Forall_app. split; [|apply Forall_app; split; [done|] ].
  - destruct Hterm as [->|[_ Halive] ]; [done|].
    rewrite Hdead in Halive by lia. done.
  - destruct Hkill as [->|[_ [->|[_ (t & Ht & Halive)] ] ] ]; [done| |].
    + by repeat constructor.
    + rewrite Hdead in Halive by lia. done.
Qed.

(** X9: the capture process is killed only after the whole cleanup timeout
    and the pause that follows the kill have passed, and a request to end
    it, if one was sent, came first. *)
Theorem kill_only_after_grace_period process s :
  let s' := exec (stop_capture_process cfg env process) s in
  let pause := if is_windows cfg then windows_file_delay cfg else 1000%Z in
  EvSignal (pid process) SIGKILL ∈ new_events s s' →
  (process_cleanup_timeout cfg + pause ≤ elapsed s s')%Z ∧
  ∃ before, new_events s s' = before ++ [EvSignal (pid process) SIGKILL; EvSleep pause] ∧
            EvSignal (pid process) SIGKILL ∉ before.
Proof.
  intros s' pause Hin. subst s'.
  destruct (stop_capture_process_steps process s)
    as (term & pauses & kill & Hev & Hp & Hterm & Hkill).
  fold pause in Hkill. rewrite Hev in Hin |- *.
  assert (Hbefore : EvSignal (pid process) SIGKILL ∉ term ++ pauses).
  { rewrite elem_of_app. intros [Hin'|Hin'].
    - destruct Hterm as [->|[-> _] ].
      + by apply not_elem_of_nil in Hin'.
      + apply list_elem_of_singleton in Hin'. discriminate.
    - rewrite Forall_forall in Hp. by apply Hp in Hin'. }
  destruct Hkill as [->|[Hmin [->|[-> _] ] ] ].
  - rewrite app_nil_r in Hin. contradiction.
  - rewrite app_assoc, elem_of_app in Hin. destruct Hin as [Hin|Hin]; [contradiction|].
    apply list_elem_of_singleton in Hin. discriminate.
  - split; [done|]. exists (term ++ pauses). by rewrite app_assoc.
Qed.

End process_results.

Lemma exited_process_receives_no_signal_witness :
  Forall is_pause
    (new_events (set_tick 1 (sample_state (Some sample_audio)))
       (exec (stop_capture_process (default_config false) env_calm (rd_process sample_data))
          (set_tick 1 (sample_state (Some sample_audio))))).
Proof.
  apply (exited_process_receives_no_signal (default_config false) env_calm).
  intros t Ht. simpl in *. apply bool_decide_eq_false. lia.
Defined.

Lemma kill_only_after_grace_period_witness :
  (21000 ≤ elapsed (sample_state (Some sample_audio))
             (exec (stop_capture_process (default_config false) env_stubborn
                      (rd_process sample_data))
                (sample_state (Some sample_audio))))%Z.
Proof.
  apply (kill_only_after_grace_period (default_config false) env_stubborn
           (rd_process sample_data) (sample_state (Some sample_audio))).
  vm_compute. do 201 apply list_elem_of_further. apply list_elem_of_here.
Defined.

(** ** Finalization and the local capture file *)

Section capture_files.
Context (cfg : Config) (env : Env).

Lemma getsize_trace path s : trace (getsize env path s).2 = trace s.
Proof.
  unfold getsize, bind, next_tick, get, ret. simpl.
  by destruct (getsize_error env path (tick s)), (files s !! path).
Qed.

Lemma wait_for_file_unlock_quiet path s :
  ∃ b s' pauses, _wait_for_file_unlock cfg env path None None s = (b, s') ∧
    files s' = files s ∧ trace s' = trace s ++ pauses ∧ Forall is_pause pauses ∧
    ((∀ t, file_locked env path t = false) → is_Some (files s !! path) →
     0 < max_file_access_retries cfg → b = true ∧ pauses = []).
Proof.
  assert (trace_ext is_pause s (exec (_wait_for_file_unlock cfg env path None None) s))
    as (pauses & Ht & Hp).
  { apply respects_wait_for_file_unlock; [apply _|apply trace_ext_prim|].
    intros ms. by apply trace_ext_prim. }
  unfold exec in Ht.
  destruct (wait_for_file_unlock_bounds cfg env path None None s)
    as (b & s' & Hrun & Hf & _).
  rewrite Hrun in Ht. simpl in Ht.
  exists b, s', pauses. split; [done|]. split; [done|]. split; [done|]. split; [done|].
  intros Hfree Hex Hn. revert Hrun.
  unfold _wait_for_file_unlock. cbv zeta. unfold bind, path_exists, get.
  rewrite bool_decide_eq_true_2 by done. simpl.
  destruct (max_file_access_retries cfg) as [|n]; [lia|].
  cbn [unlock_loop]. unfold bind, _is_file_locked, bind, path_exists, get, next_tick, ret.
  rewrite bool_decide_eq_true_2 by done. simpl. rewrite Hfree. simpl.
  intros [= <- <-]. split; [done|]. simpl in Ht.
  apply (app_inv_head (trace s)). by rewrite app_nil_r.
Qed.

Lemma delete_loop_report path n attempt s :
  ∃ ok msg s' evs, delete_loop cfg env path n attempt s = (ok, msg, s') ∧
    trace s' = trace s ++ evs ∧
    (ok = true → EvRemove path ∈ evs) ∧
    ((∀ t, remove_outcome env path t = IoOk) → is_Some (files s !! path) → 0 < n →
     ok = true ∧ evs = [EvRemove path]).
Proof.
  revert attempt s. induction n as [|n IH]; intros attempt s.
  - eexists false, _, s, []. split; [reflexivity|]. rewrite app_nil_r.
    split; [done|]. split; [done|]. lia.
  - cbn [delete_loop]. unfold bind at 1, emit at 1.
    unfold bind at 1, next_tick at 1. unfold bind at 1, get at 1. simpl.
    assert (Hretry :
      ¬ (remove_outcome env path (tick s) = IoOk ∧ is_Some (files s !! path)) →
      ∃ ok msg s' evs,
        (let* _ := sleep (retry_delay cfg (base_retry_delay cfg) attempt) in
         delete_loop cfg env path n (S attempt))
          (set_tick (S (tick s)) (set_trace (trace s ++ [EvRemove path]) s))
          = (ok, msg, s') ∧
        trace s' = trace s ++ evs ∧
        (ok = true → EvRemove path ∈ evs) ∧
        ((∀ t, remove_outcome env path t = IoOk) → is_Some (files s !! path) → 0 < S n →
         ok = true ∧ evs = [EvRemove path])).
    { intros Hnot. unfold bind, sleep.
      match goal with
      | |- context [delete_loop cfg env path n (S attempt) ?s2] =>
          destruct (IH (S attempt) s2) as (ok & msg & s' & evs & -> & Ht & Hrm & _)
      end.
      simpl in Ht.
      eexists ok, msg, s', _. split; [done|].
      split; [by rewrite Ht, <- !app_assoc|]. split.
      - intros _. apply elem_of_app. left. apply list_elem_of_here.
      - intros Hok Hex _. destruct Hnot. by split. }
    destruct (remove_outcome env path (tick s)) as [|e|e] eqn:Hout;
      destruct (files s !! path) as [content|] eqn:Hfile;
      try (apply Hretry; by intros [? [? ?]]).
    + eexists true, _, _, [EvRemove path]. split; [reflexivity|]. simpl.
      split; [done|]. split; [intros _; apply list_elem_of_here|done].
    + eexists false, _, _, [EvRemove path]. split; [reflexivity|]. simpl.
      split; [done|]. split; [done|]. intros Hok. by rewrite Hok in Hout.
    + eexists false, _, _, [EvRemove path]. split; [reflexivity|]. simpl.
      split; [done|]. split; [done|]. intros Hok. by rewrite Hok in Hout.
Qed.

(** The clean-up of a capture that is there: what it leaves, what it
    tried, and that it succeeds on a free file that can be removed. *)
Lemma safe_file_delete_report path s :
  is_Some (files s !! path) →
  ∃ ok msg s' evs, _safe_file_delete cfg env path s = (ok, msg, s') ∧
    trace s' = trace s ++ evs ∧ Forall is_cleanup evs ∧
    files s' = (if ok then delete path (files s) else files s) ∧
    (ok = true → EvRemove path ∈ evs) ∧
    ((∀ t, file_locked env path t = false) → (∀ t, remove_outcome env path t = IoOk) →
     0 < max_file_access_retries cfg → ok = true ∧ evs = [EvRemove path]).
Proof.
  intros Hex.
  destruct (safe_file_delete_cleanup cfg env path s) as (evs & Ht & Hc).
  unfold exec in Ht.
  destruct (safe_file_delete_cases cfg env path s) as (ok & msg & s' & Hrun & Hf & _).
  rewrite Hrun in Ht. simpl in Ht.
  exists ok, msg, s', evs. split; [done|]. split; [done|]. split; [done|].
  split; [done|].
  revert Hrun. unfold _safe_file_delete. unfold bind at 1, path_exists at 1, get at 1.
  rewrite bool_decide_eq_true_2 by done. simpl. unfold bind at 1.
  destruct (wait_for_file_unlock_quiet path s)
    as (b & s1 & pauses & -> & Hf1 & Ht1 & Hp1 & Hfree1).
  destruct b; simpl.
  - destruct (delete_loop_report path (max_file_access_retries cfg) 0 s1)
      as (ok' & msg' & s2 & evs2 & -> & Ht2 & Hrm & Hfree2).
    intros [= <- <- <-].
    assert (evs = pauses ++ evs2) as ->.
    { apply (app_inv_head (trace s)). by rewrite <- Ht, Ht2, Ht1, <- app_assoc. }
    split.
    + intros Hok. apply elem_of_app. right. by apply Hrm.
    + intros Hlock Hremove Hn.
      destruct (Hfree1 Hlock Hex Hn) as [_ ->].
      apply Hfree2; [done| |done]. by rewrite Hf1.
  - intros [= <- <- <-]. split; [done|].
    intros Hlock Hremove Hn. by destruct (Hfree1 Hlock Hex Hn).
Qed.

(** Every way through [finalized_record]: the exits before the upload,
    the refused upload and the stored one, each with the pending record,
    the file store and the events it leaves. *)
Lemma finalized_record_outcome data rec s :
  let id := rd_recording_id data in
  let path := rd_file_path data in
  let fname := basename (is_windows cfg) path in
  let dur := total_minutes (clock s - rd_start_time data) in
  ∃ rec' s' pauses, finalized_record cfg env data rec s = (rec', s') ∧
    Forall is_pause pauses ∧
    ((recording_status rec' = failed ∧ files s' = files s ∧
      trace s' = trace s ++ pauses ++ [EvStatus id failed]) ∨
     (∃ t msg residue c,
        upload_outcome env fname t = UploadFailed msg residue ∧
        files s !! path = Some c ∧ c ≠ [] ∧
        rec' = set_failed rec ("File upload error: " +:+ msg) (clock s) dur (Some path) ∧
        files s' = after_residue residue (files s) ∧
        trace s' = trace s ++ pauses ++ [EvUpload fname; EvStatus id failed]) ∨
     (∃ t saved url c cleanup (deleted : bool),
        upload_outcome env fname t = Uploaded saved url ∧
        files s !! path = Some c ∧ c ≠ [] ∧
        rec' = set_completed rec (clock s) dur saved url (megabytes (length c)) ∧
        files s' = (if deleted then delete path (<[saved := c]> (files s))
                    else <[saved := c]> (files s)) ∧
        trace s' = trace s ++ pauses ++ [EvUpload fname; EvStatus id completed] ++ cleanup ∧
        Forall is_cleanup cleanup ∧
        (deleted = true → EvRemove path ∈ cleanup) ∧
        ((∀ t, file_locked env path t = false) →
         (∀ t, remove_outcome env path t = IoOk) →
         0 < max_file_access_retries cfg →
         deleted = true ∧ cleanup = [EvRemove path]))).
Proof.
  intros id path fname dur. subst id path fname dur.
  unfold finalized_record. cbv zeta.
  unfold bind at 1, get at 1. unfold bind at 1, path_exists at 1, get at 1.
  destruct (bool_decide _); simpl;
    [|eexists _, _, []; split; [reflexivity|]; split; [done|]; left; by repeat split].
  unfold bind at 1.
  pose proof (getsize_trace (rd_file_path data) s) as Ht1.
  destruct (getsize_frame env (rd_file_path data) s) as (r & s1 & Hrun1 & Hf1 & _ & Hsize).
  rewrite Hrun1 in Ht1 |- *. simpl in Ht1.
  destruct r as [[|n]|e];
    try (eexists _, _, []; split; [reflexivity|]; split; [done|]; left; simpl;
         split; [done|]; split; [done|]; by rewrite Ht1).
  destruct (Hsize _ eq_refl) as (c1 & Hc1 & Hlen).
  unfold bind at 1.
  destruct (safe_file_read_quiet cfg env (rd_file_path data) s1) as [(pauses & Ht2 & Hp) _].
  unfold exec in Ht2.
  destruct (safe_file_read_cases cfg env (rd_file_path data) s1)
    as (ok & content & msg & s2 & Hrun2 & Hf2 & Hok & _).
  rewrite Hrun2 in Ht2 |- *. simpl in Ht2.
  cbn beta iota.
  destruct ok, content as [[|b c]|];
    try (eexists _, _, pauses; split; [reflexivity|]; split; [done|]; left; simpl;
         split; [done|]; split; [congruence|]; by rewrite Ht2, Ht1, <- app_assoc).
  destruct (Hok eq_refl) as (c0 & [= <-] & Hc0 & Hne).
  assert (c1 = b :: c) as -> by congruence.
  unfold bind at 1, save_upload_file at 1, bind at 1 2, emit, next_tick. simpl.
  destruct (upload_outcome env (basename (is_windows cfg) (rd_file_path data)) (tick s2))
    as [saved url|emsg residue] eqn:Hup.
  - unfold bind at 1, write_file at 1, ret at 1.
    unfold bind at 1, assign at 1, bind at 1, emit at 1, ret at 1. simpl.
    unfold bind.
    match goal with
    | |- context [_safe_file_delete cfg env ?p ?s3] =>
        destruct (safe_file_delete_report p s3)
          as (dok & dmsg & s4 & cleanup & -> & Ht4 & Hc4 & Hf4 & Hrm & Hfree)
    end.
    { simpl. rewrite Hf2, Hf1.
      destruct (decide (saved = rd_file_path data)) as [->|Hne'].
      - rewrite lookup_insert_eq. eauto.
      - rewrite lookup_insert_ne by done. eauto. }
    simpl in Ht4, Hf4. eexists _, s4, pauses. split; [reflexivity|]. split; [done|].
    right. right.
    exists (tick s2), saved, url, (b :: c), cleanup, dok.
    split; [done|]. split; [done|]. split; [done|].
    split; [by rewrite Hlen|].
    split; [rewrite Hf4, Hf2, Hf1; by destruct dok|].
    split; [by rewrite Ht4, Ht2, Ht1, <- !app_assoc|].
    split; [done|]. split; [done|done].
  - unfold bind, leave_residue, write_file, ret, assign, bind, emit, ret.
    destruct residue as [[rp [rb|]]|]; simpl;
      (eexists _, _, pauses; split; [reflexivity|]; split; [done|];
       right; left; eexists (tick s2), emsg, _, (b :: c);
       split; [exact Hup|]; split; [done|]; split; [done|]; split; [done|];
       simpl; split; [by rewrite Hf2, Hf1|by rewrite Ht2, Ht1, <- !app_assoc]).
Qed.

Lemma after_residue_other residue (fs : gmap string (list Byte.byte)) msg p :
  upload_path (UploadFailed msg residue) ≠ Some p →
  after_residue residue fs !! p = fs !! p.
Proof.
  destruct residue as [[rp [rb|]]|]; simpl; intros Hne; [| |done].
  - apply lookup_insert_ne. congruence.
  - apply lookup_delete_ne. congruence.
Qed.

Lemma finalize_recording_files data s p :
  let s' := exec (_finalize_recording cfg env data) s in
  p ≠ rd_file_path data →
  (∀ t, upload_path (upload_outcome env (basename (is_windows cfg) (rd_file_path data)) t)
          ≠ Some p) →
  files s' !! p = files s !! p.
Proof.
  intros s' Hp Hup. subst s'.
  destruct (recordings s !! rd_recording_id data) as [rec|] eqn:Hrec.
  - rewrite (finalize_recording_found cfg env data rec s Hrec). cbv zeta.
    destruct (finalized_record_outcome data rec s)
      as (rec' & s1 & pauses & -> & _ &
          [(_ & Hf & _)|[(t & msg & residue & c & Hout & _ & _ & _ & Hf & _)
                        |(t & saved & url & c & cleanup & deleted & Hout & _ & _ & _ & Hf & _)]]);
      simpl; rewrite Hf.
    + done.
    + specialize (Hup t). rewrite Hout in Hup. by eapply after_residue_other.
    + specialize (Hup t). rewrite Hout in Hup. simpl in Hup.
      destruct deleted; rewrite ?lookup_delete_ne by done;
        apply lookup_insert_ne; congruence.
  - unfold exec. by rewrite (finalize_recording_missing cfg env data s Hrec).
Qed.

(** C7: when the upload fails, the record is committed as [failed] with
    the upload error and keeps the temporary path, nothing is tried on the
    capture file ([os.remove] is not among the events) and the file store
    is as the failed upload left its own file; when it succeeds, the
    capture is written to the stored path, the record is set to
    [completed] without error message, with the stored path and URL, the
    clean-up of the capture comes after that assignment and before the
    commit, the capture is the only file it can remove, and on a free
    file that [os.remove] accepts it does remove it. *)
Theorem upload_result_decides_outcome data rec s evs :
  let id := rd_recording_id data in
  let path := rd_file_path data in
  let fname := basename (is_windows cfg) path in
  let s' := exec (_finalize_recording cfg env data) s in
  recordings s !! id = Some rec →
  trace s' = trace s ++ evs →
  EvUpload fname ∈ evs →
  ∃ content pauses,
    files s !! path = Some content ∧ content ≠ [] ∧ Forall is_pause pauses ∧
    (∀ msg residue, (∀ t, upload_outcome env fname t = UploadFailed msg residue) →
       ∃ rec', recordings s' !! id = Some rec' ∧
         recording_status rec' = failed ∧
         error_message rec' = Some ("File upload error: " +:+ msg) ∧
         recording_file_path rec' = Some path ∧
         evs = pauses ++ [EvUpload fname; EvStatus id failed; EvCommit id failed] ∧
         files s' = after_residue residue (files s) ∧
         (upload_path (UploadFailed msg residue) ≠ Some path →
          files s' !! path = Some content)) ∧
    (∀ saved url, (∀ t, upload_outcome env fname t = Uploaded saved url) →
       ∃ rec' cleanup, recordings s' !! id = Some rec' ∧
         recording_status rec' = completed ∧
         error_message rec' = None ∧
         recording_file_path rec' = Some saved ∧
         recording_file_url rec' = Some url ∧
         evs = pauses ++ [EvUpload fname; EvStatus id completed] ++ cleanup
                 ++ [EvCommit id completed] ∧
         Forall is_cleanup cleanup ∧
         (files s' = delete path (<[saved := content]> (files s)) ∧ EvRemove path ∈ cleanup ∨
          files s' = <[saved := content]> (files s)) ∧
         ((∀ t, file_locked env path t = false) →
          (∀ t, remove_outcome env path t = IoOk) →
          0 < max_file_access_retries cfg →
          files s' = delete path (<[saved := content]> (files s)) ∧
          cleanup = [EvRemove path])).
Proof.
  intros id path fname s' Hrec Hevs Hup. subst s'.
  rewrite (finalize_recording_found cfg env data rec s Hrec) in *. cbv zeta in *.
  destruct (finalized_record_outcome data rec s) as (rec' & s1 & pauses & Hrun & Hp & Hcases).
  cbv zeta in Hcases. fold path fname id in Hcases |- *.
  rewrite Hrun in *. simpl in *. rewrite lookup_insert_eq.
  destruct Hcases as [(Hst & Hf & Ht)
    |[(t & msg0 & residue0 & c & Hout & Hc & Hne & -> & Hf & Ht)
     |(t & saved0 & url0 & c & cleanup & deleted & Hout & Hc & Hne & -> & Hf & Ht & Hcl & Hrm & Hfree)]].
  - exfalso. rewrite Ht, <- !app_assoc in Hevs. apply app_inv_head in Hevs as <-.
    rewrite !elem_of_app in Hup. destruct Hup as [Hup|[Hup|Hup]].
    + rewrite Forall_forall in Hp. by apply Hp in Hup.
    + by apply list_elem_of_singleton in Hup.
    + by apply list_elem_of_singleton in Hup.
  - rewrite Ht, <- !app_assoc in Hevs. apply app_inv_head in Hevs as <-.
    exists c, pauses. split; [done|]. split; [done|]. split; [done|]. split.
    + intros msg residue He. rewrite He in Hout. injection Hout as <- <-.
      eexists. split; [done|]. simpl. repeat split; try done.
      intros Hother. rewrite Hf, <- Hc. apply (after_residue_other residue _ msg). exact Hother.
    + intros saved url He. by rewrite He in Hout.
  - rewrite Ht, <- !app_assoc in Hevs. apply app_inv_head in Hevs as <-.
    exists c, pauses. split; [done|]. split; [done|]. split; [done|]. split.
    + intros msg residue He. by rewrite He in Hout.
    + intros saved url He. rewrite He in Hout. injection Hout as <- <-.
      eexists _, cleanup. split; [done|]. simpl.
      split; [done|]. split; [done|]. split; [done|]. split; [done|].
      split; [done|]. split; [done|]. split.
      * rewrite Hf. destruct deleted; [left|by right]. split; [done|]. by apply Hrm.
      * intros Hlock Hremove Hn. destruct (Hfree Hlock Hremove Hn) as [-> ->].
        by rewrite Hf.
Qed.

(** X10: the capture file is deleted only when the recording is committed
    as [completed]. A record committed as [failed] leaves the local files
    as they were, or as a failed upload left its own stored file; a record
    committed as [completed] had a non-empty capture, which the upload
    wrote to the stored path, carries that path and its URL, and the only
    file that can be gone is the capture itself. *)
Theorem capture_deleted_only_when_completed data rec s :
  recordings s !! rd_recording_id data = Some rec →
  let s' := exec (_finalize_recording cfg env data) s in
  let path := rd_file_path data in
  let fname := basename (is_windows cfg) path in
  ∃ rec', recordings s' !! rd_recording_id data = Some rec' ∧
    (recording_status rec' = failed ∧
     (files s' = files s ∨
      ∃ t msg residue, upload_outcome env fname t = UploadFailed msg residue ∧
        files s' = after_residue residue (files s)) ∨
     recording_status rec' = completed ∧
     ∃ t saved url c, upload_outcome env fname t = Uploaded saved url ∧
       files s !! path = Some c ∧ c ≠ [] ∧
       recording_file_path rec' = Some saved ∧ recording_file_url rec' = Some url ∧
       (files s' = <[saved := c]> (files s) ∨
        files s' = delete path (<[saved := c]> (files s)))).
Proof.
  intros Hrec s' path fname. subst s' path fname.
  rewrite (finalize_recording_found cfg env data rec s Hrec). cbv zeta.
  destruct (finalized_record_outcome data rec s)
    as (rec' & s1 & pauses & -> & _ &
        [(Hst & Hf & _)|[(t & msg & residue & c & Hout & _ & _ & -> & Hf & _)
                        |(t & saved & url & c & cleanup & deleted & Hout & Hc & Hne & -> & Hf & _)]]).
  - exists rec'. simpl. rewrite lookup_insert_eq. split; [done|]. left. auto.
  - eexists. simpl. rewrite lookup_insert_eq. split; [done|]. left.
    split; [done|]. right. eauto.
  - eexists. simpl. rewrite lookup_insert_eq. split; [done|]. right.
    split; [done|]. exists t, saved, url, c. repeat split; try done.
    rewrite Hf. destruct deleted; auto.
Qed.

Lemma stop_session_recording_files key data s p :
  recording_processes s !! key = Some data →
  let s' := exec (_stop_session_recording cfg env key) s in
  p ≠ rd_file_path data →
  (∀ t, upload_path (upload_outcome env (basename (is_windows cfg) (rd_file_path data)) t)
          ≠ Some p) →
  files s' !! p = files s !! p.
Proof.
  intros Hkey s' Hp Hup. subst s'. unfold exec.
  destruct (_stop_session_recording cfg env key s) as [[] s'] eqn:Hrun. simpl.
  unfold _stop_session_recording in Hrun. unfold bind at 1, get at 1 in Hrun.
  rewrite Hkey in Hrun. unfold bind at 1 in Hrun.
  destruct (stop_capture_process_frames cfg env (rd_process data) s)
    as (_ & _ & Hfiles1 & _).
  unfold exec, same_files in Hfiles1.
  destruct (stop_capture_process cfg env (rd_process data) s) as [[] s1]. simpl in *.
  unfold bind at 1 in Hrun.
  pose proof (finalize_recording_files data s1 p Hp Hup) as Hfiles2. unfold exec in Hfiles2.
  destruct (_finalize_recording cfg env data s1) as [[] s2]. simpl in *.
  unfold deregister in Hrun.
  destruct (recording_processes s2 !! key); injection Hrun as <-; simpl;
    rewrite <- Hfiles1; exact Hfiles2.
Qed.

(** X11: stopping one recording leaves the others alone: every other
    entry of the active-capture table, every other database record and
    every file other than its own capture and the stored copy the upload
    writes are as before, and so are the station tasks and the validation
    flag. *)
Theorem stop_leaves_other_recordings_alone key data s :
  recording_processes s !! key = Some data →
  let s' := exec (_stop_session_recording cfg env key) s in
  let fname := basename (is_windows cfg) (rd_file_path data) in
  (∀ k, k ≠ key → recording_processes s' !! k = recording_processes s !! k) ∧
  (∀ id, id ≠ rd_recording_id data → recordings s' !! id = recordings s !! id) ∧
  (∀ p, p ≠ rd_file_path data →
        (∀ t, upload_path (upload_outcome env fname t) ≠ Some p) →
        files s' !! p = files s !! p) ∧
  station_tasks s' = station_tasks s ∧
  _is_validated s' = _is_validated s.
Proof.
  intros Hkey s' fname. subst s' fname.
  destruct (stop_session_recording_effect cfg env key data s Hkey)
    as (Hprocs & Htasks & evs & _ & _ & Hdb). cbv zeta in Hdb.
  split; [|split; [|split; [|split] ] ].
  - intros k Hne. by rewrite Hprocs, lookup_delete_ne.
  - intros id Hne. destruct (recordings s !! rd_recording_id data).
    + destruct Hdb as (rec' & -> & _). by rewrite lookup_insert_ne.
    + by rewrite Hdb.
  - intros p Hne Hup. by apply (stop_session_recording_files key data s p Hkey).
  - done.
  - apply (respects_stop_session_recording cfg env same_validated);
      intros; apply same_validated_prim.
Qed.

End capture_files.

Lemma upload_result_decides_outcome_witness :
  let s := sample_state (Some sample_audio) in
  let cfg := default_config false in
  let down := exec (_finalize_recording cfg env_upload_down sample_data) s in
  let calm := exec (_finalize_recording cfg env_calm sample_data) s in
  (∃ rec',
     recordings down !! "rec-1" = Some rec' ∧
     recording_status rec' = failed ∧
     error_message rec' = Some "File upload error: 500: Could not upload file: disk full" ∧
     recording_file_path rec' = Some sample_path ∧
     files down !! sample_path = Some sample_audio) ∧
  (∃ rec',
     recordings calm !! "rec-1" = Some rec' ∧
     recording_status rec' = completed ∧
     error_message rec' = None ∧
     recording_file_path rec' = Some sample_saved.1 ∧
     recording_file_url rec' = Some sample_saved.2 ∧
     files calm = {[ sample_saved.1 := sample_audio ]}).
Proof.
  intros s cfg down calm. split.
  - destruct (upload_result_decides_outcome cfg env_upload_down sample_data sample_record s
                [EvUpload "capital_news_20250106_0900_090003_ab12cd34.mp3";
                 EvStatus "rec-1" failed;
                 EvCommit "rec-1" failed])
      as (content & pauses & Hcontent & _ & _ & Hfail & _).
    + reflexivity.
    + vm_compute. reflexivity.
    + vm_compute. constructor.
    + destruct (Hfail "500: Could not upload file: disk full" (Some (sample_saved.1, None))
                  (λ _, eq_refl))
        as (rec' & Hrec' & Hst & Hmsg & Hpath & _ & _ & Hkept).
      exists rec'. split; [exact Hrec'|]. split; [exact Hst|]. split; [exact Hmsg|].
      split; [exact Hpath|].
      injection Hcontent as <-. apply Hkept. discriminate.
  - destruct (upload_result_decides_outcome cfg env_calm sample_data sample_record s
                [EvUpload "capital_news_20250106_0900_090003_ab12cd34.mp3";
                 EvStatus "rec-1" completed;
                 EvRemove sample_path;
                 EvCommit "rec-1" completed])
      as (content & pauses & Hcontent & _ & _ & _ & Hok).
    + reflexivity.
    + vm_compute. reflexivity.
    + vm_compute. constructor.
    + destruct (Hok sample_saved.1 sample_saved.2 (λ _, eq_refl))
        as (rec' & cleanup & Hrec' & Hst & Hmsg & Hpath & Hurl & _ & _ & _ & Hgone).
      exists rec'. split; [exact Hrec'|]. split; [exact Hst|]. split; [exact Hmsg|].
      split; [exact Hpath|]. split; [exact Hurl|].
      destruct Hgone as [Hfiles _]; [reflexivity|reflexivity|vm_compute; lia|].
      injection Hcontent as <-. fold calm in Hfiles. rewrite Hfiles. reflexivity.
Defined.

Lemma capture_deleted_only_when_completed_witness :
  let s := sample_state (Some sample_audio) in
  let s' := exec (_finalize_recording (default_config false) env_calm sample_data) s in
  ∃ rec', recordings s' !! "rec-1" = Some rec' ∧
          recording_status rec' = completed ∧
          files s' !! sample_path = None ∧
          files s' !! sample_saved.1 = Some sample_audio.
Proof.
  intros s s'.
  destruct (capture_deleted_only_when_completed (default_config false) env_calm
              sample_data sample_record s eq_refl) as (rec' & Hrec' & _).
  exists rec'. split; [exact Hrec'|].
  vm_compute in Hrec'. injection Hrec' as <-. repeat split; reflexivity.
Defined.

Lemma stop_leaves_other_recordings_alone_witness :
  let s := sample_state (Some sample_audio) in
  let s' := exec (_stop_session_recording (default_config false) env_calm sample_key) s in
  station_tasks s' = station_tasks s ∧
  files s' !! "./temp_recordings/other.mp3" = files s !! "./temp_recordings/other.mp3".
Proof.
  intros s s'.
  destruct (stop_leaves_other_recordings_alone (default_config false) env_calm
              sample_key sample_data s eq_refl) as (_ & _ & Hfiles & Htasks & _).
  split; [exact Htasks|]. apply Hfiles; [discriminate|]. intros t. discriminate.
Defined.

(** ** Shutdown, station by station *)

Section shutdown_more.
Context (cfg : Config) (env : Env).

Lemma save_station_recordings_effect sid s :
  let s' := exec (_save_station_recordings_on_shutdown cfg env sid) s in
  (∀ k, recording_processes s' !! k =
          if String.prefix sid k then None else recording_processes s !! k) ∧
  station_tasks s' = station_tasks s ∧
  ∀ k data rec,
    String.prefix sid k = true →
    recording_processes s !! k = Some data →
    recordings s !! rd_recording_id data = Some rec →
    ∃ rec', recordings s' !! rd_recording_id data = Some rec' ∧
            is_terminal (recording_status rec') = true.
Proof.
  intros s'. subst s'. unfold exec, _save_station_recordings_on_shutdown.
  unfold bind, get.
  set (keys := filter (λ k, String.prefix sid k = true)
                 (elements (dom (recording_processes s)))).
  destruct (drain_effect cfg env keys s) as (Htasks & Hprocs & _ & evs & _ & _ & Hkeys).
  unfold exec in *.
  assert (Hmem : ∀ k, k ∈ keys ↔
            String.prefix sid k = true ∧ is_Some (recording_processes s !! k)).
  { intros k. unfold keys. rewrite list_elem_of_filter, elem_of_elements, elem_of_dom.
    done. }
  split; [|split; [done|] ].
  - intros k. rewrite Hprocs. case_decide as Hin.
    + apply Hmem in Hin as [-> _]. done.
    + destruct (String.prefix sid k) eqn:Hpre; [|done].
      destruct (recording_processes s !! k) eqn:Hk; [|done].
      destruct Hin. apply Hmem. eauto.
  - intros k data rec Hpre Hk Hrec.
    destruct (Hkeys k data) as [_ Hfinal]; [apply Hmem; eauto|done|].
    by destruct (Hfinal rec Hrec) as [_ ?].
Qed.

(** X12: when a station task is cancelled, exactly the captures whose key
    starts with the station id are taken out of the table, whatever station
    registered them, each of their records that the database holds ends in
    a terminal status, and the other captures and the station tasks stay
    as they are. *)
Theorem shutdown_save_selects_by_prefix sid s :
  let s' := exec (_save_station_recordings_on_shutdown cfg env sid) s in
  dom (recording_processes s') =
    filter (λ k, String.prefix sid k = false) (dom (recording_processes s)) ∧
  (∀ k, String.prefix sid k = false →
        recording_processes s' !! k = recording_processes s !! k) ∧
  station_tasks s' = station_tasks s ∧
  ∀ k data rec,
    String.prefix sid k = true →
    recording_processes s !! k = Some data →
    recordings s !! rd_recording_id data = Some rec →
    ∃ rec', recordings s' !! rd_recording_id data = Some rec' ∧
            is_terminal (recording_status rec') = true.
Proof.
  intros s'. subst s'.
  destruct (save_station_recordings_effect sid s) as (Hprocs & Htasks & Hrecs).
  split; [|split; [|split; [done|done] ] ].
  - apply set_eq. intros k. rewrite elem_of_filter, !elem_of_dom, Hprocs.
    destruct (String.prefix sid k); split.
    + by intros [? ?].
    + by intros [? _].
    + by intros ?.
    + by intros [_ ?].
  - intros k Hpre. by rewrite Hprocs, Hpre.
Qed.

Lemma stop_idle s :
  station_tasks s = ∅ → recording_processes s = ∅ → stop cfg env s = (tt, s).
Proof.
  intros Htasks Hprocs. unfold stop, bind, get.
  rewrite Hprocs, dom_empty_L, elements_empty. simpl.
  rewrite Htasks, map_to_list_empty. simpl. unfold clear_tracking.
  destruct s. simpl in *. by subst.
Qed.

Lemma stop_clears s :
  station_tasks (exec (stop cfg env) s) = ∅ ∧
  recording_processes (exec (stop cfg env) s) = ∅.
Proof.
  unfold exec, stop, bind, get.
  destruct (for_each _ (_stop_session_recording cfg env) s) as [[] s1].
  destruct (for_each _ (cancel_task cfg env) s1) as [[] s2]. done.
Qed.

(** X13: [stop] is idempotent: called again on a stopped service it
    returns at once, with the state as it was and no event. *)
Theorem stop_is_idempotent s :
  stop cfg env (exec (stop cfg env) s) = (tt, exec (stop cfg env) s).
Proof. destruct (stop_clears s). by apply stop_idle. Qed.

End shutdown_more.

(** ** Starting again while the service runs *)

Section restart.
Context (cfg : Config) (env : Env).




End restart.


(** ** Sessions of a stored schedule *)

(** X15: the resolver never falls back to midnight on a stored session.
    In a schedule that passes validation, a session that the resolver
    reports as current has, as [start_time] and [end_time], two strings
    of the form H:M with H from 0 to 23 and M from 0 to 59, which
    [_time_to_seconds] reads as H * 3600 + M * 60, and the [start_time]
    is below the [end_time] as a string. *)
Theorem current_session_of_stored_schedule sch now session :
  passes_validation sch = true →
  _get_current_session (Some sch) now = Some session →
  ∃ a b ha ma hb mb,
    session !! "start_time" = Some (PStr a) ∧ session !! "end_time" = Some (PStr b) ∧
    hh_mm_form a ∧ hh_mm_form b ∧
    (0 ≤ ha ≤ 23 ∧ 0 ≤ ma ≤ 59 ∧ 0 ≤ hb ≤ 23 ∧ 0 ≤ mb ≤ 59)%Z ∧
    _time_to_seconds (PStr a) = (ha * 3600 + ma * 60)%Z ∧
    _time_to_seconds (PStr b) = (hb * 3600 + mb * 60)%Z ∧
    PyStr.str_lt (PyStr.chars a) (PyStr.chars b) = true.
Proof.
  intros Hpass (_ & day_sessions & Hday & Hin)%current_session_matches.
  destruct (passes_validation_sessions sch _ _ _ Hpass (day_name_required _) Hday Hin)
    as (a & b & _ & Ha & Hb & Hva & Hvb & Hlt).
  destruct (is_valid_time_string _ Hva)
    as (a' & a1 & a2 & ha & ma & [= <-] & Hsa & Ha1 & Ha2 & Hha & Hma).
  destruct (is_valid_time_string _ Hvb)
    as (b' & b1 & b2 & hb & mb & [= <-] & Hsb & Hb1 & Hb2 & Hhb & Hmb).
  exists a, b, ha, ma, hb, mb.
  split; [done|]. split; [done|].
  split. { apply hh_mm_parses_spec. unfold hh_mm_parses. by rewrite Hsa, Ha1, Ha2. }
  split. { apply hh_mm_parses_spec. unfold hh_mm_parses. by rewrite Hsb, Hb1, Hb2. }
  split; [lia|].
  unfold _time_to_seconds. by rewrite Hsa, Ha1, Ha2, Hsb, Hb1, Hb2.
Qed.

Lemma current_session_of_stored_schedule_witness :
  ∃ a b ha ma hb mb,
    unpadded_overnight_session !! "start_time" = Some (PStr a) ∧
    unpadded_overnight_session !! "end_time" = Some (PStr b) ∧
    hh_mm_form a ∧ hh_mm_form b ∧
    (0 ≤ ha ≤ 23 ∧ 0 ≤ ma ≤ 59 ∧ 0 ≤ hb ≤ 23 ∧ 0 ≤ mb ≤ 59)%Z ∧
    _time_to_seconds (PStr a) = (ha * 3600 + ma * 60)%Z ∧
    _time_to_seconds (PStr b) = (hb * 3600 + mb * 60)%Z ∧
    PyStr.str_lt (PyStr.chars a) (PyStr.chars b) = true.
Proof.
  apply (current_session_of_stored_schedule unpadded_overnight_schedule
           (at_time Monday 23 0 0)).
  - vm_compute. reflexivity.
  - vm_compute. reflexivity.
Defined.

(** ** The verdict of the preflight validation *)

Lemma validate_database_ok p :
  (_validate_database p).1 = true ↔
  ∃ table_error, database p = DbConnected table_error ∧
                 Forall (λ table, table_error table = None) tables_to_check.
Proof.
  unfold _validate_database, tables_to_check.
  destruct (database p) as [e|table_error]; simpl.
  - split; [done|]. by intros (? & ? & _).
  - destruct (table_error "stations") eqn:H1;
      destruct (table_error "station_schedules") eqn:H2;
      destruct (table_error "radio_session_recordings") eqn:H3; simpl;
      (split; [try done|]).
    all: try (intros (te & [= <-] & Hall);
              repeat (apply Forall_cons in Hall as [? Hall]); congruence).
    intros _. exists table_error. split; [done|]. by repeat constructor.
Qed.

(** X16: the report is valid exactly when FFmpeg answers with a version
    line, the disk usage of the recording directory can be read, the
    database is reached and its three tables answer, the permission test
    file is written, read back and cleaned up, and the CPU count is known
    or the resource check failed as a whole. The required disk space, the
    network, the time zone, the services and the sizes measured play no
    part. *)
Theorem validation_verdict min_disk_gb p :
  is_valid (validate_system min_disk_gb p) = true ↔
    (_validate_ffmpeg (platform p) (which_ffmpeg p) (ffmpeg_runs p)).1.1 = true ∧
    is_Some (match disk_usage p with inl u => Some u | inr _ => None end) ∧
    (∃ table_error, database p = DbConnected table_error ∧
                    Forall (λ table, table_error table = None) tables_to_check) ∧
    write_test_error p = None ∧
    read_back p = "test" ∧
    permissions_late_error p = None ∧
    (∀ memory_total found, resources p ≠ ResourcesRead memory_total None found).
Proof.
  rewrite validate_system_valid_iff, validate_system_errors.
  rewrite <- validate_database_ok.
  unfold _validate_storage_os_specific, _validate_file_permissions_os_specific,
    _check_system_resources_os_specific.
  destruct (_validate_ffmpeg (platform p) (which_ffmpeg p) (ffmpeg_runs p)) as [[[] ?] ?];
    destruct (disk_usage p) as [[free total]|?]; try destruct (total =? 0)%N;
    destruct (_validate_database p) as [[] ?];
    destruct (write_test_error p);
    destruct (String.eqb_spec (read_back p) "test");
    destruct (permissions_late_error p);
    destruct (resources p) as [?|? [?|] ?]; simpl;
    split; try done;
    try (intros (? & ? & ? & ? & ? & ? & ?); try done; try (by eapply is_Some_None));
    try (intros _; repeat split; try done; by eauto).
  all: match goal with
       | H : ∀ m f, ResourcesRead _ None _ ≠ _ |- _ => by destruct (H _ _ eq_refl)
       end.
Qed.

(** ** Adding seconds to a time of day *)

Lemma bytes_app a b : Utf8.bytes (a +:+ b) = Utf8.bytes a ++ Utf8.bytes b.
Proof.
  unfold Utf8.bytes. rewrite <- fmap_app. f_equal.
  induction a as [|c a IH]; simpl; [done|]. by rewrite <- IH.
Qed.

Lemma decode_ascii l : Forall (λ b, (b < 128)%N) l → Utf8.decode l = l.
Proof.
  induction 1 as [|b l Hb _ IH]; simpl; [done|].
  replace (b <? 128)%N with true by (symmetry; by apply N.ltb_lt).
  by rewrite IH.
Qed.

Lemma two_digits_parse x :
  (0 ≤ x < 100)%Z →
  PyStr.py_int (PyStr.chars (two_digits x)) = Some x ∧
  (PyStr.colon ∉ PyStr.chars (two_digits x)) ∧
  Forall (λ b, (b < 128)%N) (Utf8.bytes (two_digits x)).
Proof.
  intros Hx.
  assert (forallb
            (λ n, bool_decide
                    (PyStr.py_int (PyStr.chars (two_digits (Z.of_nat n))) = Some (Z.of_nat n) ∧
                     (PyStr.colon ∉ PyStr.chars (two_digits (Z.of_nat n))) ∧
                     Forall (λ b, (b < 128)%N) (Utf8.bytes (two_digits (Z.of_nat n)))))
            (seq 0 100) = true) as Hall by (vm_compute; reflexivity).
  rewrite forallb_forall in Hall. specialize (Hall (Z.to_nat x)).
  rewrite Z2Nat.id in Hall by lia.
  eapply bool_decide_eq_true_1, Hall, in_seq. lia.
Qed.

Lemma strftime_HM_parse h m :
  (0 ≤ h < 100)%Z → (0 ≤ m < 100)%Z →
  _time_to_seconds (PStr (strftime_HM h m)) = (h * 3600 + m * 60)%Z.
Proof.
  intros Hh Hm.
  destruct (two_digits_parse h Hh) as (Hph & Hch & Hah).
  destruct (two_digits_parse m Hm) as (Hpm & Hcm & Ham).
  unfold _time_to_seconds, strftime_HM.
  assert (PyStr.split_on PyStr.colon
            (PyStr.chars (two_digits h +:+ ":" +:+ two_digits m)) =
          [PyStr.chars (two_digits h); PyStr.chars (two_digits m)]) as ->.
  { apply split_on_two. split; [|done].
    unfold PyStr.chars in *. rewrite !bytes_app.
    rewrite !decode_ascii; try done.
    - apply Forall_app. split; [done|]. apply Forall_app. split; [|done].
      by repeat constructor. }
  by rewrite Hph, Hpm.
Qed.

(** X17: for a time whose two integers are an hour of 0..23 and a minute
    of 0..59, and as long as the date stays within the years 1..9999,
    [_add_seconds_to_time] returns the time [seconds] later on the clock
    face, as HH:MM: read back by [_time_to_seconds] it is the sum modulo
    one day, rounded down to the minute. *)
Theorem add_seconds_round_trip today s a b h m n :
  PyStr.split_on PyStr.colon (PyStr.chars s) = [a; b] →
  PyStr.py_int a = Some h → PyStr.py_int b = Some m →
  (0 ≤ h < 24)%Z → (0 ≤ m < 60)%Z →
  (1 ≤ today ≤ max_ordinal)%Z →
  (1 ≤ today + (h * 3600 + m * 60 + n) / 86400 ≤ max_ordinal)%Z →
  let r := _add_seconds_to_time today (PStr s) n in
  let total := (h * 3600 + m * 60 + n)%Z in
  r = PStr (strftime_HM (total mod 86400 / 3600) (total mod 86400 mod 3600 / 60)) ∧
  _time_to_seconds r = ((_time_to_seconds (PStr s) + n) mod 86400 / 60 * 60)%Z.
Proof.
  intros Hsplit Ha Hb Hh Hm Htoday Hday r total. subst r.
  assert (_add_seconds_to_time today (PStr s) n =
          PStr (strftime_HM (total mod 86400 / 3600) (total mod 86400 mod 3600 / 60)))
    as Hr.
  { unfold _add_seconds_to_time. rewrite Hsplit, Ha, Hb.
    replace ((0 <=? h) && (h <? 24) && (0 <=? m) && (m <? 60))%Z with true
      by (symmetry; rewrite !andb_true_iff, !Z.leb_le, !Z.ltb_lt; lia).
    replace ((- max_delta_days <=? n / 86400) && (n / 86400 <=? max_delta_days))%Z
      with true.
    2:{ symmetry. rewrite !andb_true_iff, !Z.leb_le.
        unfold max_delta_days, max_ordinal in *. clear -Hh Hm Htoday Hday.
        Z.div_mod_to_equations. lia. }
    cbv zeta. fold total.
    replace ((1 <=? today + total / 86400) && (today + total / 86400 <=? max_ordinal))%Z
      with true
      by (symmetry; rewrite !andb_true_iff, !Z.leb_le; subst total; lia).
    done. }
  split; [exact Hr|]. rewrite Hr.
  assert (_time_to_seconds (PStr s) = h * 3600 + m * 60)%Z as ->.
  { unfold _time_to_seconds. by rewrite Hsplit, Ha, Hb. }
  fold total.
  pose proof (Z.mod_pos_bound total 86400 ltac:(lia)) as Hsod.
  rewrite strftime_HM_parse.
  - generalize (total mod 86400)%Z Hsod. clear. intros sod Hsod.
    Z.div_mod_to_equations. lia.
  - generalize (total mod 86400)%Z Hsod. clear. intros sod Hsod.
    Z.div_mod_to_equations. lia.
  - generalize (total mod 86400)%Z Hsod. clear. intros sod Hsod.
    Z.div_mod_to_equations. lia.
Qed.

Lemma add_seconds_round_trip_witness :
  _add_seconds_to_time 739000 (PStr " 23:5") 3630 = PStr "00:05" ∧
  _time_to_seconds (_add_seconds_to_time 739000 (PStr " 23:5") 3630) = 300%Z.
Proof.
  apply (add_seconds_round_trip 739000 " 23:5" (PyStr.chars " 23") (PyStr.chars "5") 23 5 3630).
  - reflexivity.
  - reflexivity.
  - reflexivity.
  - lia.
  - lia.
  - vm_compute. split; discriminate.
  - vm_compute. split; discriminate.
Defined.

(** X18: [_add_seconds_to_time] never raises and returns either its
    argument unchanged or a five-character HH:MM time with an hour of
    00..23 and a minute of 00..59. The argument comes back unchanged when it
    is not a string of two integers, and also when the hour is not within
    0..23 or the minute not within 0..59, times that [_time_to_seconds]
    converts without complaint. *)
Theorem add_seconds_result today time_str n :
  let r := _add_seconds_to_time today time_str n in
  (r = time_str ∨
   ∃ h m, (0 ≤ h < 24)%Z ∧ (0 ≤ m < 60)%Z ∧ r = PStr (strftime_HM h m) ∧
          _time_to_seconds r = (h * 3600 + m * 60)%Z) ∧
  ((∀ s, time_str = PStr s → hh_mm_parses s = false) → r = time_str) ∧
  (¬ (0 ≤ _time_to_seconds time_str < 86400)%Z → r = time_str).
Proof.
  intros r. subst r. unfold _add_seconds_to_time.
  destruct time_str as [| | |s]; try (split; [by left|by split]).
  destruct (PyStr.split_on PyStr.colon (PyStr.chars s)) as [|a [|b [|] ] ] eqn:Hsplit;
    try (split; [by left|by split]).
  destruct (PyStr.py_int a) as [h|] eqn:Ha; [|split; [by left|by split] ].
  destruct (PyStr.py_int b) as [m|] eqn:Hb; [|split; [by left|by split] ].
  destruct ((0 <=? h) && (h <? 24) && (0 <=? m) && (m <? 60))%Z eqn:Hrange;
    [|split; [by left|by split] ].
  apply andb_true_iff in Hrange as [[[Hh0 Hh]%andb_true_iff Hm0]%andb_true_iff Hm].
  apply Z.leb_le in Hh0, Hm0. apply Z.ltb_lt in Hh, Hm.
  destruct ((- max_delta_days <=? n / 86400) && (n / 86400 <=? max_delta_days))%Z;
    [|split; [by left|by split] ].
  cbv zeta.
  destruct ((1 <=? today + (h * 3600 + m * 60 + n) / 86400) &&
            (today + (h * 3600 + m * 60 + n) / 86400 <=? max_ordinal))%Z;
    [|split; [by left|by split] ].
  pose proof (Z.mod_pos_bound (h * 3600 + m * 60 + n) 86400 ltac:(lia)) as Hsod.
  set (sod := ((h * 3600 + m * 60 + n) mod 86400)%Z) in *.
  assert (0 ≤ sod / 3600 < 24)%Z as Hhh by (Z.div_mod_to_equations; lia).
  assert (0 ≤ sod mod 3600 / 60 < 60)%Z as Hmm by (Z.div_mod_to_equations; lia).
  split; [|split].
  - right. exists (sod / 3600)%Z, (sod mod 3600 / 60)%Z.
    split; [done|]. split; [done|]. split; [done|].
    apply strftime_HM_parse; lia.
  - intros Hbad. specialize (Hbad s eq_refl). unfold hh_mm_parses in Hbad.
    rewrite Hsplit, Ha, Hb in Hbad. simpl in Hbad. done.
  - intros Hout. exfalso. apply Hout. unfold _time_to_seconds.
    rewrite Hsplit, Ha, Hb. lia.
Qed.

Lemma add_seconds_result_witness :
  _add_seconds_to_time 739000 (PStr "24:00") 60 = PStr "24:00" ∧
  _time_to_seconds (PStr "24:00") = 86400%Z.
Proof.
  split; [|reflexivity].
  apply (add_seconds_result 739000 (PStr "24:00") 60). vm_compute. intros [_ H].
  discriminate H.
Defined.

(** ** How long stopping takes *)

Section stop_time.
Context (cfg : Config) (env : Env).

Lemma stop_capture_process_clock process s :
  delays_nonneg cfg →
  ∃ s', stop_capture_process cfg env process s = (tt, s') ∧
    (clock s ≤ clock s' ≤
       clock s + process_cleanup_timeout cfg + 100 +
       (if is_windows cfg then windows_file_delay cfg else 1000))%Z.
Proof.
  intros (_ & _ & Htimeout & Hwd).
  unfold stop_capture_process, _terminate_process, _force_kill_process.
  unfold bind at 1.
  destruct (signal_process_result env SIGTERM process s)
    as (b1 & s1 & -> & Hc1 & _).
  unfold bind at 1.
  destruct (wait_for_process_cleanup_cases cfg env process None s1)
    as (b & s2 & -> & _ & _ & Hmono & Hyes & Hno).
  simpl in Hyes, Hno. specialize (Hmono Hwd).
  destruct b; simpl.
  - eexists. split; [reflexivity|]. destruct (Hyes eq_refl) as [_ Hlt].
    destruct (is_windows cfg); lia.
  - destruct (Hno eq_refl) as (_ & _ & Hlt). specialize (Hlt Htimeout).
    unfold bind at 1.
    destruct (signal_process_result env SIGKILL process s2)
      as (b3 & s3 & -> & Hc3 & _).
    unfold bind, sleep, _is_process_running, next_tick, ret. simpl.
    eexists. split; [reflexivity|]. simpl. destruct (is_windows cfg); lia.
Qed.

Lemma finalized_record_clock data rec s :
  delays_nonneg cfg →
  ∃ rec' s', finalized_record cfg env data rec s = (rec', s') ∧
    (clock s ≤ clock s' ≤
       clock s + 4 * (Z.of_nat (max_file_access_retries cfg) * max_retry_delay cfg))%Z.
Proof.
  intros (Hb & Hm & _ & _).
  unfold finalized_record. cbv zeta.
  unfold bind at 1, get at 1. unfold bind at 1, path_exists at 1, get at 1.
  destruct (bool_decide _); simpl;
    [|eexists _, _; split; [reflexivity|simpl; lia] ].
  unfold bind at 1.
  destruct (getsize_frame env (rd_file_path data) s) as (r & s1 & -> & _ & Hc1 & _).
  destruct r as [[|n]|e];
    try (eexists _, _; split; [reflexivity|simpl; lia]).
  unfold bind at 1.
  destruct (safe_file_read_clock cfg env (rd_file_path data) s1 Hb Hm)
    as ([[ok content] msg] & s2 & -> & Hc2).
  cbn beta iota.
  destruct ok, content as [[|b c]|];
    try (eexists _, _; split; [reflexivity|simpl; lia]).
  unfold bind at 1, save_upload_file at 1, bind at 1 2, emit, next_tick. simpl.
  destruct (upload_outcome env (basename (is_windows cfg) (rd_file_path data)) (tick s2))
    as [saved url|e residue].
  - unfold bind at 1, write_file at 1, ret at 1.
    unfold bind at 1, assign at 1, bind at 1, emit at 1, ret at 1. simpl.
    unfold bind.
    match goal with
    | |- context [_safe_file_delete cfg env ?p ?s3] =>
        destruct (safe_file_delete_clock cfg env p s3 Hb Hm) as (dr & s4 & -> & Hc4)
    end.
    simpl in Hc4. eexists _, _. split; [reflexivity|]. lia.
  - unfold bind, leave_residue, write_file, ret, assign, bind, emit, ret.
    destruct residue as [[rp [rb|]]|]; simpl;
      (eexists _, _; split; [reflexivity|]; simpl; lia).
Qed.

Lemma stop_session_recording_clock key s :
  delays_nonneg cfg →
  let s' := exec (_stop_session_recording cfg env key) s in
  (clock s ≤ clock s' ≤ clock s + stop_time_budget cfg)%Z.
Proof.
  intros Hsane s'. subst s'.
  assert (0 ≤ stop_time_budget cfg)%Z as Hbudget.
  { pose proof Hsane as (_ & ? & ? & ?). unfold stop_time_budget.
    destruct (is_windows cfg); lia. }
  unfold exec.
  destruct (_stop_session_recording cfg env key s) as [[] s'] eqn:Hrun. simpl.
  unfold _stop_session_recording in Hrun. unfold bind at 1, get at 1 in Hrun.
  destruct (recording_processes s !! key) as [data|].
  2:{ injection Hrun as <-. lia. }
  unfold bind at 1 in Hrun.
  destruct (stop_capture_process_clock (rd_process data) s Hsane) as (s1 & Hrun1 & Hc1).
  rewrite Hrun1 in Hrun. unfold bind at 1 in Hrun.
  assert (∃ s2, _finalize_recording cfg env data s1 = (tt, s2) ∧
            (clock s1 ≤ clock s2 ≤
               clock s1 + 4 * (Z.of_nat (max_file_access_retries cfg) *
                               max_retry_delay cfg))%Z)
    as (s2 & Hrun2 & Hc2).
  { pose proof Hsane as (_ & ? & _).
    unfold _finalize_recording. cbv zeta. unfold bind at 1, get at 1.
    destruct (recordings s1 !! rd_recording_id data) as [rec|];
      [|eexists; split; [reflexivity|lia] ].
    unfold bind.
    destruct (finalized_record_clock data rec s1) as (rec' & s2 & -> & Hc2).
    { done. }
    eexists. split; [reflexivity|]. simpl. lia. }
  rewrite Hrun2 in Hrun. unfold deregister in Hrun.
  unfold stop_time_budget.
  destruct (recording_processes s2 !! key); injection Hrun as <-; simpl; lia.
Qed.

Lemma drain_clock keys s :
  delays_nonneg cfg →
  let s' := exec (for_each keys (_stop_session_recording cfg env)) s in
  (clock s ≤ clock s' ≤ clock s + Z.of_nat (length keys) * stop_time_budget cfg)%Z.
Proof.
  intros Hsane. revert s. induction keys as [|k keys IH]; intros s; cbv zeta.
  - unfold exec. simpl. lia.
  - rewrite for_each_cons.
    pose proof (stop_session_recording_clock k s Hsane) as H1. cbv zeta in H1.
    specialize (IH (exec (_stop_session_recording cfg env k) s)). cbv zeta in IH.
    simpl length. lia.
Qed.

(** X19: with non-negative delays, stopping one recording (ending the
    process, finalizing the capture, dropping the entry) takes at most
    [stop_time_budget]: the cleanup timeout overrun by one poll, the pause
    after a kill, and four rounds of file retries. *)
Theorem stop_one_recording_time_bound key s :
  delays_nonneg cfg →
  (0 ≤ elapsed s (exec (_stop_session_recording cfg env key) s) ≤ stop_time_budget cfg)%Z.
Proof.
  intros Hsane. pose proof (stop_session_recording_clock key s Hsane) as H.
  cbv zeta in H. unfold elapsed. lia.
Qed.

(** X20: with non-negative delays, [stop] takes at most [stop_time_budget]
    for each capture that is active when it is called; cancelling the
    station tasks adds nothing. *)
Theorem shutdown_time_bound s :
  delays_nonneg cfg →
  (0 ≤ elapsed s (exec (stop cfg env) s) ≤
     Z.of_nat (size (recording_processes s)) * stop_time_budget cfg)%Z.
Proof.
  intros Hsane. unfold elapsed, exec.
  destruct (stop cfg env s) as [[] s'] eqn:Hrun. simpl.
  unfold stop in Hrun. unfold bind at 1, get at 1 in Hrun. unfold bind at 1 in Hrun.
  pose proof (drain_clock (elements (dom (recording_processes s))) s Hsane) as Hclock.
  destruct (drain_effect cfg env (elements (dom (recording_processes s))) s)
    as (_ & Hprocs & _).
  cbv zeta in Hclock. unfold exec in *.
  destruct (for_each (elements (dom (recording_processes s)))
              (_stop_session_recording cfg env) s) as [[] s1].
  simpl in *.
  assert (recording_processes s1 = ∅) as Hidle.
  { apply map_eq. intros k. rewrite Hprocs, lookup_empty.
    case_decide as Hin; [done|].
    apply not_elem_of_dom. by rewrite <- elem_of_elements. }
  unfold bind at 1, get at 1 in Hrun. unfold bind in Hrun.
  destruct (cancel_all_idle cfg env (map_to_list (station_tasks s1)) s1 Hidle)
    as [n Hcancel].
  rewrite Hcancel in Hrun.
  unfold clear_tracking in Hrun. injection Hrun as <-. simpl.
  assert (length (elements (dom (recording_processes s))) = size (recording_processes s))
    as Hlen.
  { rewrite <- size_dom. done. }
  rewrite Hlen in Hclock. lia.
Qed.

End stop_time.

Lemma stop_one_recording_time_bound_witness :
  (0 ≤ elapsed (sample_state (Some sample_audio))
         (exec (_stop_session_recording (default_config false) env_locked sample_key)
            (sample_state (Some sample_audio))) ≤ 1221100)%Z.
Proof.
  apply (stop_one_recording_time_bound (default_config false) env_locked sample_key
           (sample_state (Some sample_audio))).
  unfold delays_nonneg. simpl. lia.
Defined.

Lemma shutdown_time_bound_witness :
  (0 ≤ elapsed (sample_state (Some sample_audio))
         (exec (stop (default_config false) env_locked) (sample_state (Some sample_audio)))
     ≤ 1221100)%Z.
Proof.
  apply (shutdown_time_bound (default_config false) env_locked
           (sample_state (Some sample_audio))).
  unfold delays_nonneg. simpl. lia.
Defined.

(** ** A capture without its database record *)

Section orphan_capture.
Context (cfg : Config) (env : Env).

(** X21: when the database holds no record for a capture, stopping it
    still ends the process and drops the entry, but nothing is finalized:
    no upload, no delete, no commit, and the capture file stays where it
    is. *)
Theorem missing_record_leaves_capture_file key data s :
  recording_processes s !! key = Some data →
  recordings s !! rd_recording_id data = None →
  let s' := exec (_stop_session_recording cfg env key) s in
  recording_processes s' = delete key (recording_processes s) ∧
  recordings s' = recordings s ∧
  files s' = files s ∧
  ∃ evs, new_events s s' = evs ++ [EvDeregister key] ∧
         Forall (λ e, is_pause e ∨ ∃ sig, e = EvSignal (pid (rd_process data)) sig) evs.
Proof.
  intros Hkey Hrec s'. subst s'. unfold exec.
  destruct (_stop_session_recording cfg env key s) as [[] s'] eqn:Hrun. simpl.
  unfold _stop_session_recording in Hrun. unfold bind at 1, get at 1 in Hrun.
  rewrite Hkey in Hrun. unfold bind at 1 in Hrun.
  destruct (stop_capture_process_frames cfg env (rd_process data) s)
    as ([_ Hprocs1] & Hrecs1 & Hfiles1 & (evs1 & Htr1 & _)).
  destruct (stop_capture_process_steps cfg env (rd_process data) s)
    as (term & pauses & kill & Hev & Hp & Hterm & Hkill).
  unfold exec, same_recordings, same_files in *.
  destruct (stop_capture_process cfg env (rd_process data) s) as [[] s1]. simpl in *.
  rewrite (new_events_app _ _ _ Htr1) in Hev. subst evs1.
  unfold bind at 1 in Hrun.
  rewrite (finalize_recording_missing cfg env data s1) in Hrun by congruence.
  unfold deregister in Hrun. rewrite Hprocs1, Hkey in Hrun.
  injection Hrun as <-. simpl.
  split; [done|]. split; [done|]. split; [done|].
  exists (term ++ pauses ++ kill). split.
  - apply new_events_app. simpl. by rewrite Htr1, <- app_assoc.
  - apply Forall_app. split; [|apply Forall_app; split].
    + destruct Hterm as [->|[-> _] ]; [done|].
      apply Forall_cons. split; [right; by eexists|done].
    + eapply Forall_impl; [exact Hp|]. intros e He. by left.
    + destruct Hkill as [->|[_ [->|[-> _] ] ] ]; [done| |].
      * apply Forall_cons. split; [by left|done].
      * apply Forall_cons. split; [right; by eexists|].
        apply Forall_cons. split; [by left|done].
Qed.

End orphan_capture.

Lemma missing_record_leaves_capture_file_witness :
  let s := set_recordings ∅ (sample_state (Some sample_audio)) in
  let s' := exec (_stop_session_recording (default_config false) env_calm sample_key) s in
  files s' !! sample_path = Some sample_audio ∧ recordings s' = ∅.
Proof.
  intros s s'.
  destruct (missing_record_leaves_capture_file (default_config false) env_calm
              sample_key sample_data s eq_refl eq_refl) as (_ & Hrecs & Hfiles & _).
  subst s'. split; [rewrite Hfiles; reflexivity|exact Hrecs].
Defined.

(** ** What the unlock wait reports *)

Section unlock_results.
Context (cfg : Config) (env : Env).

Lemma unlock_loop_probes path base n attempt s :
  is_Some (files s !! path) →
  ∃ b s', unlock_loop cfg env path base n attempt s = (b, s') ∧
    (b = true → ∃ t, tick s ≤ t < tick s' ∧ file_locked env path t = false) ∧
    (b = false → tick s' = tick s + n ∧
                 ∀ t, tick s ≤ t < tick s' → file_locked env path t = true).
Proof.
  revert attempt s. induction n as [|n IH]; intros attempt s Hex.
  - exists false, s. split; [done|]. split; [done|]. intros _. split; [lia|].
    intros t Ht. lia.
  - cbn [unlock_loop]. unfold bind at 1.
    unfold _is_file_locked at 1, bind at 1, path_exists at 1, get at 1.
    rewrite bool_decide_eq_true_2 by done.
    unfold bind at 1, next_tick at 1, ret at 1.
    destruct (file_locked env path (tick s)) eqn:Hlocked; simpl.
    + unfold bind at 1, sleep at 1.
      match goal with
      | |- context [unlock_loop cfg env path base n (S attempt) ?s2] =>
          destruct (IH (S attempt) s2) as (b & s' & -> & Hyes & Hno); [done|]
      end.
      exists b, s'. split; [done|]. simpl in *. split.
      * intros Hb. destruct (Hyes Hb) as (t & Ht & Hfree). exists t. split; [lia|done].
      * intros Hb. destruct (Hno Hb) as [Htick Hall]. split; [lia|].
        intros t Ht. destruct (decide (t = tick s)) as [->|Hne]; [done|].
        apply Hall. lia.
    + eexists true, _. split; [reflexivity|]. simpl. split; [|done].
      intros _. exists (tick s). split; [lia|done].
Qed.

(** X22: [_wait_for_file_unlock] answers [False] at once, without a probe
    or a pause, for a file that does not exist. For a file that exists,
    [True] means that one of its probes found the file free, and [False]
    that it probed [max_retries] times and found the file locked each
    time. *)
Theorem wait_for_file_unlock_result path max_retries base s :
  let retries := default (max_file_access_retries cfg) max_retries in
  let r := _wait_for_file_unlock cfg env path max_retries base s in
  (files s !! path = None → r = (false, s)) ∧
  (is_Some (files s !! path) →
   (r.1 = true → ∃ t, tick s ≤ t < tick r.2 ∧ file_locked env path t = false) ∧
   (r.1 = false → tick r.2 = tick s + retries ∧
                  ∀ t, tick s ≤ t < tick r.2 → file_locked env path t = true)).
Proof.
  intros retries r. subst r retries.
  unfold _wait_for_file_unlock. cbv zeta. unfold bind, path_exists, get.
  split.
  - intros Hnone. rewrite Hnone.
    rewrite bool_decide_eq_false_2 by (by intros [? ?]). done.
  - intros Hex. rewrite bool_decide_eq_true_2 by done. simpl.
    destruct (unlock_loop_probes path (default (base_retry_delay cfg) base)
                (default (max_file_access_retries cfg) max_retries) 0 s Hex)
      as (b & s' & -> & Hyes & Hno).
    done.
Qed.

End unlock_results.

Lemma wait_for_file_unlock_result_witness :
  let r := _wait_for_file_unlock (default_config false) env_locked sample_path
             (Some 3) None (sample_state (Some sample_audio)) in
  r.1 = false ∧ tick r.2 = 3.
Proof.
  intros r. split; [reflexivity|].
  destruct (wait_for_file_unlock_result (default_config false) env_locked sample_path
              (Some 3) None (sample_state (Some sample_audio))) as [_ Hex].
  destruct Hex as [_ Hno]; [by eexists|].
  destruct (Hno eq_refl) as [Htick _]. exact Htick.
Defined.
